(** * pycistarget: motif enrichment with cisTarget

    A shallow embedding of [src/motif_enrichment_cistarget.py]: the two
    classes [cisTargetDatabase] (method [load_db]) and [cisTarget]
    (method [run_ctx]).

    The module is an orchestrator: the numerical kernels ([ctxcore.recovery]),
    the array reductions of numpy, the row sort of pandas, the ranking
    database ([ctxcore.rnkdb]) and the helpers of [pycistarget.utils] and of
    the base class [MotifEnrichmentResult] are called, not defined, by the
    file.  They are gathered in the class [Externals]; every call to one of
    them that the properties below speak about is recorded, with its
    arguments, in a trace.  The constructor [GeneSignature] of ctxcore, which
    [load_db] calls on a fixed name, is written out with the two checks it
    makes (a name, at least one gene).  Python floats are IEEE 754 binary64 numbers,
    embedded with the executable specification of the Standard Library
    ([SpecFloat]); exceptions are values of [exn] threaded by a state and
    error monad. *)

From Stdlib Require Import ZArith Floats.SpecFloat Sorting.Sorted.
From stdpp Require Import gmap strings list fin_maps sorting.

Set Default Proof Using "Type".
Open Scope Z_scope.

(** ** Python exceptions *)

Inductive exn : Type :=
| KeyError
| IndexError
| ValueError
| TypeError
| AttributeError
| OverflowError
| AssertionError
| IOError.

Global Instance exn_eq_dec : EqDecision exn.
Proof. solve_decision. Defined.

(** A computation either raises ([inl]) or returns ([inr]). *)
Definition result (A : Type) : Type := exn + A.

Definition is_raised {A} (r : result A) : bool :=
  match r with inl _ => true | inr _ => false end.

Definition result_bind {A B} (r : result A) (k : A → result B) : result B :=
  match r with inl e => inl e | inr a => k a end.

Fixpoint result_mapM {A B} (f : A → result B) (l : list A) : result (list B) :=
  match l with
  | [] => inr []
  | x :: t =>
      match f x with
      | inl e => inl e
      | inr y => match result_mapM f t with
                 | inl e => inl e
                 | inr ys => inr (y :: ys)
                 end
      end
  end.

(** [l[i]] on a Python list. *)
Definition getitem {A} (l : list A) (i : nat) : result A :=
  match l !! i with Some x => inr x | None => inl IndexError end.

(** ** binary64 floats *)

Module Float.

Definition float : Type := spec_float.

Definition prec : Z := 53.
Definition emax : Z := 1024.

Definition add : float → float → float := SFadd prec emax.
Definition sub : float → float → float := SFsub prec emax.
Definition mul : float → float → float := SFmul prec emax.
Definition div : float → float → float := SFdiv prec emax.

(** [x >= y]: false as soon as one side is NaN. *)
Definition ge (x y : float) : bool :=
  match SFcompare x y with
  | Some Gt | Some Eq => true
  | _ => false
  end.

Definition is_nan (x : float) : bool :=
  match x with S754_nan => true | _ => false end.

Definition is_zero (x : float) : bool :=
  match x with S754_zero _ => true | _ => false end.

Definition one : float := S754_finite false 4503599627370496 (-52).
Definition two : float := S754_finite false 4503599627370496 (-51).

(** [float(n)] for a Python int: rounded to nearest, [OverflowError] when
    the integer is too large for a binary64. *)
Definition of_int (n : Z) : result float :=
  match binary_normalize prec emax n 0 false with
  | S754_infinity _ => inl OverflowError
  | f => inr f
  end.

(** [int(x)]: truncation toward zero; [int(inf)] raises [OverflowError] and
    [int(nan)] raises [ValueError]. *)
Definition to_int (x : float) : result Z :=
  match x with
  | S754_zero _ => inr 0
  | S754_infinity _ => inl OverflowError
  | S754_nan => inl ValueError
  | S754_finite s m e =>
      let a := if (0 <=? e) then Z.pos m * 2 ^ e else Z.pos m / 2 ^ (- e) in
      inr (if s then - a else a)
  end.

(** [x * n] with [n] a Python int: the int is converted first. *)
Definition mul_int (x : float) (n : Z) : result float :=
  match of_int n with
  | inl e => inl e
  | inr f => inr (mul x f)
  end.

Global Instance float_eq_dec : EqDecision float.
Proof. solve_decision. Defined.

End Float.

Abbreviation float := Float.float.

(** ** Python strings: [in] and [split] *)

Fixpoint strip_prefix (p s : string) : option string :=
  match p with
  | EmptyString => Some s
  | String a p' =>
      match s with
      | EmptyString => None
      | String b s' => if decide (a = b) then strip_prefix p' s' else None
      end
  end.

(** [s.partition(sep)] at the leftmost occurrence of [sep]: the text before
    and the text after it, [None] when [sep] does not occur. *)
Fixpoint py_partition (sep s : string) : option (string * string) :=
  match strip_prefix sep s with
  | Some rest => Some (EmptyString, rest)
  | None =>
      match s with
      | EmptyString => None
      | String c t =>
          match py_partition sep t with
          | Some (b, a) => Some (String c b, a)
          | None => None
          end
      end
  end.

(** [sub in s] *)
Definition py_contains (sub s : string) : bool :=
  match py_partition sub s with Some _ => true | None => false end.

Fixpoint py_split_fuel (fuel : nat) (sep s : string) : list string :=
  match fuel with
  | O => [s]
  | S k =>
      match py_partition sep s with
      | None => [s]
      | Some (b, a) => b :: py_split_fuel k sep a
      end
  end.

(** [s.split(sep)] for a non-empty separator. *)
Definition py_split (sep s : string) : list string :=
  py_split_fuel (String.length s) sep s.

(** [sep.join(parts)] *)
Fixpoint py_join (sep : string) (parts : list string) : string :=
  match parts with
  | [] => EmptyString
  | [p] => p
  | p :: rest => p +:+ sep +:+ py_join sep rest
  end.

(** ** Python dicts (insertion ordered) and sets *)

Definition odict (V : Type) : Type := list (string * V).

Fixpoint od_lookup {V} (k : string) (d : odict V) : option V :=
  match d with
  | [] => None
  | (k', v) :: t => if decide (k' = k) then Some v else od_lookup k t
  end.

Fixpoint od_insert {V} (k : string) (v : V) (d : odict V) : odict V :=
  match d with
  | [] => [(k, v)]
  | (k', v') :: t =>
      if decide (k' = k) then (k, v) :: t else (k', v') :: od_insert k v t
  end.

Definition od_keys {V} (d : odict V) : list string := map fst d.

(** [{k: f(k) for k in keys}] *)
Definition od_comprehension {V} (f : string → V) (keys : list string) : odict V :=
  foldl (λ d k, od_insert k (f k) d) [] keys.

(** [list(set(l))]: the distinct elements, in the order of the set. *)
Definition list_set (l : list string) : list string :=
  elements (list_to_set l : gset string).

(** [list(set(a) & set(b))] *)
Definition list_set_inter (a b : list string) : list string :=
  elements ((list_to_set a : gset string) ∩ list_to_set b).

(** ** Data model *)

(** A pandas DataFrame of ranks: row labels (motifs), column labels
    (regions) and one list of ranks for each row. *)
Record DataFrame : Type := {
  df_index : list string;
  df_columns : list string;
  df_values : list (list Z)
}.

(** Positions of the labels [keys] in [labels]; [KeyError] when one is
    missing.  A label that occurs twice is taken at its first position: the
    labels of a ranking database are unique. *)
Definition get_indexer (labels keys : list string) : result (list nat) :=
  result_mapM (λ k, match list_find (λ l, l = k) labels with
                    | Some (i, _) => inr i
                    | None => inl KeyError
                    end) keys.

Definition take {A} (d : A) (ps : list nat) (l : list A) : list A :=
  map (λ p, nth p l d) ps.

(** [df[cols]] *)
Definition df_getitem (df : DataFrame) (cols : list string) : result DataFrame :=
  match get_indexer (df_columns df) cols with
  | inl e => inl e
  | inr ps => inr {| df_index := df_index df;
                     df_columns := cols;
                     df_values := map (take 0 ps) (df_values df) |}
  end.

(** [df.loc[rows, cols]] *)
Definition df_loc (df : DataFrame) (rows cols : list string) : result DataFrame :=
  match get_indexer (df_index df) rows with
  | inl e => inl e
  | inr rs =>
      match get_indexer (df_columns df) cols with
      | inl e => inl e
      | inr ps => inr {| df_index := rows;
                         df_columns := cols;
                         df_values := map (take 0 ps) (take [] rs (df_values df)) |}
      end
  end.

(** [df.columns = labels]: the number of labels must be the number of
    columns. *)
Definition df_set_columns (df : DataFrame) (labels : list string) : result DataFrame :=
  if decide (length labels = length (df_columns df))
  then inr {| df_index := df_index df; df_columns := labels; df_values := df_values df |}
  else inl ValueError.

(** A genomic interval and a PyRanges collection of them. *)
Record Interval : Type := { Chromosome : string; Start : Z; End : Z }.
Definition PyRanges : Type := list Interval.

(** One row of a table of [target_to_query]: the query region ([Target]) and
    the database region it maps to ([Query]), under its row label. *)
Record MappingRow : Type := { mr_label : string; Target : string; Query : string }.
Definition MappingTable : Type := list MappingRow.

(** [t.index = t['Target']] *)
Definition set_index_Target (t : MappingTable) : MappingTable :=
  map (λ r, {| mr_label := Target r; Target := Target r; Query := Query r |}) t.

(** [t.loc[labels]]: for each label the rows that carry it, [KeyError] when
    a label has none. *)
Definition mt_loc (t : MappingTable) (labels : list string) : result MappingTable :=
  result_bind
    (result_mapM (λ l, match filter (λ r, mr_label r = l) t with
                       | [] => inl KeyError
                       | rows => inr rows
                       end) labels)
    (λ groups, inr (concat groups)).

(** [t.loc[t['Query'].isin(hits), 'Target'].tolist()] *)
Definition targets_of_queries (t : MappingTable) (hits : list string) : list string :=
  map Target (filter (λ r, Query r ∈ hits) t).

(** The attribute [regions_to_db] of a database: [None], one table per
    region-set name, or a single table. *)
Inductive regions_to_db_t : Type :=
| RTD_None
| RTD_dict (d : odict MappingTable)
| RTD_table (t : MappingTable).

(** The argument [region_sets] of [load_db], by its run-time type. *)
Inductive region_sets_arg : Type :=
| RS_None
| RS_dict (d : odict PyRanges)
| RS_PyRanges (r : PyRanges)
| RS_other.

Record cisTargetDatabase : Type := {
  db_regions_to_db : regions_to_db_t;
  db_rankings : DataFrame;
  total_regions : Z
}.

(** The handle [FeatherRankingDatabase] of ctxcore. *)
Record FeatherRankingDatabase : Type := {
  total_genes : Z;
  genes : list string;
  load : list string → result DataFrame;
  load_full : result DataFrame
}.

(** The signature (a [Regulon]) built from the mapped regions. *)
Record Signature : Type := {
  sig_genes : list string;
  transcription_factor : string;
  sig_weight : string → float
}.

(** A row of the local table [enriched_features] of [run_ctx]. *)
Record EnrichedRow : Type := {
  r_motif : string;
  r_NES : float;
  r_AUC : float;
  r_Region_set : string;
  r_Motif_hits : list (string * float);
  r_Rank_at_max : Z
}.

(** A row of the attribute [motif_enrichment]. *)
Record MERow : Type := {
  me_motif : string;
  me_Region_set : string;
  me_NES : float;
  me_AUC : float;
  me_Rank_at_max : Z;
  me_annotation : list (string * string);
  me_Motif_hits : option nat
}.

Record MotifEnrichment : Type := {
  me_columns : list string;
  me_rows : list MERow
}.

(** The attributes [motif_hits] and [cistromes]: a dict with the keys
    ['Database'] and ['Region_set'], each a dict of region lists. *)
Abbreviation HitIndex := (gmap string (odict (list string))).

Record cisTarget : Type := {
  region_set : PyRanges;
  name : string;
  auc_threshold : float;
  nes_threshold : float;
  rank_threshold : float;
  motifs_to_use : option (list string);
  regions_to_db : option MappingTable;
  motif_enrichment : option MotifEnrichment;
  motif_hits : option HitIndex;
  cistromes : option HitIndex
}.

Definition set_regions_to_db (t : MappingTable) (self : cisTarget) : cisTarget :=
  {| region_set := region_set self; name := name self;
     auc_threshold := auc_threshold self; nes_threshold := nes_threshold self;
     rank_threshold := rank_threshold self; motifs_to_use := motifs_to_use self;
     regions_to_db := Some t; motif_enrichment := motif_enrichment self;
     motif_hits := motif_hits self; cistromes := cistromes self |}.

Definition set_motif_enrichment (t : MotifEnrichment) (self : cisTarget) : cisTarget :=
  {| region_set := region_set self; name := name self;
     auc_threshold := auc_threshold self; nes_threshold := nes_threshold self;
     rank_threshold := rank_threshold self; motifs_to_use := motifs_to_use self;
     regions_to_db := regions_to_db self; motif_enrichment := Some t;
     motif_hits := motif_hits self; cistromes := cistromes self |}.

Definition set_motif_hits (h : HitIndex) (self : cisTarget) : cisTarget :=
  {| region_set := region_set self; name := name self;
     auc_threshold := auc_threshold self; nes_threshold := nes_threshold self;
     rank_threshold := rank_threshold self; motifs_to_use := motifs_to_use self;
     regions_to_db := regions_to_db self; motif_enrichment := motif_enrichment self;
     motif_hits := Some h; cistromes := cistromes self |}.

Definition set_cistromes (c : HitIndex) (self : cisTarget) : cisTarget :=
  {| region_set := region_set self; name := name self;
     auc_threshold := auc_threshold self; nes_threshold := nes_threshold self;
     rank_threshold := rank_threshold self; motifs_to_use := motifs_to_use self;
     regions_to_db := regions_to_db self; motif_enrichment := motif_enrichment self;
     motif_hits := motif_hits self; cistromes := Some c |}.

(** ** External calls and their trace *)

Inductive event : Type :=
| Call_calc_aucs (rnk : DataFrame) (total : Z) (weights : list float)
    (auc_thr : float)
| Call_recovery (rnk : DataFrame) (total : Z) (weights : list float)
    (rank_cutoff : Z) (auc_thr : float) (no_auc : bool)
| Call_leading_edge4row (motif : string) (rcc : list float) (ranking : list Z)
    (avg2stdrcc : list float) (regions : list string) (weights : list float)
| Call_add_motif_annotation (self : cisTarget)
| Call_get_cistromes (self : cisTarget)
| Call_FeatherRankingDatabase (fname db_name : string)
| Call_target_to_query (rs : PyRanges) (db_regions : list string)
    (fraction_overlap : float)
| Call_load (signature : list string)
| Call_load_full.

(** Everything [motif_enrichment_cistarget.py] imports and calls. *)
Class Externals : Type := {
  (** numpy: [a.mean()], [a.std()] on a vector, and along axis 0 of a
      matrix given by its rows *)
  np_mean : list float → float;
  np_std : list float → float;
  np_mean_axis0 : list (list float) → list float;
  np_std_axis0 : list (list float) → list float;
  (** ctxcore.recovery: [aucs], [recovery] (its curves), [leading_edge4row] *)
  calc_aucs : DataFrame → Z → list float → float → result (list float);
  recovery : DataFrame → Z → list float → Z → float → bool →
             result (list (list float));
  leading_edge4row : list float → list Z → list float → list string →
                     list float → result (list (string * float) * Z);
  (** pandas: [df.sort_values('NES', ascending=False)], with the default
      [kind] *)
  sort_values_NES_desc : list EnrichedRow → list EnrichedRow;
  (** pycistarget.utils; [region_sets_to_signature] builds a [Regulon] of
      ctxcore, whose constructor can refuse its arguments *)
  coord_to_region_names : PyRanges → list string;
  region_sets_to_signature : list string → string → result Signature;
  target_to_query : PyRanges → list string → float → result MappingTable;
  (** MotifEnrichmentResult: [add_motif_annotation] gives the new value of
      [self.motif_enrichment], [get_cistromes] that of [self.cistromes] *)
  add_motif_annotation : cisTarget → result MotifEnrichment;
  get_cistromes : cisTarget → result HitIndex;
  (** ctxcore.rnkdb and os.path *)
  open_FeatherRankingDatabase : string → string → result FeatherRankingDatabase;
  basename : string → string
}.

(** ** The state and error monad *)

Definition M (Σ A : Type) : Type := Σ → Σ * result A.

Definition ret {Σ A} (a : A) : M Σ A := λ σ, (σ, inr a).
Definition raise {Σ A} (e : exn) : M Σ A := λ σ, (σ, inl e).
Definition bind {Σ A B} (m : M Σ A) (k : A → M Σ B) : M Σ B :=
  λ σ, match m σ with
       | (σ', inl e) => (σ', inl e)
       | (σ', inr a) => k a σ'
       end.
Definition lift {Σ A} (r : result A) : M Σ A := λ σ, (σ, r).
Definition get_state {Σ} : M Σ Σ := λ σ, (σ, inr σ).
Definition modify {Σ} (f : Σ → Σ) : M Σ unit := λ σ, (f σ, inr tt).

Notation "x <- m ;; k" := (bind m (λ x, k))
  (at level 100, m at next level, right associativity).
Notation "m ;;; k" := (bind m (λ _, k))
  (at level 100, right associativity).

Fixpoint mapM {Σ A B} (f : A → M Σ B) (l : list A) : M Σ (list B) :=
  match l with
  | [] => ret []
  | x :: t => y <- f x ;; ys <- mapM f t ;; ret (y :: ys)
  end.

(** States that carry a trace of the external calls. *)
Class Traced (Σ : Type) : Type := record : event → Σ → Σ.

(** An external call: the call is recorded, then its outcome is returned or
    raised. *)
Definition call {Σ} `{Traced Σ} {A} (ev : event) (r : result A) : M Σ A :=
  λ σ, (record ev σ, r).

(** The state of [load_db] is the trace alone. *)
Global Instance trace_traced : Traced (list event) := λ ev tr, tr ++ [ev].

(** The state of [run_ctx]: the object [self] and the trace. *)
Record RunState : Type := { st_self : cisTarget; st_trace : list event }.

Global Instance run_state_traced : Traced RunState :=
  λ ev σ, {| st_self := st_self σ; st_trace := st_trace σ ++ [ev] |}.

Definition update_self (f : cisTarget → cisTarget) : M RunState unit :=
  modify (λ σ, {| st_self := f (st_self σ); st_trace := st_trace σ |}).

Definition get_self : M RunState cisTarget :=
  λ σ, (σ, inr (st_self σ)).

(** ** numpy indexing helpers *)

(** Keep the entries of [xs] whose mask bit is set. *)
Fixpoint compress {A} (mask : list bool) (xs : list A) : list A :=
  match mask, xs with
  | b :: m, x :: t => if b then x :: compress m t else compress m t
  | _, _ => []
  end.

(** [xs[mask]] (and [xs[mask, :]]): the mask must have the length of [xs]. *)
Definition bool_index {A} (xs : list A) (mask : list bool) : result (list A) :=
  if decide (length xs = length mask) then inr (compress mask xs)
  else inl IndexError.

(** [sum(mask)] *)
Definition py_sum (mask : list bool) : nat := length (filter (λ b, b = true) mask).

(** [pd.MultiIndex.from_tuples(list(zip(repeat(block), labels)))] for
    [n] labels: pandas cannot infer the number of levels of an empty list
    of tuples and raises [TypeError]. *)
Definition multiindex_from_tuples (n : nat) : result unit :=
  if decide (n = 0%nat) then inl TypeError else inr tt.

(** [pd.DataFrame(index=.., columns=.., data=rows)] with [width] column
    labels: every row must have [width] entries. *)
Definition check_width {A} (width : nat) (rows : list (list A)) : result unit :=
  if forallb (λ row, bool_decide (length row = width)) rows
  then inr tt else inl ValueError.

(** ** ctxcore signatures *)

(** [GeneSignature(name=name, gene2weight=keys)] for a list of distinct
    keys, given by its genes: every key gets the weight 1.0, so the genes
    are the keys in their order; the validators of the class refuse an empty
    name and an empty list of genes with [ValueError]. *)
Definition GeneSignature (name : string) (keys : list string)
  : result (list string) :=
  if decide (name = EmptyString) then inl ValueError
  else if decide (keys = []) then inl ValueError
  else inr keys.

Section Program.

Context `{Externals}.

(** ** [cisTarget.run_ctx] *)

(** Lines 296-298: the mapping of this run. *)
Definition resolve_regions_to_db (self : cisTarget) (ctx_db : cisTargetDatabase)
  : result MappingTable :=
  match db_regions_to_db ctx_db with
  | RTD_dict d =>
      match od_lookup (name self) d with
      | Some t => inr t
      | None => inl KeyError
      end
  | RTD_table t =>
      mt_loc t (list_set_inter (coord_to_region_names (region_set self))
                               (map Target t))
  | RTD_None => inl AttributeError
  end.

(** Lines 309-317: the rankings restricted to the motifs and regions. *)
Definition subset_rankings (self : cisTarget) (ctx_db : cisTargetDatabase)
    (regions : list string) : result DataFrame :=
  match motifs_to_use self with
  | Some ms =>
      df_loc (db_rankings ctx_db)
             (list_set_inter ms (df_index (db_rankings ctx_db))) regions
  | None => df_getitem (db_rankings ctx_db) regions
  end.

(** Line 325: [(aucs - aucs.mean()) / aucs.std()] *)
Definition compute_ness (aucs : list float) : list float :=
  map (λ a, Float.div (Float.sub a (np_mean aucs)) (np_std aucs)) aucs.

(** Line 328: [ness >= self.nes_threshold] *)
Definition enriched_features_idx (ness : list float) (thr : float) : list bool :=
  map (λ n, Float.ge n thr) ness.

(** Lines 333-345: the state set when no motif is enriched. *)
Definition empty_motif_enrichment : MotifEnrichment :=
  {| me_columns := ["Logo"; "Region_set"; "Direct_annot";
                    "Motif_similarity_annot"; "Orthology_annot";
                    "Motif_similarity_and_Orthology_annot";
                    "NES"; "AUC"; "Rank_at_max"]%string;
     me_rows := [] |}.

Definition empty_hit_index : HitIndex :=
  <["Database"%string := []]> (<["Region_set"%string := []]> ∅).

(** Line 374: [avgrcc + 2.0 * rccs.std(axis=0)] *)
Definition avg2stdrcc_of (rccs : list (list float)) : list float :=
  zip_with Float.add (np_mean_axis0 rccs)
           (map (Float.mul Float.two) (np_std_axis0 rccs)).

(** Lines 349-352 and 379-387: the rows of the wide table, before the
    leading edges are known: motif, NES, AUC, recovery curve, ranking. *)
Definition wide_rows (features : list string) (ness aucs : list float)
    (rccs : list (list float)) (rankings : list (list Z))
  : list (string * float * float * list float * list Z) :=
  zip (zip (zip (zip features ness) aucs) rccs) rankings.

(** Lines 390-391: one application of [leading_edge4row]. *)
Definition leading_edge_row (group : string) (avg2stdrcc : list float)
    (regions : list string) (weights : list float)
    (row : string * float * float * list float * list Z)
  : M RunState EnrichedRow :=
  let '(motif, nes, auc, rcc, ranking) := row in
  le <- call (Call_leading_edge4row motif rcc ranking avg2stdrcc regions weights)
             (leading_edge4row rcc ranking avg2stdrcc regions weights) ;;
  ret {| r_motif := motif; r_NES := nes; r_AUC := auc; r_Region_set := group;
         r_Motif_hits := le.1; r_Rank_at_max := le.2 |}.

(** Line 396: the columns [Region_set, NES, AUC, Rank_at_max]. *)
Definition to_MERow (r : EnrichedRow) : MERow :=
  {| me_motif := r_motif r; me_Region_set := r_Region_set r;
     me_NES := r_NES r; me_AUC := r_AUC r; me_Rank_at_max := r_Rank_at_max r;
     me_annotation := []; me_Motif_hits := None |}.

Definition motif_enrichment_of (rows : list EnrichedRow) : MotifEnrichment :=
  {| me_columns := ["Region_set"; "NES"; "AUC"; "Rank_at_max"]%string;
     me_rows := map to_MERow rows |}.

(** [enriched_features.loc[key, 'Motif_hits']] for a unique row label. *)
Definition loc_Motif_hits (rows : list EnrichedRow) (key : string)
  : list (string * float) :=
  match list_find (λ r, r_motif r = key) rows with
  | Some (_, r) => r_Motif_hits r
  | None => []
  end.

(** Line 406 *)
Definition db_motif_hits_of (rows : list EnrichedRow) : odict (list string) :=
  od_comprehension (λ key, map fst (loc_Motif_hits rows key)) (map r_motif rows).

(** Line 407 *)
Definition rs_motif_hits_of (mapping : MappingTable)
    (db_motif_hits : odict (list string)) : odict (list string) :=
  od_comprehension
    (λ key, list_set (targets_of_queries mapping
                        (default [] (od_lookup key db_motif_hits))))
    (od_keys db_motif_hits).

(** Line 409: [self.motif_enrichment['Motif_hits'] = counts] *)
Definition with_Motif_hits (r : MERow) (n : nat) : MERow :=
  {| me_motif := me_motif r; me_Region_set := me_Region_set r;
     me_NES := me_NES r; me_AUC := me_AUC r; me_Rank_at_max := me_Rank_at_max r;
     me_annotation := me_annotation r; me_Motif_hits := Some n |}.

Definition set_Motif_hits_column (t : MotifEnrichment) (counts : list nat)
  : result MotifEnrichment :=
  if decide (length counts = length (me_rows t))
  then inr {| me_columns := if decide ("Motif_hits"%string ∈ me_columns t)
                            then me_columns t
                            else me_columns t ++ ["Motif_hits"%string];
              me_rows := zip_with with_Motif_hits (me_rows t) counts |}
  else inl ValueError.

(** Lines 331-346 *)
Definition terminate_not_enriched : M RunState unit :=
  update_self (set_motif_enrichment empty_motif_enrichment) ;;;
  update_self (set_motif_hits empty_hit_index) ;;;
  update_self (set_cistromes empty_hit_index).

(** Lines 348-392: recovery curves of all motifs, reference curve, then the
    leading edge of each enriched motif. *)
Definition enriched_rows (self : cisTarget) (ctx_db : cisTargetDatabase)
    (sig : Signature) (regions : list string) (d : DataFrame)
    (weights aucs ness : list float) (idx : list bool)
  : M RunState (list EnrichedRow) :=
  features_e <- lift (bool_index (df_index d) idx) ;;
  let ness_e := compress idx ness in
  let aucs_e := compress idx aucs in
  product <- lift (Float.mul_int (rank_threshold self) (total_regions ctx_db)) ;;
  cutoff <- lift (Float.to_int product) ;;
  rccs <- call (Call_recovery d (total_regions ctx_db) weights cutoff
                              (auc_threshold self) true)
               (recovery d (total_regions ctx_db) weights cutoff
                         (auc_threshold self) true) ;;
  let avg2stdrcc := avg2stdrcc_of rccs in
  rccs_e <- lift (bool_index rccs idx) ;;
  rankings_e <- lift (bool_index (df_values d) idx) ;;
  lift (multiindex_from_tuples (length regions)) ;;;
  lift (check_width (length regions) rankings_e) ;;;
  lift (multiindex_from_tuples (Z.to_nat cutoff)) ;;;
  lift (check_width (Z.to_nat cutoff) rccs_e) ;;;
  let weights' := map (sig_weight sig) regions in
  mapM (leading_edge_row (transcription_factor sig) avg2stdrcc regions weights')
       (wide_rows features_e ness_e aucs_e rccs_e rankings_e).

(** Lines 394-415: sort, annotation, motif hits, cistromes. *)
Definition finish (rows : list EnrichedRow) : M RunState unit :=
  let enriched_features := sort_values_NES_desc rows in
  update_self (set_motif_enrichment (motif_enrichment_of enriched_features)) ;;;
  self <- get_self ;;
  annotated <- call (Call_add_motif_annotation self) (add_motif_annotation self) ;;
  update_self (set_motif_enrichment annotated) ;;;
  let db_motif_hits := db_motif_hits_of enriched_features in
  self <- get_self ;;
  mapping <- lift (match regions_to_db self with
                   | Some t => inr t
                   | None => inl AttributeError
                   end) ;;
  let rs_motif_hits := rs_motif_hits_of mapping db_motif_hits in
  update_self (set_motif_hits (<["Database"%string := db_motif_hits]>
                              (<["Region_set"%string := rs_motif_hits]> ∅))) ;;;
  self <- get_self ;;
  table <- lift (match motif_enrichment self with
                 | Some t => inr t
                 | None => inl AttributeError
                 end) ;;
  table' <- lift (set_Motif_hits_column table
                    (map (λ i, length (default [] (od_lookup i db_motif_hits)))
                         (od_keys db_motif_hits))) ;;
  update_self (set_motif_enrichment table') ;;;
  self <- get_self ;;
  c <- call (Call_get_cistromes self) (get_cistromes self) ;;
  update_self (set_cistromes c).

Definition run_ctx (ctx_db : cisTargetDatabase) : M RunState unit :=
  self <- get_self ;;
  mapping <- lift (resolve_regions_to_db self ctx_db) ;;
  update_self (set_regions_to_db mapping) ;;;
  region_set_signature <-
    lift (region_sets_to_signature (map Query mapping) (name self)) ;;
  let regions := sig_genes region_set_signature in
  db_rankings_regions <- lift (subset_rankings self ctx_db regions) ;;
  let weights := repeat Float.one (length regions) in
  aucs <- call (Call_calc_aucs db_rankings_regions (total_regions ctx_db)
                               weights (auc_threshold self))
               (calc_aucs db_rankings_regions (total_regions ctx_db)
                          weights (auc_threshold self)) ;;
  let ness := compute_ness aucs in
  let idx := enriched_features_idx ness (nes_threshold self) in
  if decide (py_sum idx = 0%nat) then terminate_not_enriched
  else
    rows <- enriched_rows self ctx_db region_set_signature regions
                          db_rankings_regions weights aucs ness idx ;;
    finish rows.

(** ** [cisTargetDatabase.load_db] *)

(** [[x.split('__')[1] for x in keys]] *)
Definition strip_keys (keys : list string) : result (list string) :=
  result_mapM (λ x, getitem (py_split "__" x) 1) keys.

(** Lines 108-111 *)
Definition split_prefix (db_regions : list string)
  : result (option string * list string) :=
  match getitem db_regions 0 with
  | inl e => inl e
  | inr first =>
      if py_contains "__" first then
        match getitem (py_split "__" first) 0 with
        | inl e => inl e
        | inr prefix =>
            match strip_keys db_regions with
            | inl e => inl e
            | inr stripped => inr (Some prefix, stripped)
            end
        end
      else inr (None, db_regions)
  end.

(** Lines 113-122: the mapping and the database regions it reaches. *)
Definition map_region_sets (region_sets : region_sets_arg)
    (db_regions : list string) (fraction_overlap : float)
  : M (list event) (regions_to_db_t * list string) :=
  match region_sets with
  | RS_dict d =>
      target_to_db_dict <-
        mapM (λ kv : string * PyRanges,
                t <- call (Call_target_to_query kv.2 db_regions fraction_overlap)
                          (target_to_query kv.2 db_regions fraction_overlap) ;;
                ret (kv.1, t)) d ;;
      ret (RTD_dict target_to_db_dict,
           list_set (concat (map (λ kv : string * MappingTable, map Query kv.2)
                                 target_to_db_dict)))
  | RS_PyRanges r =>
      target_to_db <- call (Call_target_to_query r db_regions fraction_overlap)
                           (target_to_query r db_regions fraction_overlap) ;;
      let target_to_db := set_index_Target target_to_db in
      ret (RTD_table target_to_db, list_set (map Query target_to_db))
  | _ => raise ValueError
  end.

(** Lines 124-125: [[prefix + '__' + x for x in keys]] *)
Definition add_prefix (prefix : option string) (keys : list string) : list string :=
  match prefix with
  | Some p => map (λ x, p +:+ "__" +:+ x) keys
  | None => keys
  end.

Definition load_db (fname : string) (region_sets : region_sets_arg)
    (db_name : option string) (fraction_overlap : float)
  : M (list event) (regions_to_db_t * DataFrame * Z) :=
  let db_name := match db_name with None => basename fname | Some n => n end in
  db <- call (Call_FeatherRankingDatabase fname db_name)
             (open_FeatherRankingDatabase fname db_name) ;;
  let total_regions := total_genes db in
  pv <- lift (split_prefix (genes db)) ;;
  let prefix := pv.1 in
  let db_regions := pv.2 in
  match region_sets with
  | RS_None =>
      db_rankings <- call Call_load_full (load_full db) ;;
      ret (RTD_None, db_rankings, total_regions)
  | _ =>
      mq <- map_region_sets region_sets db_regions fraction_overlap ;;
      let target_regions_in_db := add_prefix prefix mq.2 in
      target_regions_in_db <- lift (GeneSignature "test" target_regions_in_db) ;;
      db_rankings <- call (Call_load target_regions_in_db)
                          (load db target_regions_in_db) ;;
      db_rankings <-
        match prefix with
        | Some _ =>
            labels <- lift (strip_keys (df_columns db_rankings)) ;;
            lift (df_set_columns db_rankings labels)
        | None => ret db_rankings
        end ;;
      ret (mq.1, db_rankings, total_regions)
  end.

End Program.

(** ** Reference collaborators

    Small executable stand-ins for the external functions, on which the
    embedding is run on concrete inputs. *)

Module Reference.

Definition zero : float := S754_zero false.

Definition of_Z (n : Z) : float :=
  binary_normalize Float.prec Float.emax n 0 false.

Definition sum (l : list float) : float := foldl Float.add zero l.

Definition mean (l : list float) : float :=
  Float.div (sum l) (of_Z (Z.of_nat (length l))).

Definition std (l : list float) : float :=
  let m := mean l in
  SFsqrt Float.prec Float.emax
         (mean (map (λ x, let d := Float.sub x m in Float.mul d d) l)).

(** A reduction along axis 0 of a matrix given by its rows. *)
Definition axis0 (f : list float → float) (rows : list (list float))
  : list float :=
  match rows with
  | [] => []
  | r :: _ => map (λ j, f (map (λ row, nth j row zero) rows))
                  (seq 0 (length r))
  end.

(** The rank up to which the area is taken. *)
Definition rank_cutoff (auc_thr : float) (total : Z) : Z :=
  match Float.to_int (Float.mul auc_thr (of_Z total)) with
  | inr c => c
  | inl _ => 0
  end.

(** Area under the recovery curve of one ranking, as an integer. *)
Definition area (cutoff : Z) (ranking : list Z) : Z :=
  foldr (λ rk acc, (if rk <? cutoff then cutoff - rk else 0) + acc) 0 ranking.

(** The AUC kernel: like ctxcore it asserts that the largest possible
    area, [(rank_cutoff + 1) * weights.sum()], is positive. *)
Definition aucs (rnk : DataFrame) (total : Z) (weights : list float)
    (auc_thr : float) : result (list float) :=
  let cutoff := rank_cutoff auc_thr total in
  let maxauc := Float.mul (of_Z (cutoff + 1)) (sum weights) in
  if Float.ge zero maxauc then inl AssertionError
  else inr (map (λ ranking, Float.div (of_Z (area cutoff ranking)) maxauc)
                (df_values rnk)).

(** Recovery curves: at rank [k] the number of regions ranked at most
    [k]. *)
Definition curves (rnk : DataFrame) (total : Z) (weights : list float)
    (cutoff : Z) (auc_thr : float) (no_auc : bool)
  : result (list (list float)) :=
  inr (map (λ ranking,
              map (λ k, of_Z (Z.of_nat
                     (length (filter (λ rk, rk <= Z.of_nat k) ranking))))
                  (seq 0 (Z.to_nat cutoff)))
           (df_values rnk)).

(** Position of the first largest entry. *)
Fixpoint argmax_from (i best_i : nat) (best : float) (l : list float) : nat :=
  match l with
  | [] => best_i
  | x :: t =>
      if Float.ge best x then argmax_from (S i) best_i best t
      else argmax_from (S i) i x t
  end.

Definition argmax (l : list float) : nat :=
  match l with
  | [] => 0%nat
  | x :: t => argmax_from 1 0 x t
  end.

(** Leading edge: the rank of largest excess over the reference curve and
    the regions ranked below it. *)
Definition leading_edge (rcc : list float) (ranking : list Z)
    (avg2stdrcc : list float) (regions : list string) (weights : list float)
  : result (list (string * float) * Z) :=
  let rank_at_max := Z.of_nat (argmax (zip_with Float.sub rcc avg2stdrcc)) in
  inr (map (λ x, (x.1.1, x.2))
           (filter (λ x, x.1.2 <= rank_at_max)
                   (zip (zip regions ranking) weights)),
       rank_at_max).

(** Insertion in a list sorted by decreasing NES, before the first row
    that is not larger. *)
Fixpoint insert_desc (x : EnrichedRow) (l : list EnrichedRow)
  : list EnrichedRow :=
  match l with
  | [] => [x]
  | y :: t =>
      if Float.ge (r_NES x) (r_NES y) then x :: l else y :: insert_desc x t
  end.

(** A descending sort: rows are inserted from the last to the first. *)
Definition sort_stable (l : list EnrichedRow) : list EnrichedRow :=
  foldr insert_desc [] l.

(** Region names are taken from the chromosome field. *)
Definition region_names (rs : PyRanges) : list string := map Chromosome rs.

(** The regulon of a region set: its regions, each once and with the
    weight 1.0, under the name of the region set. *)
Definition regulon (queries : list string) (name : string) : Signature :=
  {| sig_genes := list_set queries;
     transcription_factor := name;
     sig_weight := λ _, Float.one |}.

(** Like the [Regulon] of ctxcore, a signature without a name or without a
    region is refused with [ValueError]. *)
Definition signature (queries : list string) (name : string)
  : result Signature :=
  if decide (name = EmptyString) then inl ValueError
  else if decide (queries = []) then inl ValueError
  else inr (regulon queries name).

(** A query region maps to the database region of the same name. *)
Definition exact_mapping (rs : PyRanges) (db_regions : list string)
    (fraction_overlap : float) : result MappingTable :=
  inr (map (λ n, {| mr_label := n; Target := n; Query := n |})
           (filter (λ n, n ∈ db_regions) (region_names rs))).

Definition annotation (self : cisTarget) : result MotifEnrichment :=
  match motif_enrichment self with
  | Some t => inr t
  | None => inl AttributeError
  end.

Definition hits_as_cistromes (self : cisTarget) : result HitIndex :=
  match motif_hits self with
  | Some h => inr h
  | None => inl AttributeError
  end.

(** A ranking database held in memory. *)
Definition feather (df : DataFrame) : FeatherRankingDatabase :=
  {| total_genes := Z.of_nat (length (df_columns df));
     genes := df_columns df;
     load := λ sig, df_getitem df (filter (λ k, k ∈ sig) (df_columns df));
     load_full := inr df |}.

Definition externals (sort : list EnrichedRow → list EnrichedRow)
    (kernel : DataFrame → Z → list float → float → result (list float))
    (db : DataFrame) : Externals :=
  {| np_mean := mean;
     np_std := std;
     np_mean_axis0 := axis0 mean;
     np_std_axis0 := axis0 std;
     calc_aucs := kernel;
     recovery := curves;
     leading_edge4row := leading_edge;
     sort_values_NES_desc := sort;
     coord_to_region_names := region_names;
     region_sets_to_signature := signature;
     target_to_query := exact_mapping;
     add_motif_annotation := annotation;
     get_cistromes := hits_as_cistromes;
     open_FeatherRankingDatabase := λ _ _, inr (feather db);
     basename := λ s, s |}.

(** *** Sample data *)

Definition half : float := S754_finite false 4503599627370496 (-53).

Definition new_cisTarget (rs : PyRanges) (nm : string)
    (auc_thr nes_thr rank_thr : float) (motifs : option (list string))
  : cisTarget :=
  {| region_set := rs; name := nm; auc_threshold := auc_thr;
     nes_threshold := nes_thr; rank_threshold := rank_thr;
     motifs_to_use := motifs; regions_to_db := None;
     motif_enrichment := None; motif_hits := None; cistromes := None |}.

Definition start (self : cisTarget) : RunState :=
  {| st_self := self; st_trace := [] |}.

Definition region (n : string) : Interval :=
  {| Chromosome := n; Start := 0; End := 0 |}.

(** Four motifs ranked over eight regions. *)
Definition rankings8 : DataFrame :=
  {| df_index := ["m1"; "m2"; "m3"; "m4"]%string;
     df_columns := ["r1"; "r2"; "r3"; "r4"; "r5"; "r6"; "r7"; "r8"]%string;
     df_values := [[0; 1; 2; 3; 4; 5; 6; 7];
                   [7; 6; 5; 4; 3; 2; 1; 0];
                   [1; 0; 7; 6; 5; 4; 3; 2];
                   [0; 1; 7; 6; 5; 4; 3; 2]] |}.

Definition query3 : PyRanges := [region "r1"; region "r2"; region "zz"].

Definition mapping3 : MappingTable :=
  [{| mr_label := "r1"; Target := "r1"; Query := "r1" |};
   {| mr_label := "r2"; Target := "r2"; Query := "r2" |}]%string.

Definition db8 : cisTargetDatabase :=
  {| db_regions_to_db := RTD_table mapping3;
     db_rankings := rankings8;
     total_regions := 8 |}.

Definition self3 : cisTarget :=
  new_cisTarget query3 "demo" half zero half None.

(** The same run with the NES threshold 3. *)
Definition self3_strict : cisTarget :=
  new_cisTarget query3 "demo" half (of_Z 3) half None.

(** The same run with the NES threshold -2, which every motif reaches. *)
Definition self3_all : cisTarget :=
  new_cisTarget query3 "demo" half (of_Z (-2)) half None.

(** A region set none of whose regions is in the mapping. *)
Definition self_unmapped : cisTarget :=
  new_cisTarget [region "zz"] "demo" half zero half None.

(** The collaborators over the sample database. *)
Definition stable8 : Externals := externals sort_stable aucs rankings8.

(** The sample rankings on the two mapped regions, and their AUCs. *)
Definition rankings8_mapped : DataFrame :=
  {| df_index := ["m1"; "m2"; "m3"; "m4"]%string;
     df_columns := ["r1"; "r2"]%string;
     df_values := [[0; 1]; [7; 6]; [1; 0]; [0; 1]] |}.

Definition aucs8 : list float :=
  Eval vm_compute in
    match aucs rankings8_mapped 8 [Float.one; Float.one] half with
    | inr a => a
    | inl _ => []
    end.

(** Two motifs with the same ranking: a constant AUC vector. *)
Definition rankings_flat : DataFrame :=
  {| df_index := ["m1"; "m2"]%string;
     df_columns := ["r1"; "r2"; "r3"; "r4"]%string;
     df_values := [[0; 1; 2; 3]; [0; 1; 2; 3]] |}.

Definition rankings_flat_mapped : DataFrame :=
  {| df_index := ["m1"; "m2"]%string;
     df_columns := ["r1"; "r2"]%string;
     df_values := [[0; 1]; [0; 1]] |}.

Definition db_flat : cisTargetDatabase :=
  {| db_regions_to_db := RTD_dict [("demo"%string, mapping3)];
     db_rankings := rankings_flat;
     total_regions := 4 |}.

Definition flat : Externals := externals sort_stable aucs rankings_flat.

Definition auc_flat : float :=
  Eval vm_compute in
    match aucs rankings_flat_mapped 4 [Float.one; Float.one] half with
    | inr (a :: _) => a
    | _ => zero
    end.

(** A database whose region keys carry the prefix [hg38]. *)
Definition rankings_hg38 : DataFrame :=
  {| df_index := ["m1"; "m2"]%string;
     df_columns := ["hg38__r1"; "hg38__r2"; "hg38__r3"]%string;
     df_values := [[0; 1; 2]; [2; 1; 0]] |}.

Definition hg38 : Externals := externals sort_stable aucs rankings_hg38.

Definition query_r1_r3 : PyRanges := [region "r1"; region "r3"; region "zz"].

(** Three motifs with the same ranking: on the two mapped regions each has
    the AUC 7/10. *)
Definition rankings_const3 : DataFrame :=
  {| df_index := ["m1"; "m2"; "m3"]%string;
     df_columns := ["r1"; "r2"; "r3"; "r4"; "r5"; "r6"; "r7"; "r8"]%string;
     df_values := [[0; 1; 2; 3; 4; 5; 6; 7];
                   [0; 1; 2; 3; 4; 5; 6; 7];
                   [0; 1; 2; 3; 4; 5; 6; 7]] |}.

Definition rankings_const3_mapped : DataFrame :=
  {| df_index := ["m1"; "m2"; "m3"]%string;
     df_columns := ["r1"; "r2"]%string;
     df_values := [[0; 1]; [0; 1]; [0; 1]] |}.

Definition db_const3 : cisTargetDatabase :=
  {| db_regions_to_db := RTD_table mapping3;
     db_rankings := rankings_const3;
     total_regions := 8 |}.

Definition const3 : Externals := externals sort_stable aucs rankings_const3.

Definition seven_tenths : float := Float.div (of_Z 7) (of_Z 10).

(** The run of the sample regions with the NES threshold 1.0. *)
Definition self3_one : cisTarget :=
  new_cisTarget query3 "demo" half Float.one half None.

(** A database with the prefix [hg38] whose first region key holds the
    separator a second time. *)
Definition rankings_alt : DataFrame :=
  {| df_index := ["m1"; "m2"]%string;
     df_columns := ["hg38__chr1__alt"; "hg38__r2"]%string;
     df_values := [[0; 1]; [1; 0]] |}.

Definition alt : Externals := externals sort_stable aucs rankings_alt.

Definition query_chr1_r2 : PyRanges := [region "chr1"; region "r2"].

End Reference.

(** * Properties *)

(** ** Floats *)

Lemma shl_align_same (m : positive) (e : Z) : shl_align m e e = (m, e).
Proof. unfold shl_align. by rewrite Z.sub_diag. Qed.

(** [c - c] is a zero, or NaN when [c] is infinite or NaN. *)
Lemma float_sub_diag (c : float) :
  Float.is_zero (Float.sub c c) = true ∨ Float.is_nan (Float.sub c c) = true.
Proof.
  destruct c as [s|s| |s m e]; simpl.
  - left. by destruct s.
  - right. by destruct s.
  - by right.
  - left. unfold Float.sub, SFsub.
    rewrite Z.min_id, shl_align_same. simpl. by rewrite Z.sub_diag.
Qed.

(** Zero or NaN divided by zero is NaN: the division does not raise. *)
Lemma float_div_zero (x z : float) :
  Float.is_zero z = true →
  Float.is_zero x = true ∨ Float.is_nan x = true →
  Float.div x z = S754_nan.
Proof.
  intros Hz [Hx | Hx]; destruct z; try discriminate; by destruct x.
Qed.

Lemma float_ge_nan_l (y : float) : Float.ge S754_nan y = false.
Proof. done. Qed.

Lemma float_ge_not_nan (x y : float) : Float.ge x y = true → Float.is_nan x = false.
Proof. by destruct x. Qed.

(** [>=] is transitive: a NaN is never related. *)
Lemma float_ge_trans (x y z : float) :
  Float.ge x y = true → Float.ge y z = true → Float.ge x z = true.
Proof.
  unfold Float.ge.
  destruct x as [sx|sx| |sx mx ex], y as [sy|sy| |sy my ey],
    z as [sz|sz| |sz mz ez]; simpl; try done;
    try (by destruct sx); try (by destruct sy); try (by destruct sz);
    try (by destruct sx, sy); try (by destruct sy, sz); try (by destruct sx, sz);
    try (by destruct sx, sy, sz).
  destruct sx, sy, sz; simpl; try done;
    change (PosDef.Pos.compare_cont Eq) with Pos.compare;
    destruct (Z.compare_spec ex ey), (Z.compare_spec ey ez),
      (Z.compare_spec ex ez); try done; try lia;
    destruct (Pos.compare_spec mx my), (Pos.compare_spec my mz),
      (Pos.compare_spec mx mz); simpl; try done; try lia.
Qed.

(** [int(0.5 * 8)] is 4, [int(0.3 * 10)] is 3, and [0.0 / 0.0] is NaN. *)
Example float_to_int_half_of_8 :
  result_bind (Float.mul_int Reference.half 8) Float.to_int = inr 4.
Proof. reflexivity. Qed.

Example float_to_int_three_tenths_of_10 :
  result_bind
    (Float.mul_int (Float.div (Reference.of_Z 3) (Reference.of_Z 10)) 10)
    Float.to_int = inr 3.
Proof. vm_compute. reflexivity. Qed.

Example float_zero_div_zero :
  Float.div Reference.zero Reference.zero = S754_nan.
Proof. reflexivity. Qed.

(** ** Masks *)

Lemma py_sum_cons (b : bool) (m : list bool) :
  py_sum (b :: m) = ((if b then 1 else 0) + py_sum m)%nat.
Proof. unfold py_sum. rewrite filter_cons. by destruct b. Qed.

Lemma py_sum_zero (mask : list bool) :
  py_sum mask = 0%nat ↔ Forall (λ b, b = false) mask.
Proof.
  induction mask as [|b m IH]; [by split|].
  rewrite py_sum_cons, Forall_cons. destruct b; simpl; [split; [lia | by intros []]|].
  rewrite IH. split; [by intros ?; split | by intros [_ ?]].
Qed.

Lemma compress_length_zero {A} (mask : list bool) (xs : list A) :
  py_sum mask = 0%nat → compress mask xs = [].
Proof.
  revert xs. induction mask as [|b m IH]; intros xs Hs; [done|].
  rewrite py_sum_cons in Hs. destruct b; [simpl in Hs; lia|].
  destruct xs; [done|]. simpl. apply IH. simpl in Hs. lia.
Qed.

(** ** The monad *)

Lemma bind_lift_inv {Σ A B} (r : result A) (k : A → M Σ B) σ σ' (b : B) :
  (x <- lift r ;; k x) σ = (σ', inr b) →
  ∃ a, r = inr a ∧ k a σ = (σ', inr b).
Proof. unfold bind, lift. destruct r as [e|a]; [done|]. eauto. Qed.

Lemma bind_call_inv {Σ} `{Traced Σ} {A B} ev (r : result A) (k : A → M Σ B)
    σ σ' (b : B) :
  (x <- call ev r ;; k x) σ = (σ', inr b) →
  ∃ a, r = inr a ∧ k a (record ev σ) = (σ', inr b).
Proof. unfold bind, call. destruct r as [e|a]; [done|]. eauto. Qed.

Lemma bind_inv {Σ A B} (m : M Σ A) (k : A → M Σ B) σ σ' (b : B) :
  (x <- m ;; k x) σ = (σ', inr b) →
  ∃ a σ1, m σ = (σ1, inr a) ∧ k a σ1 = (σ', inr b).
Proof. unfold bind. destruct (m σ) as [σ1 [e|a]]; [done|]. eauto. Qed.

Lemma bind_update_self {B} (f : cisTarget → cisTarget) (k : M RunState B) σ :
  (update_self f ;;; k) σ =
  k {| st_self := f (st_self σ); st_trace := st_trace σ |}.
Proof. done. Qed.

Lemma bind_get_self {B} (k : cisTarget → M RunState B) σ :
  (s <- get_self ;; k s) σ = k (st_self σ) σ.
Proof. done. Qed.

Section Properties.

Context `{Externals}.

(** ** Stepping through [run_ctx] *)

(** The state after the mapping is stored and the AUC kernel has been
    called. *)
Definition scored_state (σ : RunState) (mapping : MappingTable)
    (sig : Signature) (d : DataFrame) (total : Z) : RunState :=
  {| st_self := set_regions_to_db mapping (st_self σ);
     st_trace := st_trace σ ++
       [Call_calc_aucs d total (repeat Float.one (length (sig_genes sig)))
                       (auc_threshold (st_self σ))] |}.

(** The terminal state of a run without enriched motif. *)
Definition not_enriched_state (σ : RunState) : RunState :=
  {| st_self := set_cistromes empty_hit_index
                  (set_motif_hits empty_hit_index
                     (set_motif_enrichment empty_motif_enrichment (st_self σ)));
     st_trace := st_trace σ |}.

Lemma empty_hit_index_Database :
  empty_hit_index !! "Database"%string = Some [].
Proof. unfold empty_hit_index. apply lookup_insert_eq. Qed.

Lemma empty_hit_index_Region_set :
  empty_hit_index !! "Region_set"%string = Some [].
Proof.
  unfold empty_hit_index. rewrite lookup_insert_ne by done.
  apply lookup_insert_eq.
Qed.

Lemma terminate_not_enriched_eq (σ : RunState) :
  terminate_not_enriched σ = (not_enriched_state σ, inr tt).
Proof. done. Qed.

(** The state after the mapping is stored. *)
Definition mapped_state (σ : RunState) (mapping : MappingTable) : RunState :=
  {| st_self := set_regions_to_db mapping (st_self σ);
     st_trace := st_trace σ |}.

(** A run whose signature cannot be built raises at line 303: the mapping
    is stored, and nothing has been called. *)
Lemma run_ctx_signature_raises (ctx_db : cisTargetDatabase) (σ : RunState)
    (mapping : MappingTable) (e : exn) :
  resolve_regions_to_db (st_self σ) ctx_db = inr mapping →
  region_sets_to_signature (map Query mapping) (name (st_self σ)) = inl e →
  run_ctx ctx_db σ = (mapped_state σ mapping, inl e).
Proof.
  intros Hmapping Hsig.
  unfold run_ctx, bind, get_self, lift, update_self, modify.
  rewrite Hmapping. cbv beta iota. cbn [st_self name set_regions_to_db].
  by rewrite Hsig.
Qed.

Section Scored.

Variables (ctx_db : cisTargetDatabase) (σ : RunState).
Variables (mapping : MappingTable) (sig : Signature).
Variables (d : DataFrame) (aucs : list float).

Let self := st_self σ.
Let regions := sig_genes sig.
Let weights := repeat Float.one (length regions).

Hypothesis Hmapping : resolve_regions_to_db self ctx_db = inr mapping.
Hypothesis Hsig :
  region_sets_to_signature (map Query mapping) (name self) = inr sig.
Hypothesis Hsubset : subset_rankings self ctx_db regions = inr d.

Lemma run_ctx_kernel_raises (e : exn) :
  calc_aucs d (total_regions ctx_db) weights (auc_threshold self) = inl e →
  run_ctx ctx_db σ
  = (scored_state σ mapping sig d (total_regions ctx_db), inl e).
Proof using Hmapping Hsig Hsubset.
  intros Haucs. unfold run_ctx, bind, get_self, lift, update_self, modify, call.
  fold self. rewrite Hmapping. cbv beta iota.
  cbn [st_self name set_regions_to_db]. fold self. rewrite Hsig.
  fold regions. rewrite Hsubset. fold weights. by rewrite Haucs.
Qed.

Hypothesis Haucs :
  calc_aucs d (total_regions ctx_db) weights (auc_threshold self) = inr aucs.

Let ness := compute_ness aucs.
Let idx := enriched_features_idx ness (nes_threshold self).

Lemma run_ctx_scored :
  run_ctx ctx_db σ =
  (if decide (py_sum idx = 0%nat) then terminate_not_enriched
   else rows <- enriched_rows self ctx_db sig regions d weights aucs ness idx ;;
        finish rows)
    (scored_state σ mapping sig d (total_regions ctx_db)).
Proof using Hmapping Hsig Hsubset Haucs.
  unfold run_ctx at 1. unfold bind at 1, get_self at 1. fold self.
  unfold bind at 1, lift at 1. rewrite Hmapping.
  unfold bind at 1, update_self at 1, modify. cbv beta iota.
  unfold bind at 1, lift at 1. rewrite Hsig. fold regions.
  unfold bind at 1, lift at 1. rewrite Hsubset. fold weights.
  unfold bind at 1, call at 1. rewrite Haucs. done.
Qed.

Lemma run_ctx_early :
  py_sum idx = 0%nat →
  run_ctx ctx_db σ =
  (not_enriched_state (scored_state σ mapping sig d (total_regions ctx_db)),
   inr tt).
Proof using Hmapping Hsig Hsubset Haucs.
  intros Hz. rewrite run_ctx_scored. by rewrite decide_True.
Qed.

End Scored.

(** ** The enriched path *)

(** The call of [leading_edge4row] made for one row of the wide table. *)
Definition le_event (avg2stdrcc : list float) (regions : list string)
    (weights : list float) (row : string * float * float * list float * list Z)
  : event :=
  let '(motif, _, _, rcc, ranking) := row in
  Call_leading_edge4row motif rcc ranking avg2stdrcc regions weights.

(** The row of [enriched_features] obtained from a row of the wide table. *)
Definition le_result (group : string) (avg2stdrcc : list float)
    (regions : list string) (weights : list float)
    (row : string * float * float * list float * list Z) (out : EnrichedRow)
  : Prop :=
  let '(motif, nes, auc, rcc, ranking) := row in
  ∃ le, leading_edge4row rcc ranking avg2stdrcc regions weights = inr le ∧
        out = {| r_motif := motif; r_NES := nes; r_AUC := auc;
                 r_Region_set := group; r_Motif_hits := le.1;
                 r_Rank_at_max := le.2 |}.

Definition add_events (σ : RunState) (evs : list event) : RunState :=
  {| st_self := st_self σ; st_trace := st_trace σ ++ evs |}.

Lemma mapM_leading_edge_inv group avg2stdrcc regions weights rows σ σ' outs :
  mapM (leading_edge_row group avg2stdrcc regions weights) rows σ
  = (σ', inr outs) →
  Forall2 (le_result group avg2stdrcc regions weights) rows outs ∧
  σ' = add_events σ (map (le_event avg2stdrcc regions weights) rows).
Proof.
  revert σ outs. induction rows as [|row rows IH]; intros σ outs Hrun.
  - injection Hrun as <- <-. split; [constructor|].
    unfold add_events. simpl. rewrite app_nil_r. by destruct σ.
  - simpl in Hrun. apply bind_inv in Hrun as (out & σ1 & Hrow & Hrun).
    apply bind_inv in Hrun as (outs' & σ2 & Hrest & Hret).
    injection Hret as <- <-. apply IH in Hrest as [Hall ->].
    destruct row as [[[[motif nes] auc] rcc] ranking].
    unfold leading_edge_row in Hrow.
    apply bind_call_inv in Hrow as (le & Hle & Hret).
    injection Hret as <- <-. split.
    + constructor; [|done]. simpl. eauto.
    + unfold add_events, record, run_state_traced. simpl.
      by rewrite <- app_assoc.
Qed.

(** What a successful [enriched_rows] has done. *)
Lemma enriched_rows_inv self ctx_db sig regions d weights aucs ness idx σ σ' rows :
  enriched_rows self ctx_db sig regions d weights aucs ness idx σ
  = (σ', inr rows) →
  ∃ product cutoff rccs,
    length (df_index d) = length idx ∧
    Float.mul_int (rank_threshold self) (total_regions ctx_db) = inr product ∧
    Float.to_int product = inr cutoff ∧
    recovery d (total_regions ctx_db) weights cutoff (auc_threshold self) true
    = inr rccs ∧
    length rccs = length idx ∧
    length (df_values d) = length idx ∧
    check_width (Z.to_nat cutoff) (compress idx rccs) = inr tt ∧
    let wide := wide_rows (compress idx (df_index d)) (compress idx ness)
                          (compress idx aucs) (compress idx rccs)
                          (compress idx (df_values d)) in
    let weights' := map (sig_weight sig) regions in
    Forall2 (le_result (transcription_factor sig) (avg2stdrcc_of rccs)
                       regions weights') wide rows ∧
    σ' = add_events σ
           (Call_recovery d (total_regions ctx_db) weights cutoff
                          (auc_threshold self) true
            :: map (le_event (avg2stdrcc_of rccs) regions weights') wide).
Proof.
  unfold enriched_rows. intros Hrun.
  apply bind_lift_inv in Hrun as (features_e & Hfeat & Hrun).
  apply bind_lift_inv in Hrun as (product & Hprod & Hrun).
  apply bind_lift_inv in Hrun as (cutoff & Hcut & Hrun).
  apply bind_call_inv in Hrun as (rccs & Hrec & Hrun).
  apply bind_lift_inv in Hrun as (rccs_e & Hrccs & Hrun).
  apply bind_lift_inv in Hrun as (rankings_e & Hrnk & Hrun).
  apply bind_lift_inv in Hrun as ([] & _ & Hrun).
  apply bind_lift_inv in Hrun as ([] & _ & Hrun).
  apply bind_lift_inv in Hrun as ([] & _ & Hrun).
  apply bind_lift_inv in Hrun as ([] & Hwidth & Hrun).
  unfold bool_index in Hfeat, Hrccs, Hrnk.
  repeat case_decide; try done.
  injection Hfeat as <-. injection Hrccs as <-. injection Hrnk as <-.
  apply mapM_leading_edge_inv in Hrun as [Hall ->].
  exists product, cutoff, rccs. repeat split; try done.
  unfold add_events, record, run_state_traced. simpl.
  by rewrite <- app_assoc.
Qed.

(** What a successful [finish] has done. *)
Lemma finish_inv rows σ σ' :
  finish rows σ = (σ', inr tt) →
  let sorted := sort_values_NES_desc rows in
  let s1 := set_motif_enrichment (motif_enrichment_of sorted) (st_self σ) in
  let db := db_motif_hits_of sorted in
  ∃ annotated mapping table c,
    add_motif_annotation s1 = inr annotated ∧
    regions_to_db (st_self σ) = Some mapping ∧
    set_Motif_hits_column annotated
      (map (λ i, length (default [] (od_lookup i db))) (od_keys db))
    = inr table ∧
    let s2 := set_motif_enrichment table
                (set_motif_hits
                   (<["Database"%string := db]>
                    (<["Region_set"%string := rs_motif_hits_of mapping db]> ∅))
                   (set_motif_enrichment annotated s1)) in
    get_cistromes s2 = inr c ∧
    σ' = {| st_self := set_cistromes c s2;
            st_trace := st_trace σ ++ [Call_add_motif_annotation s1;
                                       Call_get_cistromes s2] |}.
Proof.
  unfold finish. intros Hrun.
  rewrite bind_update_self, bind_get_self in Hrun.
  apply bind_call_inv in Hrun as (annotated & Hann & Hrun).
  rewrite bind_update_self, bind_get_self in Hrun.
  apply bind_lift_inv in Hrun as (mapping & Hmap & Hrun).
  rewrite bind_update_self, bind_get_self in Hrun.
  apply bind_lift_inv in Hrun as (table0 & Htable0 & Hrun).
  apply bind_lift_inv in Hrun as (table & Htable & Hrun).
  rewrite bind_update_self, bind_get_self in Hrun.
  apply bind_call_inv in Hrun as (c & Hc & Hrun).
  simpl in Hmap, Htable0, Hrun, Hc.
  destruct (regions_to_db (st_self σ)) as [mapping'|] eqn:Hrtd; [|done].
  injection Hmap as ->. injection Htable0 as <-.
  exists annotated, mapping, table, c.
  repeat split; try done.
  unfold update_self, modify in Hrun. injection Hrun as <-.
  simpl. by rewrite <- app_assoc.
Qed.

(** ** Calls of the statistical kernel *)

(** A computation emits [P] when every call it records satisfies [P],
    whatever its outcome. *)
Definition emits {A} (P : event → Prop) (m : M RunState A) : Prop :=
  ∀ σ, ∃ evs, st_trace (m σ).1 = st_trace σ ++ evs ∧ Forall P evs.

Lemma emits_silent {A} P (m : M RunState A) :
  (∀ σ, st_trace (m σ).1 = st_trace σ) → emits P m.
Proof. intros Hm σ. exists []. by rewrite Hm, app_nil_r. Qed.

Lemma emits_ret {A} P (a : A) : emits P (ret a).
Proof. by apply emits_silent. Qed.

Lemma emits_lift {A} P (r : result A) : emits P (lift r).
Proof. by apply emits_silent. Qed.

Lemma emits_update_self P f : emits P (update_self f).
Proof. by apply emits_silent. Qed.

Lemma emits_call {A} (P : event → Prop) ev (r : result A) :
  P ev → emits P (call ev r).
Proof. intros Hev σ. exists [ev]. split; [done|]. by constructor. Qed.

Lemma emits_bind {A B} P (m : M RunState A) (k : A → M RunState B) :
  emits P m →
  (∀ a, (∃ σ σ', m σ = (σ', inr a)) → emits P (k a)) →
  emits P (x <- m ;; k x).
Proof.
  intros Hm Hk σ. unfold bind. destruct (Hm σ) as (evs & Htr & Hevs).
  destruct (m σ) as [σ1 [e|a]] eqn:Hrun; simpl in Htr.
  - eauto.
  - destruct (Hk a (ex_intro _ σ (ex_intro _ σ1 Hrun)) σ1) as (evs' & Htr' & Hevs').
    exists (evs ++ evs'). split.
    + by rewrite Htr', Htr, app_assoc.
    + by apply Forall_app.
Qed.

Lemma emits_bind_lift {A B} P (r : result A) (k : A → M RunState B) :
  (∀ a, r = inr a → emits P (k a)) → emits P (x <- lift r ;; k x).
Proof.
  intros Hk. apply emits_bind; [apply emits_lift|].
  intros a (σ & σ' & Hr). apply Hk. unfold lift in Hr. congruence.
Qed.

Lemma emits_bind_call {A B} (P : event → Prop) ev (r : result A)
    (k : A → M RunState B) :
  P ev → (∀ a, r = inr a → emits P (k a)) → emits P (x <- call ev r ;; k x).
Proof.
  intros Hev Hk. apply emits_bind; [by apply emits_call|].
  intros a (σ & σ' & Hr). apply Hk. unfold call in Hr. congruence.
Qed.

Lemma emits_bind_update_self {B} P f (k : M RunState B) :
  emits P k → emits P (update_self f ;;; k).
Proof. intros Hk. apply emits_bind; [apply emits_update_self | done]. Qed.

Lemma emits_bind_get_self {B} P (k : cisTarget → M RunState B) :
  (∀ s, emits P (k s)) → emits P (s <- get_self ;; k s).
Proof. intros Hk. apply emits_bind; [by apply emits_silent | done]. Qed.

Lemma emits_mapM {A B} P (f : A → M RunState B) (l : list A) :
  (∀ x, emits P (f x)) → emits P (mapM f l).
Proof.
  intros Hf. induction l as [|x l IH]; simpl; [apply emits_ret|].
  apply emits_bind; [done|]. intros y _.
  apply emits_bind; [done|]. intros ys _. apply emits_ret.
Qed.

(** A call of [aucs] or [recovery] is as line 324 and line 372 make it when
    the universe is [total] and the weights are ones, one for each column of
    the matrix. *)
Definition kernel_call_ok (total : Z) (ev : event) : Prop :=
  match ev with
  | Call_calc_aucs d t w _ | Call_recovery d t w _ _ _ =>
      t = total ∧ w = repeat Float.one (length (df_columns d))
  | _ => True
  end.

Lemma subset_rankings_columns self ctx_db regions d :
  subset_rankings self ctx_db regions = inr d → df_columns d = regions.
Proof.
  unfold subset_rankings, df_loc, df_getitem.
  repeat case_match; intros; simplify_eq; done.
Qed.

Lemma subset_rankings_index self ctx_db regions d :
  subset_rankings self ctx_db regions = inr d →
  df_index d = match motifs_to_use self with
               | Some ms => list_set_inter ms (df_index (db_rankings ctx_db))
               | None => df_index (db_rankings ctx_db)
               end.
Proof.
  unfold subset_rankings, df_loc, df_getitem.
  repeat case_match; intros; simplify_eq; done.
Qed.

Lemma emits_enriched_rows P self ctx_db sig regions d weights aucs ness idx :
  (∀ cutoff, P (Call_recovery d (total_regions ctx_db) weights cutoff
                              (auc_threshold self) true)) →
  (∀ m rcc rk a r w, P (Call_leading_edge4row m rcc rk a r w)) →
  emits P (enriched_rows self ctx_db sig regions d weights aucs ness idx).
Proof.
  intros Hrec Hle. unfold enriched_rows.
  apply emits_bind_lift; intros features_e _.
  apply emits_bind_lift; intros product _.
  apply emits_bind_lift; intros cutoff _.
  apply emits_bind_call; [done|]; intros rccs _.
  do 6 (apply emits_bind_lift; intros ? _).
  apply emits_mapM. intros [[[[m nes] auc] rcc] rk]. unfold leading_edge_row.
  apply emits_bind_call; [done|]. intros le _. apply emits_ret.
Qed.

Lemma emits_finish P rows :
  (∀ s, P (Call_add_motif_annotation s)) →
  (∀ s, P (Call_get_cistromes s)) →
  emits P (finish rows).
Proof.
  intros Hann Hcis. unfold finish.
  apply emits_bind_update_self, emits_bind_get_self; intros s1.
  apply emits_bind_call; [done|]; intros annotated _.
  apply emits_bind_update_self, emits_bind_get_self; intros s2.
  apply emits_bind_lift; intros mapping _.
  apply emits_bind_update_self, emits_bind_get_self; intros s3.
  apply emits_bind_lift; intros t0 _.
  apply emits_bind_lift; intros t1 _.
  apply emits_bind_update_self, emits_bind_get_self; intros s4.
  apply emits_bind_call; [done|]; intros c _.
  apply emits_update_self.
Qed.

(** C5: every call of the statistical kernel made by [run_ctx], the AUC
    computation and the recovery-curve computation alike, receives
    [ctx_db.total_regions] as the universe size, whatever the width of the
    matrix, and a weight vector of ones, one for each region column. *)
Theorem run_ctx_kernel_calls (ctx_db : cisTargetDatabase) (σ : RunState) :
  ∃ evs, st_trace (run_ctx ctx_db σ).1 = st_trace σ ++ evs ∧
         Forall (kernel_call_ok (total_regions ctx_db)) evs.
Proof.
  revert σ. change (emits (kernel_call_ok (total_regions ctx_db)) (run_ctx ctx_db)).
  unfold run_ctx.
  apply emits_bind_get_self; intros self.
  apply emits_bind_lift; intros mapping _.
  apply emits_bind_update_self.
  apply emits_bind_lift; intros sig _.
  apply emits_bind_lift; intros d Hd.
  apply subset_rankings_columns in Hd.
  apply emits_bind_call; [simpl; by rewrite Hd|]. intros aucs _.
  case_decide.
  - unfold terminate_not_enriched.
    do 2 apply emits_bind_update_self. apply emits_update_self.
  - apply emits_bind.
    + apply emits_enriched_rows; [|done]. intros cutoff. simpl. by rewrite Hd.
    + intros rows _. by apply emits_finish.
Qed.

(** C2: when no NES reaches the threshold, [run_ctx] returns normally with
    an empty [motif_enrichment] table, with [motif_hits] and [cistromes]
    both a dict whose keys ['Database'] and ['Region_set'] hold empty
    dicts, and the only external call it has made is the AUC kernel: no
    recovery curve, leading edge, annotation or cistrome is computed. *)
Theorem run_ctx_no_enriched_motif (ctx_db : cisTargetDatabase) (σ : RunState)
    (mapping : MappingTable) (sig : Signature) (d : DataFrame)
    (aucs : list float) :
  let self := st_self σ in
  let weights := repeat Float.one (length (sig_genes sig)) in
  resolve_regions_to_db self ctx_db = inr mapping →
  region_sets_to_signature (map Query mapping) (name self) = inr sig →
  subset_rankings self ctx_db (sig_genes sig) = inr d →
  calc_aucs d (total_regions ctx_db) weights (auc_threshold self) = inr aucs →
  Forall (λ nes, Float.ge nes (nes_threshold self) = false) (compute_ness aucs) →
  ∃ σ' table hits cis,
    run_ctx ctx_db σ = (σ', inr tt) ∧
    motif_enrichment (st_self σ') = Some table ∧ me_rows table = [] ∧
    motif_hits (st_self σ') = Some hits ∧
    hits !! "Database"%string = Some [] ∧ hits !! "Region_set"%string = Some [] ∧
    cistromes (st_self σ') = Some cis ∧
    cis !! "Database"%string = Some [] ∧ cis !! "Region_set"%string = Some [] ∧
    st_trace σ' = st_trace σ ++
      [Call_calc_aucs d (total_regions ctx_db) weights (auc_threshold self)].
Proof.
  intros self weights Hmap Hsig Hsub Haucs Hnone.
  exists (not_enriched_state
            (scored_state σ mapping sig d (total_regions ctx_db))),
    empty_motif_enrichment, empty_hit_index, empty_hit_index.
  split; [|repeat split; auto using empty_hit_index_Database,
                    empty_hit_index_Region_set].
  apply (run_ctx_early _ _ _ _ _ aucs); try done.
  apply py_sum_zero. unfold enriched_features_idx.
  by rewrite Forall_map.
Qed.

Lemma map_repeat_eq {A B} (f : A → B) (x : A) (n : nat) :
  map f (repeat x n) = repeat (f x) n.
Proof. induction n as [|n IH]; [done|]. simpl. by rewrite IH. Qed.

Lemma py_sum_repeat (b : bool) (n : nat) :
  py_sum (repeat b n) = if b then n else 0%nat.
Proof.
  induction n as [|n IH]; [by destruct b|].
  cbn [repeat]. rewrite py_sum_cons, IH. by destruct b.
Qed.

(** C8 (amended): on a constant AUC vector every motif gets the same NES,
    [(c - mean) / std] in binary64, and the division does not raise whatever
    the standard deviation is: there is no guard on it.  When the mean
    computed is [c] and the standard deviation computed is a zero, this NES
    is NaN.  When the common NES does not reach the threshold, as is the
    case of NaN, no motif is flagged and [run_ctx] ends in the state of a
    run without enriched motif; when it reaches the threshold, every motif
    is flagged enriched. *)
Theorem run_ctx_constant_aucs (ctx_db : cisTargetDatabase) (σ : RunState)
    (mapping : MappingTable) (sig : Signature) (d : DataFrame) (c : float)
    (n : nat) :
  let self := st_self σ in
  let weights := repeat Float.one (length (sig_genes sig)) in
  let aucs := repeat c n in
  let nes := Float.div (Float.sub c (np_mean aucs)) (np_std aucs) in
  let idx := enriched_features_idx (compute_ness aucs) (nes_threshold self) in
  resolve_regions_to_db self ctx_db = inr mapping →
  region_sets_to_signature (map Query mapping) (name self) = inr sig →
  subset_rankings self ctx_db (sig_genes sig) = inr d →
  calc_aucs d (total_regions ctx_db) weights (auc_threshold self) = inr aucs →
  compute_ness aucs = repeat nes n ∧
  idx = repeat (Float.ge nes (nes_threshold self)) n ∧
  (np_mean aucs = c → Float.is_zero (np_std aucs) = true →
   nes = S754_nan ∧ Float.ge nes (nes_threshold self) = false) ∧
  (Float.ge nes (nes_threshold self) = false →
   run_ctx ctx_db σ =
   (not_enriched_state (scored_state σ mapping sig d (total_regions ctx_db)),
    inr tt)) ∧
  (Float.ge nes (nes_threshold self) = true → py_sum idx = n).
Proof.
  intros self weights aucs nes idx Hmap Hsig Hsub Haucs.
  assert (Hness : compute_ness aucs = repeat nes n).
  { exact (map_repeat_eq
             (λ a, Float.div (Float.sub a (np_mean aucs)) (np_std aucs)) c n). }
  assert (Hidx : idx = repeat (Float.ge nes (nes_threshold self)) n).
  { unfold idx, enriched_features_idx. rewrite Hness.
    exact (map_repeat_eq (λ x, Float.ge x (nes_threshold self)) nes n). }
  split; [done|]. split; [done|]. split; [|split].
  - intros Hmean Hstd.
    assert (Hnan : nes = S754_nan).
    { unfold nes. rewrite Hmean.
      exact (float_div_zero _ _ Hstd (float_sub_diag c)). }
    by rewrite Hnan.
  - intros Hlow.
    apply (run_ctx_early _ _ _ _ _ aucs); try done.
    fold self idx. rewrite Hidx, Hlow. apply py_sum_repeat.
  - intros Hhigh. rewrite Hidx, Hhigh. apply py_sum_repeat.
Qed.

End Properties.

(** ** Lists, masks and dicts *)

Lemma compress_nil_r {A} (mask : list bool) : compress mask (@nil A) = [].
Proof. by destruct mask. Qed.

Lemma compress_zip {A B} (mask : list bool) (xs : list A) (ys : list B) :
  compress mask (zip xs ys) = zip (compress mask xs) (compress mask ys).
Proof.
  revert xs ys. induction mask as [|b m IH]; intros [|x xs] [|y ys]; simpl;
    try done.
  - by destruct (if b then _ else _).
  - rewrite IH. by destruct b.
Qed.

Lemma compress_map_filter {A} (p : A → bool) (xs : list A) :
  compress (map p xs) xs = filter (λ x, p x = true) xs.
Proof.
  induction xs as [|x xs IH]; [done|]. simpl. rewrite filter_cons, IH.
  destruct (p x); by simpl.
Qed.

Lemma length_compress {A} (mask : list bool) (xs : list A) :
  length xs = length mask → length (compress mask xs) = py_sum mask.
Proof.
  revert xs. induction mask as [|b m IH]; intros [|x xs] Hlen; try done.
  simpl in Hlen. rewrite py_sum_cons. simpl.
  destruct b; simpl; rewrite IH; lia.
Qed.

Lemma elem_of_compress {A} (mask : list bool) (xs : list A) (x : A) :
  x ∈ compress mask xs ↔ ∃ i, xs !! i = Some x ∧ mask !! i = Some true.
Proof.
  revert xs. induction mask as [|b m IH]; intros [|y xs]; simpl.
  - split; [by intros ?%elem_of_nil | by intros (i & ? & ?)].
  - split; [by intros ?%elem_of_nil | by intros (i & ? & ?)].
  - split; [by intros ?%elem_of_nil | by intros (i & ? & ?)].
  - destruct b.
    + rewrite elem_of_cons, IH. split.
      * intros [-> | (i & ? & ?)]; [by exists 0%nat | by exists (S i)].
      * intros ([|i] & Hx & Hm); simpl in *; [left; congruence | right; eauto].
    + rewrite IH. split.
      * intros (i & ? & ?). by exists (S i).
      * intros ([|i] & Hx & Hm); simpl in *; [congruence | eauto].
Qed.

Lemma compress_sublist {A} (mask : list bool) (xs : list A) :
  sublist (compress mask xs) xs.
Proof.
  revert xs. induction mask as [|b m IH]; intros [|x xs]; simpl;
    try apply sublist_nil_l.
  destruct b; [by apply sublist_skip | by apply sublist_cons].
Qed.


Lemma od_lookup_insert {V} (k k' : string) (v : V) (d : odict V) :
  od_lookup k' (od_insert k v d)
  = if decide (k = k') then Some v else od_lookup k' d.
Proof.
  induction d as [|[k0 v0] d IH]; simpl; [done|].
  destruct (decide (k0 = k)) as [->|Hne]; simpl.
  - by destruct (decide (k = k')).
  - rewrite IH. destruct (decide (k = k')) as [<-|?]; [|done].
    by rewrite decide_False.
Qed.

Lemma od_lookup_Some_keys {V} (k : string) (v : V) (d : odict V) :
  od_lookup k d = Some v → k ∈ od_keys d.
Proof.
  unfold od_keys. induction d as [|[k0 v0] d IH]; simpl; [done|].
  case_decide; intros Hl; apply elem_of_cons; [by left | right; auto].
Qed.

Section Comprehension.

Context {V : Type} (f : string → V).

Let step (d : odict V) (k : string) : odict V := od_insert k (f k) d.

Lemma od_fold_lookup (keys : list string) (acc : odict V) (k : string) :
  od_lookup k (foldl step acc keys)
  = if decide (k ∈ keys) then Some (f k) else od_lookup k acc.
Proof.
  revert acc. induction keys as [|k0 keys IH]; intros acc; cbn [foldl].
  - rewrite decide_False; [done | apply not_elem_of_nil].
  - rewrite IH. unfold step. rewrite od_lookup_insert.
    destruct (decide (k ∈ keys)) as [Hin|Hnin].
    + rewrite decide_True; [done | apply elem_of_cons; by right].
    + destruct (decide (k0 = k)) as [->|Hne].
      * rewrite decide_True; [done | apply elem_of_cons; by left].
      * rewrite decide_False; [done|]. rewrite elem_of_cons.
        intros [?|?]; congruence.
Qed.

Lemma od_fold_keys_fresh (keys : list string) (acc : odict V) :
  NoDup (od_keys acc ++ keys) →
  foldl step acc keys = acc ++ map (λ k, (k, f k)) keys.
Proof.
  revert acc. induction keys as [|k0 keys IH]; intros acc Hnd; simpl.
  - by rewrite app_nil_r.
  - assert (Hfresh : od_insert k0 (f k0) acc = acc ++ [(k0, f k0)]).
    { apply NoDup_app in Hnd as (_ & Hdisj & _).
      assert (Hk0 : k0 ∉ od_keys acc).
      { intros Hin. apply (Hdisj _ Hin). apply elem_of_cons. by left. }
      clear -Hk0. unfold od_keys in Hk0.
      induction acc as [|[k1 v1] acc IH]; simpl; [done|].
      simpl in Hk0. rewrite not_elem_of_cons in Hk0. destruct Hk0 as [Hne Hk0].
      rewrite decide_False by done. by rewrite IH. }
    unfold step at 2. rewrite Hfresh, IH.
    + by rewrite <- app_assoc.
    + unfold od_keys in *. rewrite map_app. simpl.
      by rewrite <- app_assoc.
Qed.

Lemma od_comprehension_lookup (keys : list string) (k : string) :
  od_lookup k (od_comprehension f keys)
  = if decide (k ∈ keys) then Some (f k) else None.
Proof. exact (od_fold_lookup keys [] k). Qed.

Lemma od_comprehension_NoDup (keys : list string) :
  NoDup keys → od_comprehension f keys = map (λ k, (k, f k)) keys.
Proof. intros Hnd. exact (od_fold_keys_fresh keys [] Hnd). Qed.

Lemma od_comprehension_keys (keys : list string) (k : string) :
  k ∈ od_keys (od_comprehension f keys) ↔ k ∈ keys.
Proof.
  split.
  - intros Hin. destruct (decide (k ∈ keys)) as [|Hnin]; [done|].
    exfalso. unfold od_keys in Hin. apply list_elem_of_fmap in Hin as ([k' v] & -> & Hin).
    assert (Hl : ∃ v', od_lookup k' (od_comprehension f keys) = Some v').
    { clear -Hin. induction (od_comprehension f keys) as [|[k1 v1] d IH]; simpl.
      - by apply elem_of_nil in Hin.
      - case_decide; [eauto|]. apply elem_of_cons in Hin as [?|Hin]; [congruence | auto]. }
    destruct Hl as [v' Hl]. rewrite od_comprehension_lookup in Hl.
    by rewrite decide_False in Hl.
  - intros Hin. apply (od_lookup_Some_keys k (f k)).
    rewrite od_comprehension_lookup. by rewrite decide_True.
Qed.

End Comprehension.

Lemma list_set_NoDup (l : list string) : NoDup (list_set l).
Proof. unfold list_set. apply NoDup_elements. Qed.

Lemma elem_of_list_set (l : list string) (x : string) : x ∈ list_set l ↔ x ∈ l.
Proof. unfold list_set. by rewrite elem_of_elements, elem_of_list_to_set. Qed.

Lemma list_set_inter_NoDup (a b : list string) : NoDup (list_set_inter a b).
Proof. unfold list_set_inter. apply NoDup_elements. Qed.

Lemma elem_of_list_set_inter (a b : list string) (x : string) :
  x ∈ list_set_inter a b ↔ x ∈ a ∧ x ∈ b.
Proof.
  unfold list_set_inter.
  by rewrite elem_of_elements, elem_of_intersection, !elem_of_list_to_set.
Qed.

Lemma elem_of_targets_of_queries (t : MappingTable) (hits : list string) (x : string) :
  x ∈ targets_of_queries t hits ↔
  ∃ row, row ∈ t ∧ Target row = x ∧ Query row ∈ hits.
Proof.
  unfold targets_of_queries. rewrite list_elem_of_fmap. split.
  - intros (row & -> & Hrow). apply list_elem_of_filter in Hrow as [? ?]. eauto.
  - intros (row & Hrow & <- & Hq). exists row. split; [done|].
    by apply list_elem_of_filter.
Qed.

Lemma check_width_Forall {A} (n : nat) (rows : list (list A)) :
  check_width n rows = inr tt → Forall (λ row, length row = n) rows.
Proof.
  unfold check_width. destruct (forallb _ rows) eqn:Hall; [|done]. intros _.
  apply Forall_forall. intros row Hrow.
  rewrite forallb_forall in Hall. apply list_elem_of_In in Hrow.
  by apply Hall, bool_decide_eq_true in Hrow.
Qed.

(** Motif, NES and AUC of a row. *)
Definition core (r : EnrichedRow) : string * float * float :=
  (r_motif r, r_NES r, r_AUC r).

Definition me_core (r : MERow) : string * float * float :=
  (me_motif r, me_NES r, me_AUC r).

Lemma me_core_to_MERow (rows : list EnrichedRow) :
  map me_core (map to_MERow rows) = map core rows.
Proof. induction rows as [|r rows IH]; [done|]. simpl. by rewrite IH. Qed.

Lemma map_fst_zip {A B} (l : list A) (k : list B) :
  (length l ≤ length k)%nat → map fst (zip l k) = l.
Proof.
  revert k. induction l as [|x l IH]; intros [|y k] Hlen; simpl in *;
    [done | done | lia |]. rewrite IH; [done | lia].
Qed.

Lemma wide_rows_core (F : list string) (N A : list float)
    (R : list (list float)) (K : list (list Z)) (n : nat) :
  length F = n → length N = n → length A = n → length R = n → length K = n →
  map (λ w, w.1.1) (wide_rows F N A R K) = zip (zip F N) A.
Proof.
  intros HF HN HA HR HK. unfold wide_rows.
  rewrite <- (map_map fst fst).
  rewrite !map_fst_zip; [done|..]; rewrite ?length_zip; lia.
Qed.

Lemma wide_rows_compress (mask : list bool) (F : list string)
    (N A : list float) (R : list (list float)) (K : list (list Z)) :
  wide_rows (compress mask F) (compress mask N) (compress mask A)
            (compress mask R) (compress mask K)
  = compress mask (wide_rows F N A R K).
Proof. unfold wide_rows. by rewrite !compress_zip. Qed.

Lemma wide_rows_lookup (F : list string) (N A : list float)
    (R : list (list float)) (K : list (list Z)) (i : nat)
    (m : string) (nes auc : float) (rcc : list float) (rk : list Z) :
  wide_rows F N A R K !! i = Some (m, nes, auc, rcc, rk) →
  F !! i = Some m ∧ N !! i = Some nes ∧ A !! i = Some auc ∧
  R !! i = Some rcc ∧ K !! i = Some rk.
Proof.
  unfold wide_rows. intros H4.
  apply lookup_zip_with_Some in H4 as ([[[m' n'] a'] r'] & k' & [= <- <- <- <- <-] & H3 & HK).
  apply lookup_zip_with_Some in H3 as ([[m' n'] a'] & r' & [= <- <- <- <-] & H2 & HR).
  apply lookup_zip_with_Some in H2 as ([m' n'] & a' & [= <- <- <-] & H1 & HA).
  apply lookup_zip_with_Some in H1 as (m' & n' & [= <- <-] & HF & HN).
  done.
Qed.

Section EnrichedRuns.

Context `{Externals}.

(** The contract of [sort_values] used below: the sorted rows are the rows
    given, and rows without NaN come out with each NES at least the next. *)
Definition sort_permutes : Prop :=
  ∀ rows, sort_values_NES_desc rows ≡ₚ rows.

Definition descending (rows : list EnrichedRow) : Prop :=
  Sorted (λ a b, Float.ge (r_NES a) (r_NES b) = true) rows.

Definition sort_descends : Prop :=
  ∀ rows, Forall (λ r, Float.is_nan (r_NES r) = false) rows →
          descending (sort_values_NES_desc rows).

(** The contract of [add_motif_annotation] used below: it keeps the row
    labels of the table, in their order. *)
Definition annotation_keeps_index : Prop :=
  ∀ self t t', motif_enrichment self = Some t →
               add_motif_annotation self = inr t' →
               map me_motif (me_rows t') = map me_motif (me_rows t).

(** A stronger contract of [add_motif_annotation]: it keeps the rows of the
    table in their order, each with its motif, its NES and its AUC. *)
Definition annotation_keeps_scores : Prop :=
  ∀ self t t', motif_enrichment self = Some t →
               add_motif_annotation self = inr t' →
               map me_core (me_rows t') = map me_core (me_rows t).

Lemma le_result_core group a r w wide rows :
  Forall2 (le_result group a r w) wide rows →
  map core rows = map (λ x, x.1.1) wide.
Proof.
  induction 1 as [|[[[[m nes] auc] rcc] rk] row wide rows Hrow _ IH]; [done|].
  simpl. rewrite IH. destruct Hrow as (le & _ & ->). done.
Qed.

Variables (ctx_db : cisTargetDatabase) (σ : RunState).
Variables (mapping : MappingTable) (sig : Signature).
Variables (d : DataFrame) (aucs : list float).

Let self := st_self σ.
Let regions := sig_genes sig.
Let weights := repeat Float.one (length regions).
Let ness := compute_ness aucs.
Let idx := enriched_features_idx ness (nes_threshold self).

Hypothesis Hmapping : resolve_regions_to_db self ctx_db = inr mapping.
Hypothesis Hsig :
  region_sets_to_signature (map Query mapping) (name self) = inr sig.
Hypothesis Hsubset : subset_rankings self ctx_db regions = inr d.
Hypothesis Haucs :
  calc_aucs d (total_regions ctx_db) weights (auc_threshold self) = inr aucs.

(** The rows of the wide table of line 387. *)
Definition enriched_wide (rccs : list (list float))
  : list (string * float * float * list float * list Z) :=
  wide_rows (compress idx (df_index d)) (compress idx ness) (compress idx aucs)
            (compress idx rccs) (compress idx (df_values d)).

(** Everything a successful run with an enriched motif has done. *)
Lemma run_ctx_enriched_inv (σ' : RunState) :
  py_sum idx ≠ 0%nat →
  run_ctx ctx_db σ = (σ', inr tt) →
  ∃ product cutoff rccs rows annotated table c,
    let weights' := map (sig_weight sig) regions in
    let sorted := sort_values_NES_desc rows in
    let s1 := set_motif_enrichment (motif_enrichment_of sorted)
                (set_regions_to_db mapping self) in
    let db := db_motif_hits_of sorted in
    let hits := <["Database"%string := db]>
                (<["Region_set"%string := rs_motif_hits_of mapping db]> ∅) in
    let s2 := set_motif_enrichment table
                (set_motif_hits hits (set_motif_enrichment annotated s1)) in
    length (df_index d) = length idx ∧
    Float.mul_int (rank_threshold self) (total_regions ctx_db) = inr product ∧
    Float.to_int product = inr cutoff ∧
    recovery d (total_regions ctx_db) weights cutoff (auc_threshold self) true
    = inr rccs ∧
    length rccs = length idx ∧
    length (df_values d) = length idx ∧
    Forall (λ curve, length curve = Z.to_nat cutoff) (compress idx rccs) ∧
    Forall2 (le_result (transcription_factor sig) (avg2stdrcc_of rccs)
                       regions weights') (enriched_wide rccs) rows ∧
    add_motif_annotation s1 = inr annotated ∧
    set_Motif_hits_column annotated
      (map (λ i, length (default [] (od_lookup i db))) (od_keys db))
    = inr table ∧
    get_cistromes s2 = inr c ∧
    σ' = {| st_self := set_cistromes c s2;
            st_trace := st_trace σ ++
              Call_calc_aucs d (total_regions ctx_db) weights (auc_threshold self)
              :: Call_recovery d (total_regions ctx_db) weights cutoff
                               (auc_threshold self) true
              :: map (le_event (avg2stdrcc_of rccs) regions weights')
                     (enriched_wide rccs)
              ++ [Call_add_motif_annotation s1; Call_get_cistromes s2] |}.
Proof using Hmapping Hsig Hsubset Haucs.
  intros Hsome Hrun.
  rewrite (run_ctx_scored _ _ _ _ _ _ Hmapping Hsig Hsubset Haucs) in Hrun.
  fold self regions weights ness idx in Hrun.
  rewrite decide_False in Hrun by done.
  apply bind_inv in Hrun as (rows & σ1 & Hrows & Hfin).
  apply enriched_rows_inv in Hrows
    as (product & cutoff & rccs & Hlen & Hprod & Hcut & Hrec & Hlen' & Hlen''
        & Hwidth & Hle & ->).
  apply finish_inv in Hfin
    as (annotated & mapping' & table & c & Hann & Hmap' & Htab & Hcis & ->).
  simpl in Hmap'. injection Hmap' as <-.
  exists product, cutoff, rccs, rows, annotated, table, c.
  repeat split; try done.
  - by apply check_width_Forall.
  - simpl. f_equal. rewrite <- !app_assoc. done.
Qed.

Lemma map_snd_zip {A B} (l : list A) (k : list B) :
  (length k ≤ length l)%nat → map snd (zip l k) = k.
Proof.
  revert l. induction k as [|y k IH]; intros [|x l] Hlen; simpl in *;
    [done | done | lia |]. rewrite IH; [done | lia].
Qed.

(** The rows of [enriched_features], in motif order: the motifs whose NES
    reaches the threshold, each with its NES and AUC. *)
Definition selected : list (string * float * float) :=
  filter (λ x, Float.ge x.1.2 (nes_threshold self) = true)
         (zip (zip (df_index d) ness) aucs).

Lemma length_ness : length ness = length aucs.
Proof. unfold ness, compute_ness. by rewrite length_map. Qed.

Lemma length_idx : length idx = length aucs.
Proof. unfold idx, enriched_features_idx. by rewrite length_map, length_ness. Qed.

Lemma selected_compress :
  length (df_index d) = length idx →
  compress idx (zip (zip (df_index d) ness) aucs) = selected.
Proof.
  intros Hlen. unfold selected. rewrite <- compress_map_filter. f_equal.
  rewrite <- (map_map (λ x, x.1.2) (λ n, Float.ge n (nes_threshold self))).
  rewrite <- (map_map fst snd).
  rewrite map_fst_zip, map_snd_zip; [done|..];
    rewrite ?length_zip, ?length_ness, ?Hlen, ?length_idx; lia.
Qed.

Lemma enriched_rows_core group a r w rccs rows :
  length (df_index d) = length idx →
  length rccs = length idx →
  length (df_values d) = length idx →
  Forall2 (le_result group a r w) (enriched_wide rccs) rows →
  map core rows = selected.
Proof.
  intros HF HR HK Hle. rewrite (le_result_core _ _ _ _ _ _ Hle).
  unfold enriched_wide.
  rewrite (wide_rows_core _ _ _ _ _ (py_sum idx));
    try (apply length_compress;
         rewrite ?length_ness, ?HF, ?HR, ?HK, ?length_idx; done).
  rewrite <- !compress_zip. by apply selected_compress.
Qed.

Lemma selected_nil : py_sum idx = 0%nat → selected = [].
Proof.
  intros Hz. apply py_sum_zero in Hz.
  unfold idx, enriched_features_idx in Hz. rewrite Forall_map in Hz.
  destruct selected as [|[[m n] a] l] eqn:Hsel; [done|].
  assert (Hin : (m, n, a) ∈ selected) by (rewrite Hsel; left).
  unfold selected in Hin. apply list_elem_of_filter in Hin as [Hge Hin].
  apply elem_of_zip_l, elem_of_zip_r in Hin.
  rewrite Forall_forall in Hz. specialize (Hz n Hin). simpl in *. congruence.
Qed.

(** [(AUC - mean(AUCs)) / std(AUCs)], mean and standard deviation taken
    over all the AUCs. *)
Definition nes_of (a : float) : float :=
  Float.div (Float.sub a (np_mean aucs)) (np_std aucs).

Lemma ness_lookup (i : nat) (a : float) :
  aucs !! i = Some a → ness !! i = Some (nes_of a).
Proof.
  intros Ha. unfold ness, compute_ness.
  change (map ?f aucs) with (f <$> aucs). by rewrite list_lookup_fmap, Ha.
Qed.

Lemma elem_of_selected (m : string) (n a : float) :
  (m, n, a) ∈ selected ↔
  ∃ i, df_index d !! i = Some m ∧ aucs !! i = Some a ∧ n = nes_of a ∧
       Float.ge n (nes_threshold self) = true.
Proof.
  unfold selected. rewrite list_elem_of_filter. simpl. split.
  - intros (Hge & Hin).
    apply elem_of_lookup_zip_with in Hin as (i & [m' n'] & a' & [= <- <- <-] & Hmn & Ha).
    apply lookup_zip_with_Some in Hmn as (m'' & n'' & [= <- <-] & Hm & Hn).
    exists i. repeat split; try done.
    rewrite (ness_lookup _ _ Ha) in Hn. congruence.
  - intros (i & Hm & Ha & -> & Hge). split; [done|].
    apply elem_of_lookup_zip_with. exists i, (m, nes_of a), a.
    repeat split; [|done]. apply lookup_zip_with_Some.
    exists m, (nes_of a). repeat split; [done|]. by apply ness_lookup.
Qed.

Lemma db_motif_hits_keys (rows : list EnrichedRow) (m : string) :
  m ∈ od_keys (db_motif_hits_of rows) ↔ m ∈ map r_motif rows.
Proof. apply od_comprehension_keys. Qed.

Lemma motif_of_core (rows : list EnrichedRow) :
  map r_motif rows = map (λ x, x.1.1) (map core rows).
Proof. by rewrite map_map. Qed.

(** C1: the NES of each motif of the matrix is
    [(AUC - mean(AUCs)) / std(AUCs)], with the mean and the standard
    deviation of the AUCs of all the motifs considered; the table stored in
    [motif_enrichment] (empty when nothing is enriched, else the one handed
    to [add_motif_annotation]) holds exactly the motifs whose NES is at
    least [nes_threshold], each with that NES and its AUC; and these motifs
    are the keys of [motif_hits['Database']]. *)
Theorem run_ctx_nes_selection (σ' : RunState) :
  sort_permutes →
  run_ctx ctx_db σ = (σ', inr tt) →
  (∀ i a, aucs !! i = Some a →
          compute_ness aucs !! i
          = Some (Float.div (Float.sub a (np_mean aucs)) (np_std aucs))) ∧
  (∃ table evs,
      st_trace σ' = st_trace σ ++ evs ∧
      (py_sum idx = 0%nat ∧ motif_enrichment (st_self σ') = Some table
       ∨ ∃ s, Call_add_motif_annotation s ∈ evs ∧
              motif_enrichment s = Some table) ∧
      map me_core (me_rows table) ≡ₚ
        filter (λ x, Float.ge x.1.2 (nes_threshold self) = true)
               (zip (zip (df_index d) (compute_ness aucs)) aucs)) ∧
  (∃ hits db,
      motif_hits (st_self σ') = Some hits ∧
      hits !! "Database"%string = Some db ∧
      ∀ m, m ∈ od_keys db ↔
           ∃ i a, df_index d !! i = Some m ∧ aucs !! i = Some a ∧
                  Float.ge (Float.div (Float.sub a (np_mean aucs)) (np_std aucs))
                           (nes_threshold self) = true).
Proof using Hmapping Hsig Hsubset Haucs.
  intros Hperm Hrun. split; [apply ness_lookup|].
  fold ness selected.
  assert (Hsel : ∀ m, m ∈ map (λ x : string * float * float, x.1.1) selected ↔
            ∃ i a, df_index d !! i = Some m ∧ aucs !! i = Some a ∧
                   Float.ge (nes_of a) (nes_threshold self) = true).
  { intros m. rewrite list_elem_of_fmap. split.
    - intros ([[m' n] a] & -> & Hin). apply elem_of_selected in Hin
        as (i & Hm & Ha & -> & Hge). eauto.
    - intros (i & a & Hm & Ha & Hge). exists (m, nes_of a, a). split; [done|].
      apply elem_of_selected. eauto. }
  destruct (decide (py_sum idx = 0%nat)) as [Hz|Hnz].
  - rewrite (run_ctx_early _ _ _ _ _ _ Hmapping Hsig Hsubset Haucs Hz) in Hrun.
    injection Hrun as <-. split.
    + exists empty_motif_enrichment, [Call_calc_aucs d (total_regions ctx_db)
                                       weights (auc_threshold self)].
      split; [done|]. split; [by left|]. by rewrite (selected_nil Hz).
    + exists empty_hit_index, []. split; [done|].
      split; [apply empty_hit_index_Database|].
      intros m. rewrite <- Hsel, (selected_nil Hz). done.
  - destruct (run_ctx_enriched_inv σ' Hnz Hrun)
      as (product & cutoff & rccs & rows & annotated & table & c & HF & _ & _
          & _ & HR & HK & _ & Hle & _ & _ & _ & ->).
    pose proof (enriched_rows_core _ _ _ _ _ _ HF HR HK Hle) as Hcore.
    split.
    + eexists (motif_enrichment_of (sort_values_NES_desc rows)), _.
      split; [simpl; reflexivity|]. split.
      * right.
        exists (set_motif_enrichment
                  (motif_enrichment_of (sort_values_NES_desc rows))
                  (set_regions_to_db mapping self)).
        split; [|done].
        rewrite !elem_of_cons, elem_of_app, !elem_of_cons. auto.
      * simpl. rewrite me_core_to_MERow, <- Hcore.
        apply Permutation_map, Hperm.
    + eexists _, (db_motif_hits_of (sort_values_NES_desc rows)).
      split; [done|]. split; [apply lookup_insert_eq|].
      intros m. rewrite <- Hsel, <- Hcore, db_motif_hits_keys.
      rewrite <- motif_of_core.
      apply elem_of_Permutation_proper, Permutation_map, Hperm.
Qed.



Lemma enriched_rows_motifs group a r w rccs rows :
  length (df_index d) = length idx →
  length rccs = length idx →
  length (df_values d) = length idx →
  Forall2 (le_result group a r w) (enriched_wide rccs) rows →
  map r_motif rows = compress idx (df_index d).
Proof.
  intros HF HR HK Hle.
  rewrite motif_of_core, (le_result_core _ _ _ _ _ _ Hle).
  unfold enriched_wide.
  rewrite (wide_rows_core _ _ _ _ _ (py_sum idx));
    try (apply length_compress;
         rewrite ?length_ness, ?HF, ?HR, ?HK, ?length_idx; done).
  rewrite <- (map_map fst fst). rewrite !map_fst_zip; [done|..];
    rewrite ?length_zip, !length_compress;
    rewrite ?length_ness, ?HF, ?length_idx; lia.
Qed.

Lemma subset_rankings_NoDup :
  NoDup (df_index (db_rankings ctx_db)) → NoDup (df_index d).
Proof using Hsubset.
  intros Hnd. rewrite (subset_rankings_index _ _ _ _ Hsubset).
  destruct (motifs_to_use self); [apply list_set_inter_NoDup | done].
Qed.

(** C6: for each motif of [motif_hits['Database']], the entry of
    [motif_hits['Region_set']] is the duplicate-free list of the [Target]
    values of the mapping rows whose [Query] is in the database-space hit
    list of the motif, so every such region maps into that list; and in each
    row of [motif_enrichment] the count [Motif_hits] is the length of the
    database-space hit list of the row's motif. *)
Theorem run_ctx_motif_hits (σ' : RunState) :
  NoDup (df_index (db_rankings ctx_db)) →
  sort_permutes →
  annotation_keeps_index →
  run_ctx ctx_db σ = (σ', inr tt) →
  ∃ hits db rs table,
    motif_hits (st_self σ') = Some hits ∧
    hits !! "Database"%string = Some db ∧
    hits !! "Region_set"%string = Some rs ∧
    (∀ m db_hits, od_lookup m db = Some db_hits →
       ∃ rs_hits, od_lookup m rs = Some rs_hits ∧ NoDup rs_hits ∧
         ∀ t, t ∈ rs_hits ↔
              ∃ row, row ∈ mapping ∧ Target row = t ∧ Query row ∈ db_hits) ∧
    motif_enrichment (st_self σ') = Some table ∧
    (∀ row, row ∈ me_rows table →
       ∃ db_hits, od_lookup (me_motif row) db = Some db_hits ∧
                  me_Motif_hits row = Some (length db_hits)).
Proof using Hmapping Hsig Hsubset Haucs.
  intros Hindex Hperm Hkeep Hrun.
  destruct (decide (py_sum idx = 0%nat)) as [Hz|Hnz].
  - rewrite (run_ctx_early _ _ _ _ _ _ Hmapping Hsig Hsubset Haucs Hz) in Hrun.
    injection Hrun as <-.
    exists empty_hit_index, [], [], empty_motif_enrichment.
    split; [done|]. split; [apply empty_hit_index_Database|].
    split; [apply empty_hit_index_Region_set|].
    split; [done|]. split; [done|]. by intros row ?%elem_of_nil.
  - destruct (run_ctx_enriched_inv σ' Hnz Hrun)
      as (product & cutoff & rccs & rows & annotated & table & c & HF & _ & _
          & _ & HR & HK & _ & Hle & Hann & Htab & _ & ->).
    set (sorted := sort_values_NES_desc rows) in *.
    set (db := db_motif_hits_of sorted) in *.
    exists (<["Database"%string := db]>
            (<["Region_set"%string := rs_motif_hits_of mapping db]> ∅)),
      db, (rs_motif_hits_of mapping db), table.
    split; [done|]. split; [apply lookup_insert_eq|].
    split; [rewrite lookup_insert_ne by done; apply lookup_insert_eq|].
    split; [|split; [done|]].
    + intros m db_hits Hm. eexists. split; [|split].
      * unfold rs_motif_hits_of. rewrite od_comprehension_lookup.
        rewrite decide_True by (by eapply od_lookup_Some_keys). by rewrite Hm.
      * apply list_set_NoDup.
      * intros t. simpl. by rewrite elem_of_list_set, elem_of_targets_of_queries.
    + assert (Hnd : NoDup (map r_motif sorted)).
      { eapply NoDup_Permutation_proper;
          [apply Permutation_map, Hperm|].
        rewrite (enriched_rows_motifs _ _ _ _ _ _ HF HR HK Hle).
        eapply sublist_NoDup; [|apply compress_sublist].
        by apply subset_rankings_NoDup. }
      assert (Hdb : db = map (λ k, (k, map fst (loc_Motif_hits sorted k)))
                         (map r_motif sorted)).
      { unfold db, db_motif_hits_of. by apply od_comprehension_NoDup. }
      assert (Hkeys : od_keys db = map r_motif sorted).
      { rewrite Hdb. unfold od_keys. rewrite map_map. simpl. apply map_id. }
      assert (Hlabels : map me_motif (me_rows annotated) = map r_motif sorted).
      { rewrite (Hkeep (set_motif_enrichment (motif_enrichment_of sorted)
                            (set_regions_to_db mapping self))
                         (motif_enrichment_of sorted) annotated eq_refl Hann).
        simpl. rewrite map_map. done. }
      unfold set_Motif_hits_column in Htab. case_decide; [|done].
      injection Htab as <-. simpl. intros row Hrow.
      apply elem_of_lookup_zip_with in Hrow as (i & r & n & -> & Hr & Hn).
      rewrite Hkeys in Hn.
      change (map ?f (map r_motif sorted)) with (f <$> (map r_motif sorted)) in Hn.
      rewrite list_lookup_fmap in Hn.
      assert (Hmi : map r_motif sorted !! i = Some (me_motif r)).
      { rewrite <- Hlabels.
        change (map me_motif ?l) with (me_motif <$> l).
        by rewrite list_lookup_fmap, Hr. }
      rewrite Hmi in Hn. simpl in Hn. injection Hn as <-.
      assert (Hin : me_motif r ∈ map r_motif sorted)
        by (by eapply list_elem_of_lookup_2).
      assert (Hl : od_lookup (me_motif r) db
                   = Some (map fst (loc_Motif_hits sorted (me_motif r)))).
      { unfold db, db_motif_hits_of. rewrite od_comprehension_lookup.
        by rewrite decide_True. }
      exists (map fst (loc_Motif_hits sorted (me_motif r))).
      split; [done|]. simpl. by rewrite Hl.
Qed.

Lemma selected_not_nan (rows : list EnrichedRow) :
  map core rows = selected →
  Forall (λ r, Float.is_nan (r_NES r) = false) rows.
Proof.
  intros Hcore. apply Forall_forall. intros r Hr.
  assert (Hin : core r ∈ selected).
  { rewrite <- Hcore. apply list_elem_of_fmap. eauto. }
  unfold selected in Hin. apply list_elem_of_filter in Hin as [Hge _].
  by apply float_ge_not_nan in Hge.
Qed.

Lemma me_core_zip_with (rows : list MERow) (counts : list nat) :
  length counts = length rows →
  map me_core (zip_with with_Motif_hits rows counts) = map me_core rows.
Proof.
  revert counts. induction rows as [|r rows IH]; intros [|n counts] Hlen;
    simpl in *; try done. rewrite IH; [done | lia].
Qed.

(** X19: the table a successful run leaves in [motif_enrichment] is in
    descending NES order, each NES at least every later one, and it holds
    exactly the motifs whose NES reaches the threshold, each with its NES
    and its AUC.  This rests on two contracts: [sort_values] returns the
    rows it is given, in descending NES; [add_motif_annotation] keeps the
    rows in their order with their motif, NES and AUC.  Nothing is said of
    the order among rows of equal NES. *)
Theorem run_ctx_descending_nes (σ' : RunState) :
  sort_permutes →
  sort_descends →
  annotation_keeps_scores →
  run_ctx ctx_db σ = (σ', inr tt) →
  ∃ table,
    motif_enrichment (st_self σ') = Some table ∧
    StronglySorted (λ x y, Float.ge x y = true) (map me_NES (me_rows table)) ∧
    map me_core (me_rows table) ≡ₚ
      filter (λ x, Float.ge x.1.2 (nes_threshold self) = true)
             (zip (zip (df_index d) (compute_ness aucs)) aucs).
Proof using Hmapping Hsig Hsubset Haucs.
  intros Hperm Hdesc Hkeep Hrun. fold ness selected.
  destruct (decide (py_sum idx = 0%nat)) as [Hz|Hnz].
  - rewrite (run_ctx_early _ _ _ _ _ _ Hmapping Hsig Hsubset Haucs Hz) in Hrun.
    injection Hrun as <-.
    exists empty_motif_enrichment.
    split; [done|]. split; [constructor|]. by rewrite (selected_nil Hz).
  - destruct (run_ctx_enriched_inv σ' Hnz Hrun)
      as (product & cutoff & rccs & rows & annotated & table & c & HF & _ & _
          & _ & HR & HK & _ & Hle & Hann & Htab & _ & ->).
    pose proof (enriched_rows_core _ _ _ _ _ _ HF HR HK Hle) as Hcore.
    set (sorted := sort_values_NES_desc rows) in *.
    assert (Hrows : map me_core (me_rows table) = map core sorted).
    { unfold set_Motif_hits_column in Htab. case_decide; [|done].
      injection Htab as <-. cbn [me_rows].
      rewrite me_core_zip_with by done.
      rewrite (Hkeep (set_motif_enrichment (motif_enrichment_of sorted)
                        (set_regions_to_db mapping self))
                     (motif_enrichment_of sorted) annotated eq_refl Hann).
      cbn [me_rows motif_enrichment_of]. apply me_core_to_MERow. }
    exists table. split; [done|]. split.
    + assert (Hnes : map me_NES (me_rows table) = map r_NES sorted).
      { transitivity (map (λ x : string * float * float, x.1.2)
                          (map me_core (me_rows table)));
          [by rewrite map_map|].
        rewrite Hrows. by rewrite map_map. }
      rewrite Hnes. change (map r_NES sorted) with (r_NES <$> sorted).
      apply (StronglySorted_fmap r_NES
               (λ a b, Float.ge (r_NES a) (r_NES b) = true)).
      { by intros a b. }
      apply Sorted_StronglySorted.
      { intros r1 r2 r3. apply float_ge_trans. }
      apply Hdesc. by apply selected_not_nan.
    + rewrite Hrows, <- Hcore. apply Permutation_map, Hperm.
Qed.

End EnrichedRuns.

(** ** The reference sorts *)

Lemma SFcompare_antisym (x y : float) :
  SFcompare y x = option_map CompOpp (SFcompare x y).
Proof.
  destruct x as [sx|sx| |sx mx ex], y as [sy|sy| |sy my ey]; simpl; try done;
    try (by destruct sx); try (by destruct sy); try (by destruct sx, sy).
  destruct sx, sy; simpl; try done.
  - rewrite (Z.compare_antisym ex ey). destruct (ex ?= ey)%Z; simpl; try done.
    pose proof (Pos.compare_cont_antisym my mx Eq) as Ha. simpl in Ha.
    rewrite <- Ha. by destruct (Pos.compare_cont Eq my mx).
  - rewrite (Z.compare_antisym ex ey). destruct (ex ?= ey)%Z; simpl; try done.
    pose proof (Pos.compare_cont_antisym my mx Eq) as Ha. simpl in Ha.
    rewrite <- Ha. by destruct (Pos.compare_cont Eq my mx).
Qed.

(** On floats that are not NaN, [>=] is total. *)
Lemma float_ge_total (x y : float) :
  Float.is_nan x = false → Float.is_nan y = false →
  Float.ge x y = false → Float.ge y x = true.
Proof.
  intros Hx Hy. unfold Float.ge. rewrite (SFcompare_antisym x y).
  destruct (SFcompare x y) as [[]|] eqn:Hc; simpl; try done.
  destruct x, y; try done; simpl in Hc; by destruct s.
Qed.

Lemma insert_desc_Permutation (x : EnrichedRow) (l : list EnrichedRow) :
  Reference.insert_desc x l ≡ₚ x :: l.
Proof.
  induction l as [|y l IH]; simpl; [done|].
  destruct (Float.ge _ _); [done|]. rewrite IH. apply Permutation_swap.
Qed.

Lemma insert_desc_HdRel (z x : EnrichedRow) (l : list EnrichedRow) :
  Float.ge (r_NES z) (r_NES x) = true →
  HdRel (λ a b, Float.ge (r_NES a) (r_NES b) = true) z l →
  HdRel (λ a b, Float.ge (r_NES a) (r_NES b) = true) z (Reference.insert_desc x l).
Proof.
  intros Hzx Hz. destruct l as [|y l]; simpl; [by constructor|].
  destruct (Float.ge (r_NES x) (r_NES y)); constructor; [done|].
  by inversion Hz.
Qed.

Lemma insert_desc_descending (x : EnrichedRow) (l : list EnrichedRow) :
  Float.is_nan (r_NES x) = false →
  Forall (λ r, Float.is_nan (r_NES r) = false) l →
  descending l → descending (Reference.insert_desc x l).
Proof.
  intros Hx Hl Hs. induction Hs as [|y l Hs IH Hhd]; simpl.
  - by repeat constructor.
  - apply Forall_cons in Hl as [Hy Hl].
    destruct (Float.ge (r_NES x) (r_NES y)) eqn:Hge.
    + constructor; [by constructor|]. by constructor.
    + constructor; [by apply IH|].
      apply insert_desc_HdRel; [|done]. by apply float_ge_total.
Qed.

Lemma sort_stable_Permutation (l : list EnrichedRow) : Reference.sort_stable l ≡ₚ l.
Proof.
  unfold Reference.sort_stable. induction l as [|x l IH]; simpl; [done|].
  by rewrite insert_desc_Permutation, IH.
Qed.

Lemma sort_stable_descending (l : list EnrichedRow) :
  Forall (λ r, Float.is_nan (r_NES r) = false) l →
  descending (Reference.sort_stable l).
Proof.
  unfold Reference.sort_stable. induction 1 as [|x l Hx Hl IH]; simpl.
  - constructor.
  - apply insert_desc_descending; [done| |done].
    fold (Reference.sort_stable l).
    eapply Permutation_Forall; [symmetry; apply sort_stable_Permutation | done].
Qed.

(** ** An empty mapping *)

Section EmptyMapping.

Context `{Externals}.

(** C3 (amended): with an empty mapping [run_ctx] has no guard.  The empty
    list of database regions is handed to [region_sets_to_signature] at line
    303, and an exception raised there is raised by [run_ctx]: the mapping
    has been stored in [self.regions_to_db], nothing else has been set, and
    the AUC kernel has not been called.  Nothing stands in for the kernel
    either: a run on an empty mapping that returns normally has obtained a
    signature and has called the AUC kernel on the matrix of its regions. *)
Theorem run_ctx_empty_mapping (ctx_db : cisTargetDatabase) (σ : RunState) :
  let self := st_self σ in
  resolve_regions_to_db self ctx_db = inr [] →
  (∀ e, region_sets_to_signature [] (name self) = inl e →
        run_ctx ctx_db σ = (mapped_state σ [], inl e)) ∧
  (∀ σ', run_ctx ctx_db σ = (σ', inr tt) →
         ∃ sig d aucs evs,
           let weights := repeat Float.one (length (sig_genes sig)) in
           region_sets_to_signature [] (name self) = inr sig ∧
           subset_rankings self ctx_db (sig_genes sig) = inr d ∧
           calc_aucs d (total_regions ctx_db) weights (auc_threshold self)
           = inr aucs ∧
           st_trace σ' = st_trace σ ++
             Call_calc_aucs d (total_regions ctx_db) weights
                            (auc_threshold self) :: evs).
Proof.
  intros self Hmap. split.
  - intros e Hsig. by apply run_ctx_signature_raises.
  - intros σ' Hrun.
    destruct (region_sets_to_signature [] (name self)) as [e|sig] eqn:Hsig.
    { rewrite (run_ctx_signature_raises ctx_db σ [] e Hmap Hsig) in Hrun.
      discriminate Hrun. }
    destruct (subset_rankings self ctx_db (sig_genes sig)) as [e|d] eqn:Hsub.
    { exfalso. revert Hrun.
      unfold run_ctx, bind, get_self, lift, update_self, modify.
      fold self. rewrite Hmap. cbv beta iota.
      cbn [st_self name set_regions_to_db map]. fold self.
      rewrite Hsig, Hsub. discriminate. }
    destruct (calc_aucs d (total_regions ctx_db)
                (repeat Float.one (length (sig_genes sig)))
                (auc_threshold self)) as [e|aucs] eqn:Haucs.
    { rewrite (run_ctx_kernel_raises ctx_db σ [] sig d Hmap Hsig Hsub e Haucs)
        in Hrun. discriminate Hrun. }
    exists sig, d, aucs.
    rewrite (run_ctx_scored ctx_db σ [] sig d aucs Hmap Hsig Hsub Haucs) in Hrun.
    match type of Hrun with
    | ?m ?st = _ => assert (Hm : emits (λ _, True) m)
    end.
    { case_decide.
      - unfold terminate_not_enriched.
        do 2 apply emits_bind_update_self. apply emits_update_self.
      - apply emits_bind; [by apply emits_enriched_rows|].
        intros rows _. by apply emits_finish. }
    match type of Hrun with
    | ?m ?st = _ => destruct (Hm st) as (evs & Htr & _)
    end.
    rewrite Hrun in Htr. cbn [fst] in Htr.
    exists evs. split; [done|]. split; [done|]. split; [done|].
    rewrite Htr. unfold scored_state. cbn [st_trace]. by rewrite <- app_assoc.
Qed.

End EmptyMapping.

(** C3 (counterexample): a region set without any mapped region.  The
    signature of no region is refused, as the [Regulon] of ctxcore refuses
    it: [run_ctx] raises the [ValueError] of line 303 with the empty mapping
    stored, the AUC kernel is not called, and no result is set. *)
Lemma run_ctx_empty_mapping_raises :
  let σ := Reference.start Reference.self_unmapped in
  @resolve_regions_to_db Reference.stable8 (st_self σ) Reference.db8 = inr [] ∧
  @run_ctx Reference.stable8 Reference.db8 σ
  = ({| st_self := set_regions_to_db [] (st_self σ); st_trace := [] |},
     inl ValueError) ∧
  motif_enrichment (st_self (@run_ctx Reference.stable8 Reference.db8 σ).1)
  = None.
Proof. repeat split; vm_compute; reflexivity. Qed.

(** ** Splitting region keys *)

Lemma strip_prefix_Some (p s r : string) :
  strip_prefix p s = Some r → s = p +:+ r.
Proof.
  revert s. induction p as [|a p IH]; intros s; simpl.
  - by intros [= ->].
  - destruct s as [|b s]; [done|]. case_decide; [|done].
    intros Hr. subst b. by rewrite (IH s Hr).
Qed.

Lemma strip_prefix_length (p s r : string) :
  strip_prefix p s = Some r →
  String.length s = (String.length p + String.length r)%nat.
Proof.
  intros ->%strip_prefix_Some. induction p as [|a p IH]; simpl; [done|].
  by rewrite IH.
Qed.

Lemma py_partition_Some (sep s b a : string) :
  py_partition sep s = Some (b, a) → s = b +:+ sep +:+ a.
Proof.
  revert b. induction s as [|c s IH]; intros b; simpl.
  - destruct (strip_prefix sep "") as [r|] eqn:Hr; [|done].
    intros [= <- <-]. by apply strip_prefix_Some in Hr.
  - destruct (strip_prefix sep (String c s)) as [r|] eqn:Hr.
    + intros [= <- <-]. by apply strip_prefix_Some in Hr.
    + destruct (py_partition sep s) as [[b' a']|]; [|done].
      intros [= <- <-]. simpl. by rewrite (IH b' eq_refl).
Qed.

Lemma py_partition_length (sep s b a : string) :
  py_partition sep s = Some (b, a) →
  String.length s = (String.length b + String.length sep + String.length a)%nat.
Proof.
  revert b. induction s as [|c s IH]; intros b; simpl.
  - destruct (strip_prefix sep "") as [r|] eqn:Hr; [|done].
    intros [= <- <-]. by apply strip_prefix_length in Hr.
  - destruct (strip_prefix sep (String c s)) as [r|] eqn:Hr.
    + intros [= <- <-]. by apply strip_prefix_length in Hr.
    + destruct (py_partition sep s) as [[b' a']|]; [|done].
      intros [= <- <-]. simpl. by rewrite (IH b' eq_refl).
Qed.

(** The fuel of [py_split], the length of the string, is enough: more fuel
    gives the same parts. *)
Lemma py_split_fuel_enough (sep s : string) (n : nat) :
  sep ≠ EmptyString → (String.length s ≤ n)%nat →
  py_split_fuel n sep s = py_split sep s.
Proof.
  intros Hsep. unfold py_split.
  assert (Hgen : ∀ m n s, (String.length s ≤ m)%nat → (String.length s ≤ n)%nat →
                          py_split_fuel n sep s = py_split_fuel m sep s).
  { clear n s. induction m as [|m IH]; intros n s Hm Hn.
    - destruct s; [|simpl in Hm; lia].
      destruct n; [done|]. simpl. by destruct sep.
    - destruct n as [|n].
      + destruct s; [|simpl in Hn; lia]. simpl. by destruct sep.
      + simpl. destruct (py_partition sep s) as [[b a]|] eqn:Hp; [|done].
        f_equal. apply py_partition_length in Hp.
        assert (0 < String.length sep)%nat by (destruct sep; [done | simpl; lia]).
        apply IH; lia. }
  intros Hn. by apply Hgen.
Qed.

Lemma py_split_fuel_nonempty (n : nat) (sep s : string) :
  py_split_fuel n sep s ≠ [].
Proof. destruct n; simpl; [done|]. by destruct (py_partition sep s) as [[b a]|]. Qed.

(** A string that splits in two is its two parts joined by the separator. *)
Lemma py_split_two (sep s p r : string) :
  py_split sep s = [p; r] → s = p +:+ sep +:+ r.
Proof.
  unfold py_split. destruct (String.length s) as [|n]; [done|]. simpl.
  destruct (py_partition sep s) as [[b a]|] eqn:Hp; [|done].
  intros [= -> Hrest]. apply py_partition_Some in Hp as ->.
  destruct n as [|n]; simpl in Hrest; [by injection Hrest as ->|].
  destruct (py_partition sep a) as [[b' a']|]; [|by injection Hrest as ->].
  injection Hrest as _ Hrest. by apply py_split_fuel_nonempty in Hrest.
Qed.

Lemma py_split_two_contains (sep s p r : string) :
  py_split sep s = [p; r] → py_contains sep s = true.
Proof.
  unfold py_split, py_contains. destruct (String.length s) as [|n]; [done|].
  simpl. by destruct (py_partition sep s) as [[b a]|].
Qed.

(** The key [k] is [p], the separator ["__"], and a rest without
    separator. *)
Definition carries_prefix (p k : string) : bool :=
  match py_split "__" k with
  | [p'; _] => bool_decide (p' = p)
  | _ => false
  end.

(** [prefix + '__' + x] *)
Definition prefixed (p x : string) : string := p +:+ "__" +:+ x.

Lemma carries_prefix_split (p k : string) :
  carries_prefix p k = true →
  ∃ r, py_split "__" k = [p; r] ∧ prefixed p r = k.
Proof.
  unfold carries_prefix.
  destruct (py_split "__" k) as [|p' [|r [|]]] eqn:Hs; try done.
  intros ->%bool_decide_eq_true. exists r. split; [done|].
  symmetry. by apply py_split_two.
Qed.

(** A prefix without underscore in front of a region key without ["__"]
    gives a key that carries the prefix. *)
Definition underscore : Ascii.ascii :=
  Ascii.Ascii true true true true true false true false.

Fixpoint no_underscore (s : string) : bool :=
  match s with
  | EmptyString => true
  | String c t => negb (Ascii.eqb c underscore) && no_underscore t
  end.

Example underscore_string : String underscore EmptyString = "_"%string.
Proof. reflexivity. Qed.

Lemma py_partition_after_prefix (p r : string) :
  no_underscore p = true →
  py_partition "__" (p +:+ "__" +:+ r) = Some (p, r).
Proof.
  induction p as [|c p IH]; [done|].
  cbn [no_underscore]. intros [Hc Hp]%andb_prop. apply negb_true_iff in Hc.
  change (String c p +:+ "__" +:+ r) with (String c (p +:+ "__" +:+ r)).
  cbn [py_partition strip_prefix]. rewrite decide_False.
  - by rewrite (IH Hp).
  - intros <-. by rewrite Ascii.eqb_refl in Hc.
Qed.

Lemma py_split_fuel_no_separator (n : nat) (r : string) :
  py_contains "__" r = false → py_split_fuel n "__" r = [r].
Proof.
  unfold py_contains. destruct n; [done|]. simpl.
  by destruct (py_partition "__" r) as [[b a]|].
Qed.

Lemma carries_prefix_intro (p r : string) :
  no_underscore p = true → py_contains "__" r = false →
  carries_prefix p (prefixed p r) = true.
Proof.
  intros Hp Hr. unfold carries_prefix, py_split, prefixed.
  pose proof (py_partition_after_prefix p r Hp) as Hpart.
  destruct (String.length (p +:+ "__" +:+ r)) as [|n] eqn:Hlen.
  - apply py_partition_length in Hpart. simpl in Hpart. lia.
  - cbn [py_split_fuel]. rewrite Hpart, (py_split_fuel_no_separator n r Hr).
    by apply bool_decide_eq_true.
Qed.

Lemma strip_keys_prefixed (p : string) (keys : list string) :
  Forall (λ k, carries_prefix p k = true) keys →
  ∃ rs, strip_keys keys = inr rs ∧ map (prefixed p) rs = keys.
Proof.
  unfold strip_keys. induction 1 as [|k keys Hk _ (rs & IH & Hrs)]; simpl.
  - by exists [].
  - apply carries_prefix_split in Hk as (r & -> & Hr). simpl. rewrite IH.
    exists (r :: rs). simpl. by rewrite Hr, Hrs.
Qed.

Lemma split_prefix_prefixed (p : string) (keys : list string) :
  keys ≠ [] →
  Forall (λ k, carries_prefix p k = true) keys →
  ∃ rs, split_prefix keys = inr (Some p, rs) ∧ map (prefixed p) rs = keys.
Proof.
  intros Hne Hall. destruct (strip_keys_prefixed p keys Hall) as (rs & Hrs & Hmap).
  exists rs. split; [|done]. unfold split_prefix.
  destruct keys as [|k0 keys]; [done|]. unfold getitem at 1. simpl.
  apply Forall_cons in Hall as [Hk0 _].
  apply carries_prefix_split in Hk0 as (r & Hsplit & _).
  rewrite (py_split_two_contains _ _ _ _ Hsplit), Hsplit. simpl.
  by rewrite Hrs.
Qed.

(** [split] on sample keys, as Python gives them. *)
Example py_split_prefixed :
  py_split "__" "hg38__chr1:10-20" = ["hg38"; "chr1:10-20"]%string.
Proof. reflexivity. Qed.

Example py_split_no_separator :
  py_split "__" "chr1:10-20" = ["chr1:10-20"]%string.
Proof. reflexivity. Qed.

Example py_split_three_underscores :
  py_split "__" "a___b" = ["a"; "_b"]%string.
Proof. reflexivity. Qed.

Example py_split_trailing_separator :
  py_split "__" "a__" = ["a"; ""]%string.
Proof. reflexivity. Qed.

(** A rest that holds a further separator is cut at it by
    [x.split('__')[1]]: such a key does not carry its prefix in the sense of
    [carries_prefix], and putting the prefix back does not give the key. *)
Example strip_keys_further_separator :
  strip_keys ["hg38__chr1__alt:10-20"]%string = inr ["chr1"%string] ∧
  carries_prefix "hg38" "hg38__chr1__alt:10-20" = false ∧
  prefixed "hg38" "chr1" ≠ "hg38__chr1__alt:10-20"%string.
Proof. repeat split; [reflexivity.. | discriminate]. Qed.

(** ** [load_db] *)

(** The database regions reached by a mapping: what lines 115 and 120 give
    to the signature. *)
Definition mapped_queries (rtd : regions_to_db_t) : list string :=
  match rtd with
  | RTD_None => []
  | RTD_dict d =>
      list_set (concat (map (λ kv : string * MappingTable, map Query kv.2) d))
  | RTD_table t => list_set (map Query t)
  end.

(** A call of [target_to_query] is made on the vocabulary [v]. *)
Definition maps_onto (v : list string) (ev : event) : Prop :=
  match ev with
  | Call_target_to_query _ v' _ => v' = v
  | Call_load _ | Call_load_full => False
  | _ => True
  end.

(** A signature that is built holds the keys it was built from, and there
    is at least one. *)
Lemma GeneSignature_inr (name : string) (keys genes : list string) :
  GeneSignature name keys = inr genes → genes = keys ∧ keys ≠ [].
Proof.
  unfold GeneSignature. repeat case_decide; try done. by intros [= <-].
Qed.

Section LoadDb.

Context `{Externals}.

Lemma mapM_target_to_query_inv (v : list string) (fo : float)
    (d : odict PyRanges) (tr tr' : list event) (tables : odict MappingTable) :
  mapM (λ kv : string * PyRanges,
          t <- call (Call_target_to_query kv.2 v fo) (target_to_query kv.2 v fo) ;;
          ret (kv.1, t)) d tr = (tr', inr tables) →
  ∃ evs, tr' = tr ++ evs ∧ Forall (maps_onto v) evs.
Proof.
  revert tr tables. induction d as [|kv d IH]; intros tr tables Hrun.
  - injection Hrun as <- <-. exists []. by rewrite app_nil_r.
  - simpl in Hrun. apply bind_inv in Hrun as (y & tr1 & Hy & Hrun).
    apply bind_inv in Hrun as (ys & tr2 & Hys & Hret).
    injection Hret as <- <-.
    apply bind_call_inv in Hy as (t & _ & Hret). injection Hret as <- <-.
    apply IH in Hys as (evs & -> & Hevs).
    exists (Call_target_to_query kv.2 v fo :: evs). split.
    + unfold record, trace_traced. by rewrite <- app_assoc.
    + by constructor.
Qed.

Lemma map_region_sets_inv (region_sets : region_sets_arg) (v : list string)
    (fo : float) (tr tr' : list event) (rtd : regions_to_db_t)
    (qs : list string) :
  map_region_sets region_sets v fo tr = (tr', inr (rtd, qs)) →
  qs = mapped_queries rtd ∧
  ∃ evs, tr' = tr ++ evs ∧ Forall (maps_onto v) evs.
Proof.
  destruct region_sets as [|d|r|]; simpl; try done.
  - intros Hrun. apply bind_inv in Hrun as (tables & tr1 & Htables & Hret).
    injection Hret as <- <- <-. split; [done|].
    by apply mapM_target_to_query_inv in Htables.
  - intros Hrun. apply bind_call_inv in Hrun as (t & _ & Hret).
    injection Hret as <- <- <-. split; [done|].
    exists [Call_target_to_query r v fo]. split; [done|]. by repeat constructor.
Qed.

(** C9 (amended): when [region_sets] is neither [None], a dict nor a
    PyRanges, [load_db] raises after it has opened the database handle and
    before any mapping or ranking is computed or loaded: the only external
    call made is the opening of the handle.  The exception is a
    [ValueError] as soon as the handle opens and the prefix of its region
    keys is split. *)
Theorem load_db_invalid_region_sets (fname : string) (db_name : option string)
    (fo : float) (tr : list event) :
  let nm := match db_name with None => basename fname | Some n => n end in
  ∃ e, load_db fname RS_other db_name fo tr
       = (tr ++ [Call_FeatherRankingDatabase fname nm], inl e) ∧
       ∀ db pv, open_FeatherRankingDatabase fname nm = inr db →
                split_prefix (genes db) = inr pv → e = ValueError.
Proof.
  intros nm. unfold load_db, bind, call, lift. fold nm.
  unfold record, trace_traced.
  destruct (open_FeatherRankingDatabase fname nm) as [e|db].
  - exists e. split; [done|]. by intros db pv [=].
  - destruct (split_prefix (genes db)) as [e|pv] eqn:Hpv.
    + exists e. split; [done|]. intros db' pv' [= <-]. by rewrite Hpv.
    + exists ValueError. split; [done|]. done.
Qed.

(** The round trip of the prefix on keys with one separator: when every
    region key of the database is [p], ["__"] and a rest without ["__"],
    and [load] returns columns of the database, a successful [load_db] with
    region sets maps them onto the keys without [p__], asks the database
    for the mapped keys with [p__] put back, and returns the loaded matrix
    with its column labels stripped: putting [p__] in front of a returned
    label gives the label of the database again. *)
Theorem load_db_prefix_round_trip (fname : string)
    (region_sets : region_sets_arg) (db_name : option string) (fo : float)
    (tr tr' : list event) (rtd : regions_to_db_t) (df : DataFrame) (total : Z)
    (db : FeatherRankingDatabase) (p : string) :
  let nm := match db_name with None => basename fname | Some n => n end in
  open_FeatherRankingDatabase fname nm = inr db →
  genes db ≠ [] →
  Forall (λ k, carries_prefix p k = true) (genes db) →
  (∀ sig l, load db sig = inr l → Forall (λ c, c ∈ genes db) (df_columns l)) →
  region_sets ≠ RS_None →
  load_db fname region_sets db_name fo tr = (tr', inr (rtd, df, total)) →
  ∃ v evs loaded,
    map (prefixed p) v = genes db ∧
    tr' = tr ++ Call_FeatherRankingDatabase fname nm :: evs
             ++ [Call_load (map (prefixed p) (mapped_queries rtd))] ∧
    Forall (maps_onto v) evs ∧
    load db (map (prefixed p) (mapped_queries rtd)) = inr loaded ∧
    map (prefixed p) (df_columns df) = df_columns loaded ∧
    df_index df = df_index loaded ∧
    df_values df = df_values loaded.
Proof.
  intros nm Hopen Hne Hkeys Hload Hsets. unfold load_db. fold nm. intros Hrun.
  apply bind_call_inv in Hrun as (db' & Hdb' & Hrun).
  rewrite Hopen in Hdb'. injection Hdb' as <-.
  apply bind_lift_inv in Hrun as (pv & Hpv & Hrun).
  destruct (split_prefix_prefixed p (genes db) Hne Hkeys) as (v & Hv & Hvmap).
  rewrite Hv in Hpv. injection Hpv as <-. simpl in Hrun.
  assert (Hbody :
    (mq <- map_region_sets region_sets v fo ;;
     keys <- lift (GeneSignature "test" (add_prefix (Some p) mq.2)) ;;
     db_rankings <- call (Call_load keys) (load db keys) ;;
     db_rankings <- (labels <- lift (strip_keys (df_columns db_rankings)) ;;
                     lift (df_set_columns db_rankings labels)) ;;
     ret (mq.1, db_rankings, total_genes db))
      (record (Call_FeatherRankingDatabase fname nm) tr)
    = (tr', inr (rtd, df, total))).
  { by destruct region_sets. }
  clear Hrun.
  apply bind_inv in Hbody as ([rtd' qs] & tr1 & Hmap & Hbody).
  apply map_region_sets_inv in Hmap as (-> & evs & -> & Hevs).
  apply bind_lift_inv in Hbody as (keys & Hkeys' & Hbody).
  apply GeneSignature_inr in Hkeys' as [-> _].
  apply bind_call_inv in Hbody as (loaded & Hloaded & Hbody).
  apply bind_inv in Hbody as (df' & tr2 & Hstrip & Hret).
  injection Hret as <- <- <- <-.
  apply bind_lift_inv in Hstrip as (labels & Hlabels & Hset).
  unfold lift in Hset. injection Hset as <- Hset.
  simpl in Hloaded.
  assert (Hcols : Forall (λ k, carries_prefix p k = true) (df_columns loaded)).
  { apply Forall_forall. intros c Hc. rewrite Forall_forall in Hkeys.
    apply Hkeys. pose proof (Hload _ _ Hloaded) as Hin.
    rewrite Forall_forall in Hin. by apply Hin. }
  destruct (strip_keys_prefixed p _ Hcols) as (labels' & Hlabels' & Hround).
  rewrite Hlabels' in Hlabels. injection Hlabels as <-.
  unfold df_set_columns in Hset. case_decide; [|done]. injection Hset as <-.
  exists v, evs, loaded. simpl.
  split; [done|]. split.
  { unfold record, trace_traced. by rewrite <- !app_assoc. }
  done.
Qed.

End LoadDb.

(** C9 (counterexample): on the sample database, [load_db] called with a
    value that is no dict and no PyRanges raises [ValueError], which is not
    [TypeError]. *)
Lemma load_db_raises_ValueError :
  @load_db Reference.stable8 "regions_vs_motifs.feather" RS_other None
           Reference.half []
  = ([Call_FeatherRankingDatabase "regions_vs_motifs.feather"
                                  "regions_vs_motifs.feather"],
     inl ValueError) ∧
  (@load_db Reference.stable8 "regions_vs_motifs.feather" RS_other None
            Reference.half []).2 ≠ inl TypeError.
Proof. split; [vm_compute; reflexivity | by vm_compute]. Qed.

(** ** Runs on the sample data *)

Lemma reference_annotation_keeps_index
    (sort : list EnrichedRow → list EnrichedRow)
    (kernel : DataFrame → Z → list float → float → result (list float))
    (db : DataFrame) :
  @annotation_keeps_index (Reference.externals sort kernel db).
Proof.
  intros self t t' Ht. simpl. unfold Reference.annotation. rewrite Ht.
  by intros [= <-].
Qed.

Lemma reference_annotation_keeps_scores
    (sort : list EnrichedRow → list EnrichedRow)
    (kernel : DataFrame → Z → list float → float → result (list float))
    (db : DataFrame) :
  @annotation_keeps_scores (Reference.externals sort kernel db).
Proof.
  intros self t t' Ht. simpl. unfold Reference.annotation. rewrite Ht.
  by intros [= <-].
Qed.

Lemma reference_feather_columns (df : DataFrame) (sig : list string)
    (l : DataFrame) :
  load (Reference.feather df) sig = inr l →
  Forall (λ c, c ∈ genes (Reference.feather df)) (df_columns l).
Proof.
  simpl. unfold df_getitem. destruct (get_indexer _ _); [done|].
  intros [= <-]. simpl. apply Forall_forall. intros c Hc.
  by apply list_elem_of_filter in Hc as [_ ?].
Qed.

(** The run of the sample with the threshold 3: no motif is enriched. *)
Lemma run_ctx_no_enriched_motif_sample :
  let E := Reference.stable8 in
  let σ := Reference.start Reference.self3_strict in
  let self := st_self σ in
  let sig := Reference.regulon (map Query Reference.mapping3) (name self) in
  let weights := repeat Float.one (length (sig_genes sig)) in
  (@resolve_regions_to_db E self Reference.db8 = inr Reference.mapping3 ∧
   @region_sets_to_signature E (map Query Reference.mapping3) (name self)
   = inr sig ∧
   subset_rankings self Reference.db8 (sig_genes sig)
   = inr Reference.rankings8_mapped ∧
   @calc_aucs E Reference.rankings8_mapped 8 weights Reference.half
   = inr Reference.aucs8 ∧
   Forall (λ nes, Float.ge nes (Reference.of_Z 3) = false)
          (@compute_ness E Reference.aucs8)) ∧
  ∃ σ' table hits cis,
    @run_ctx E Reference.db8 σ = (σ', inr tt) ∧
    motif_enrichment (st_self σ') = Some table ∧ me_rows table = [] ∧
    motif_hits (st_self σ') = Some hits ∧
    hits !! "Database"%string = Some [] ∧ hits !! "Region_set"%string = Some [] ∧
    cistromes (st_self σ') = Some cis ∧
    cis !! "Database"%string = Some [] ∧ cis !! "Region_set"%string = Some [] ∧
    st_trace σ' = st_trace σ ++
      [Call_calc_aucs Reference.rankings8_mapped 8 weights Reference.half].
Proof.
  intros E σ self sig weights.
  assert (H1 : @resolve_regions_to_db E self Reference.db8
               = inr Reference.mapping3) by (vm_compute; reflexivity).
  assert (Hs : @region_sets_to_signature E (map Query Reference.mapping3)
                                           (name self) = inr sig)
    by (vm_compute; reflexivity).
  assert (H2 : subset_rankings self Reference.db8 (sig_genes sig)
               = inr Reference.rankings8_mapped) by (vm_compute; reflexivity).
  assert (H3 : @calc_aucs E Reference.rankings8_mapped 8 weights Reference.half
               = inr Reference.aucs8) by (vm_compute; reflexivity).
  assert (H4 : Forall (λ nes, Float.ge nes (Reference.of_Z 3) = false)
                      (@compute_ness E Reference.aucs8))
    by (repeat (constructor; [vm_compute; reflexivity|]); constructor).
  split; [exact (conj H1 (conj Hs (conj H2 (conj H3 H4))))|].
  exact (@run_ctx_no_enriched_motif E Reference.db8 σ Reference.mapping3 sig
           Reference.rankings8_mapped Reference.aucs8 H1 Hs H2 H3 H4).
Defined.

(** The run of the sample with the threshold 0: m1, m3 and m4 are
    enriched. *)
Lemma run_ctx_nes_selection_sample :
  let E := Reference.stable8 in
  let σ := Reference.start Reference.self3 in
  let σ' := (@run_ctx E Reference.db8 σ).1 in
  let self := st_self σ in
  let sig := Reference.regulon (map Query Reference.mapping3) (name self) in
  let weights := repeat Float.one (length (sig_genes sig)) in
  let d := Reference.rankings8_mapped in
  let aucs := Reference.aucs8 in
  let idx := enriched_features_idx (@compute_ness E aucs) (nes_threshold self) in
  (@resolve_regions_to_db E self Reference.db8 = inr Reference.mapping3 ∧
   @region_sets_to_signature E (map Query Reference.mapping3) (name self)
   = inr sig ∧
   subset_rankings self Reference.db8 (sig_genes sig) = inr d ∧
   @calc_aucs E d 8 weights Reference.half = inr aucs ∧
   @sort_permutes E ∧
   @run_ctx E Reference.db8 σ = (σ', inr tt)) ∧
  (∀ i a, aucs !! i = Some a →
          @compute_ness E aucs !! i
          = Some (Float.div (Float.sub a (@np_mean E aucs)) (@np_std E aucs))) ∧
  (∃ table evs,
      st_trace σ' = st_trace σ ++ evs ∧
      (py_sum idx = 0%nat ∧ motif_enrichment (st_self σ') = Some table
       ∨ ∃ s, Call_add_motif_annotation s ∈ evs ∧
              motif_enrichment s = Some table) ∧
      map me_core (me_rows table) ≡ₚ
        filter (λ x, Float.ge x.1.2 (nes_threshold self) = true)
               (zip (zip (df_index d) (@compute_ness E aucs)) aucs)) ∧
  (∃ hits db,
      motif_hits (st_self σ') = Some hits ∧
      hits !! "Database"%string = Some db ∧
      ∀ m, m ∈ od_keys db ↔
           ∃ i a, df_index d !! i = Some m ∧ aucs !! i = Some a ∧
                  Float.ge (Float.div (Float.sub a (@np_mean E aucs))
                                      (@np_std E aucs))
                           (nes_threshold self) = true).
Proof.
  intros E σ σ' self sig weights d aucs idx.
  assert (H1 : @resolve_regions_to_db E self Reference.db8
               = inr Reference.mapping3) by (vm_compute; reflexivity).
  assert (Hs : @region_sets_to_signature E (map Query Reference.mapping3)
                                           (name self) = inr sig)
    by (vm_compute; reflexivity).
  assert (H2 : subset_rankings self Reference.db8 (sig_genes sig) = inr d)
    by (vm_compute; reflexivity).
  assert (H3 : @calc_aucs E d 8 weights Reference.half = inr aucs)
    by (vm_compute; reflexivity).
  assert (H4 : @run_ctx E Reference.db8 σ = (σ', inr tt))
    by (vm_compute; reflexivity).
  split; [exact (conj H1 (conj Hs (conj H2 (conj H3 (conj sort_stable_Permutation H4)))))|].
  exact (@run_ctx_nes_selection E Reference.db8 σ Reference.mapping3 sig d aucs
           H1 Hs H2 H3 σ' sort_stable_Permutation H4).
Defined.


(** In the sample run the motif m2 is not enriched: the curves are those of
    the four motifs, and the leading edges are taken for m1, m3 and m4. *)
Example run_ctx_sample_calls :
  let σ' := (@run_ctx Reference.stable8 Reference.db8
               (Reference.start Reference.self3)).1 in
  omap (λ ev, match ev with
              | Call_recovery rnk _ _ cutoff _ no_auc =>
                  Some (df_index rnk, cutoff, no_auc)
              | _ => None
              end) (st_trace σ')
  = [(["m1"; "m2"; "m3"; "m4"]%string, 4, true)] ∧
  omap (λ ev, match ev with
              | Call_leading_edge4row m rcc ranking _ _ _ =>
                  Some (m, length rcc, ranking)
              | _ => None
              end) (st_trace σ')
  = [("m1"%string, 4%nat, [0; 1]); ("m3"%string, 4%nat, [1; 0]);
     ("m4"%string, 4%nat, [0; 1])].
Proof. split; vm_compute; reflexivity. Qed.

(** The sample run: the motif hits and their counts. *)
Lemma run_ctx_motif_hits_sample :
  let E := Reference.stable8 in
  let σ := Reference.start Reference.self3 in
  let σ' := (@run_ctx E Reference.db8 σ).1 in
  let self := st_self σ in
  let sig := Reference.regulon (map Query Reference.mapping3) (name self) in
  let weights := repeat Float.one (length (sig_genes sig)) in
  let d := Reference.rankings8_mapped in
  (@resolve_regions_to_db E self Reference.db8 = inr Reference.mapping3 ∧
   @region_sets_to_signature E (map Query Reference.mapping3) (name self)
   = inr sig ∧
   subset_rankings self Reference.db8 (sig_genes sig) = inr d ∧
   @calc_aucs E d 8 weights Reference.half = inr Reference.aucs8 ∧
   NoDup (df_index Reference.rankings8) ∧
   @sort_permutes E ∧ @annotation_keeps_index E ∧
   @run_ctx E Reference.db8 σ = (σ', inr tt)) ∧
  ∃ hits db rs table,
    motif_hits (st_self σ') = Some hits ∧
    hits !! "Database"%string = Some db ∧
    hits !! "Region_set"%string = Some rs ∧
    (∀ m db_hits, od_lookup m db = Some db_hits →
       ∃ rs_hits, od_lookup m rs = Some rs_hits ∧ NoDup rs_hits ∧
         ∀ t, t ∈ rs_hits ↔
              ∃ row, row ∈ Reference.mapping3 ∧ Target row = t ∧
                     Query row ∈ db_hits) ∧
    motif_enrichment (st_self σ') = Some table ∧
    (∀ row, row ∈ me_rows table →
       ∃ db_hits, od_lookup (me_motif row) db = Some db_hits ∧
                  me_Motif_hits row = Some (length db_hits)).
Proof.
  intros E σ σ' self sig weights d.
  assert (H1 : @resolve_regions_to_db E self Reference.db8
               = inr Reference.mapping3) by (vm_compute; reflexivity).
  assert (Hs : @region_sets_to_signature E (map Query Reference.mapping3)
                                           (name self) = inr sig)
    by (vm_compute; reflexivity).
  assert (H2 : subset_rankings self Reference.db8 (sig_genes sig) = inr d)
    by (vm_compute; reflexivity).
  assert (H3 : @calc_aucs E d 8 weights Reference.half = inr Reference.aucs8)
    by (vm_compute; reflexivity).
  assert (H4 : NoDup (df_index Reference.rankings8))
    by (apply (bool_decide_unpack _); vm_compute; exact I).
  assert (H5 : @run_ctx E Reference.db8 σ = (σ', inr tt))
    by (vm_compute; reflexivity).
  pose proof (reference_annotation_keeps_index Reference.sort_stable
                Reference.aucs Reference.rankings8) as H6.
  split; [exact (conj H1 (conj Hs (conj H2 (conj H3 (conj H4
                   (conj sort_stable_Permutation (conj H6 H5)))))))|].
  exact (@run_ctx_motif_hits E Reference.db8 σ Reference.mapping3 sig d
           Reference.aucs8 H1 Hs H2 H3 σ' H4 sort_stable_Permutation H6 H5).
Defined.

(** The sample run with the threshold -2: the four motifs are enriched,
    and m2, the second motif of the matrix, has the lowest NES. *)
Lemma run_ctx_descending_nes_sample :
  let E := Reference.stable8 in
  let σ := Reference.start Reference.self3_all in
  let σ' := (@run_ctx E Reference.db8 σ).1 in
  let self := st_self σ in
  let sig := Reference.regulon (map Query Reference.mapping3) (name self) in
  let weights := repeat Float.one (length (sig_genes sig)) in
  let d := Reference.rankings8_mapped in
  let aucs := Reference.aucs8 in
  (@resolve_regions_to_db E self Reference.db8 = inr Reference.mapping3 ∧
   @region_sets_to_signature E (map Query Reference.mapping3) (name self)
   = inr sig ∧
   subset_rankings self Reference.db8 (sig_genes sig) = inr d ∧
   @calc_aucs E d 8 weights Reference.half = inr aucs ∧
   @sort_permutes E ∧ @sort_descends E ∧ @annotation_keeps_scores E ∧
   @run_ctx E Reference.db8 σ = (σ', inr tt)) ∧
  ∃ table,
    motif_enrichment (st_self σ') = Some table ∧
    StronglySorted (λ x y, Float.ge x y = true) (map me_NES (me_rows table)) ∧
    map me_core (me_rows table) ≡ₚ
      filter (λ x, Float.ge x.1.2 (nes_threshold self) = true)
             (zip (zip (df_index d) (@compute_ness E aucs)) aucs).
Proof.
  intros E σ σ' self sig weights d aucs.
  assert (H1 : @resolve_regions_to_db E self Reference.db8
               = inr Reference.mapping3) by (vm_compute; reflexivity).
  assert (Hs : @region_sets_to_signature E (map Query Reference.mapping3)
                                           (name self) = inr sig)
    by (vm_compute; reflexivity).
  assert (H2 : subset_rankings self Reference.db8 (sig_genes sig) = inr d)
    by (vm_compute; reflexivity).
  assert (H3 : @calc_aucs E d 8 weights Reference.half = inr aucs)
    by (vm_compute; reflexivity).
  assert (H4 : @run_ctx E Reference.db8 σ = (σ', inr tt))
    by (vm_compute; reflexivity).
  pose proof (reference_annotation_keeps_scores Reference.sort_stable
                Reference.aucs Reference.rankings8) as H5.
  split; [exact (conj H1 (conj Hs (conj H2 (conj H3
                   (conj sort_stable_Permutation
                      (conj sort_stable_descending (conj H5 H4)))))))|].
  exact (@run_ctx_descending_nes E Reference.db8 σ Reference.mapping3 sig d
           aucs H1 Hs H2 H3 σ' sort_stable_Permutation sort_stable_descending
           H5 H4).
Defined.

(** In this run the table has four rows: three with a positive NES, then
    the row of m2, whose NES is negative. *)
Example run_ctx_sample_descending :
  let σ' := (@run_ctx Reference.stable8 Reference.db8
               (Reference.start Reference.self3_all)).1 in
  let rows := match motif_enrichment (st_self σ') with
              | Some table => me_rows table
              | None => []
              end in
  map (λ r, Float.ge (me_NES r) Reference.zero) rows
  = [true; true; true; false] ∧
  last (map me_motif rows) = Some "m2"%string.
Proof. split; vm_compute; reflexivity. Qed.

(** Two motifs with the same ranking: both AUCs are 1/2, their mean is 1/2
    and their standard deviation is 0, so the NES of both is NaN. *)
Lemma run_ctx_constant_aucs_sample :
  let E := Reference.flat in
  let σ := Reference.start Reference.self3 in
  let self := st_self σ in
  let sig := Reference.regulon (map Query Reference.mapping3) (name self) in
  let weights := repeat Float.one (length (sig_genes sig)) in
  let d := Reference.rankings_flat_mapped in
  let c := Reference.auc_flat in
  let aucs := repeat c 2 in
  let nes := Float.div (Float.sub c (@np_mean E aucs)) (@np_std E aucs) in
  let idx := enriched_features_idx (@compute_ness E aucs) (nes_threshold self) in
  (@resolve_regions_to_db E self Reference.db_flat = inr Reference.mapping3 ∧
   @region_sets_to_signature E (map Query Reference.mapping3) (name self)
   = inr sig ∧
   subset_rankings self Reference.db_flat (sig_genes sig) = inr d ∧
   @calc_aucs E d 4 weights Reference.half = inr aucs) ∧
  @compute_ness E aucs = repeat nes 2 ∧
  idx = repeat (Float.ge nes (nes_threshold self)) 2 ∧
  (@np_mean E aucs = c → Float.is_zero (@np_std E aucs) = true →
   nes = S754_nan ∧ Float.ge nes (nes_threshold self) = false) ∧
  (Float.ge nes (nes_threshold self) = false →
   @run_ctx E Reference.db_flat σ =
   (not_enriched_state (scored_state σ Reference.mapping3 sig d 4), inr tt)) ∧
  (Float.ge nes (nes_threshold self) = true → py_sum idx = 2%nat).
Proof.
  intros E σ self sig weights d c aucs nes idx.
  assert (H1 : @resolve_regions_to_db E self Reference.db_flat
               = inr Reference.mapping3) by (vm_compute; reflexivity).
  assert (Hs : @region_sets_to_signature E (map Query Reference.mapping3)
                                           (name self) = inr sig)
    by (vm_compute; reflexivity).
  assert (H2 : subset_rankings self Reference.db_flat (sig_genes sig) = inr d)
    by (vm_compute; reflexivity).
  assert (H3 : @calc_aucs E d 4 weights Reference.half = inr aucs)
    by (vm_compute; reflexivity).
  split; [exact (conj H1 (conj Hs (conj H2 H3)))|].
  exact (@run_ctx_constant_aucs E Reference.db_flat σ Reference.mapping3 sig d
           c 2 H1 Hs H2 H3).
Defined.

(** C8 (counterexample): three motifs with the same ranking, hence with
    the same AUC, 7/10.  In binary64 the sum of the three AUCs is rounded,
    their mean is the float just below 7/10, their standard deviation is
    [2^-53] and not zero, and the NES of each motif is 1.0.  With the NES
    threshold 1.0 the three motifs are flagged enriched and the run returns
    with a table of three rows: it does not end in the state of a run
    without enriched motif. *)
Lemma run_ctx_constant_aucs_enriched :
  let E := Reference.const3 in
  let σ := Reference.start Reference.self3_one in
  let c := Reference.seven_tenths in
  let out := @run_ctx E Reference.db_const3 σ in
  @calc_aucs E Reference.rankings_const3_mapped 8 [Float.one; Float.one]
             Reference.half = inr [c; c; c] ∧
  @np_mean E [c; c; c] ≠ c ∧
  Float.is_zero (@np_std E [c; c; c]) = false ∧
  @compute_ness E [c; c; c] = [Float.one; Float.one; Float.one] ∧
  enriched_features_idx (@compute_ness E [c; c; c]) (nes_threshold (st_self σ))
  = [true; true; true] ∧
  out.2 = inr tt ∧
  (∃ table, motif_enrichment (st_self out.1) = Some table ∧
            map me_NES (me_rows table) = [Float.one; Float.one; Float.one] ∧
            map me_AUC (me_rows table) = [c; c; c]) ∧
  omap (λ ev, match ev with
              | Call_calc_aucs rnk _ _ _ => Some (df_index rnk, df_values rnk)
              | _ => None
              end) (st_trace out.1)
  = [(["m1"; "m2"; "m3"]%string, [[0; 1]; [0; 1]; [0; 1]])].
Proof.
  intros E σ c out.
  split; [vm_compute; reflexivity|].
  split; [vm_compute; discriminate|].
  split; [vm_compute; reflexivity|].
  split; [vm_compute; reflexivity|].
  split; [vm_compute; reflexivity|].
  split; [vm_compute; reflexivity|].
  split; [|vm_compute; reflexivity].
  assert (H : match motif_enrichment (st_self out.1) with
              | Some table =>
                  map me_NES (me_rows table)
                  = [Float.one; Float.one; Float.one] ∧
                  map me_AUC (me_rows table) = [c; c; c]
              | None => False
              end) by (vm_compute; split; reflexivity).
  destruct (motif_enrichment (st_self out.1)) as [table|]; [|destruct H].
  exists table. split; [reflexivity|exact H].
Qed.

(** The sample run of a region set without mapped region. *)
Lemma run_ctx_empty_mapping_sample :
  let E := Reference.stable8 in
  let σ := Reference.start Reference.self_unmapped in
  let self := st_self σ in
  @resolve_regions_to_db E self Reference.db8 = inr [] ∧
  (∀ e, @region_sets_to_signature E [] (name self) = inl e →
        @run_ctx E Reference.db8 σ = (mapped_state σ [], inl e)) ∧
  (∀ σ', @run_ctx E Reference.db8 σ = (σ', inr tt) →
         ∃ sig d aucs evs,
           let weights := repeat Float.one (length (sig_genes sig)) in
           @region_sets_to_signature E [] (name self) = inr sig ∧
           subset_rankings self Reference.db8 (sig_genes sig) = inr d ∧
           @calc_aucs E d 8 weights (auc_threshold self) = inr aucs ∧
           st_trace σ' = st_trace σ ++
             Call_calc_aucs d 8 weights (auc_threshold self) :: evs).
Proof.
  intros E σ self.
  assert (H1 : @resolve_regions_to_db E self Reference.db8 = inr [])
    by (vm_compute; reflexivity).
  split; [exact H1|].
  exact (@run_ctx_empty_mapping E Reference.db8 σ H1).
Defined.

(** [load_db] on the sample database with an argument of another type. *)
Lemma load_db_invalid_region_sets_sample :
  let E := Reference.stable8 in
  let fname := "regions_vs_motifs.feather"%string in
  (@open_FeatherRankingDatabase E fname fname
   = inr (Reference.feather Reference.rankings8) ∧
   split_prefix (genes (Reference.feather Reference.rankings8))
   = inr (None, df_columns Reference.rankings8)) ∧
  @load_db E fname RS_other None Reference.half []
  = ([Call_FeatherRankingDatabase fname fname], inl ValueError).
Proof.
  intros E fname.
  assert (H1 : @open_FeatherRankingDatabase E fname fname
               = inr (Reference.feather Reference.rankings8)) by reflexivity.
  assert (H2 : split_prefix (genes (Reference.feather Reference.rankings8))
               = inr (None, df_columns Reference.rankings8))
    by (vm_compute; reflexivity).
  split; [exact (conj H1 H2)|].
  destruct (@load_db_invalid_region_sets E fname None Reference.half [])
    as (e & Hrun & He).
  rewrite Hrun. by rewrite (He _ _ H1 H2).
Defined.

(** C10 (failing input): a database with the prefix [hg38] whose first
    region key, [hg38__chr1__alt], holds the separator a second time.
    [x.split('__')[1]] keeps [chr1] of it; the region set is mapped onto
    [chr1] and [r2]; the database is asked for [hg38__chr1], which is no key
    of it, and for [hg38__r2].  [load_db] returns normally, with a mapping
    that reaches [chr1] and a matrix that has the column [r2] alone; no key
    of the vocabulary gives [hg38__chr1__alt] back when the prefix is put in
    front of it. *)
Lemma load_db_further_separator :
  let E := Reference.alt in
  let fname := "regions_vs_motifs.feather"%string in
  let db := Reference.feather Reference.rankings_alt in
  let v := ["chr1"; "r2"]%string in
  genes db = ["hg38__chr1__alt"; "hg38__r2"]%string ∧
  split_prefix (genes db) = inr (Some "hg38"%string, v) ∧
  @load_db E fname (RS_PyRanges Reference.query_chr1_r2) None Reference.half []
  = ([Call_FeatherRankingDatabase fname fname;
      Call_target_to_query Reference.query_chr1_r2 v Reference.half;
      Call_load ["hg38__chr1"; "hg38__r2"]%string],
     inr (RTD_table
            [{| mr_label := "chr1"; Target := "chr1"; Query := "chr1" |};
             {| mr_label := "r2"; Target := "r2"; Query := "r2" |}]%string,
          {| df_index := ["m1"; "m2"]%string;
             df_columns := ["r2"]%string;
             df_values := [[1]; [0]] |},
          2)) ∧
  (prefixed "hg38" "chr1" ∉ genes db) ∧
  Forall (λ x, prefixed "hg38" x ≠ "hg38__chr1__alt"%string) v.
Proof.
  intros E fname db v.
  split; [reflexivity|]. split; [vm_compute; reflexivity|].
  split; [vm_compute; reflexivity|]. split.
  - apply (bool_decide_unpack _). vm_compute. exact I.
  - repeat constructor; discriminate.
Qed.

(** [load_db] on a database whose keys carry the prefix [hg38]. *)
Lemma load_db_prefix_round_trip_sample :
  let E := Reference.hg38 in
  let fname := "regions_vs_motifs.feather"%string in
  let db := Reference.feather Reference.rankings_hg38 in
  let run := @load_db E fname (RS_PyRanges Reference.query_r1_r3) None
                      Reference.half [] in
  let rtd := RTD_table [{| mr_label := "r1"; Target := "r1"; Query := "r1" |};
                        {| mr_label := "r3"; Target := "r3"; Query := "r3" |}]%string in
  let df := {| df_index := ["m1"; "m2"]%string;
               df_columns := ["r1"; "r3"]%string;
               df_values := [[0; 2]; [2; 0]] |} in
  (@open_FeatherRankingDatabase E fname fname = inr db ∧
   genes db ≠ [] ∧
   Forall (λ k, carries_prefix "hg38" k = true) (genes db) ∧
   (∀ sig l, load db sig = inr l → Forall (λ c, c ∈ genes db) (df_columns l)) ∧
   RS_PyRanges Reference.query_r1_r3 ≠ RS_None ∧
   run = (run.1, inr (rtd, df, 3))) ∧
  ∃ v evs loaded,
    map (prefixed "hg38") v = genes db ∧
    run.1 = [] ++ Call_FeatherRankingDatabase fname fname :: evs
               ++ [Call_load (map (prefixed "hg38") (mapped_queries rtd))] ∧
    Forall (maps_onto v) evs ∧
    load db (map (prefixed "hg38") (mapped_queries rtd)) = inr loaded ∧
    map (prefixed "hg38") (df_columns df) = df_columns loaded ∧
    df_index df = df_index loaded ∧
    df_values df = df_values loaded.
Proof.
  intros E fname db run rtd df.
  assert (H1 : @open_FeatherRankingDatabase E fname fname = inr db)
    by reflexivity.
  assert (H2 : genes db ≠ []) by discriminate.
  assert (H3 : Forall (λ k, carries_prefix "hg38" k = true) (genes db))
    by (repeat (constructor; [vm_compute; reflexivity|]); constructor).
  assert (H4 : ∀ sig l, load db sig = inr l →
                        Forall (λ c, c ∈ genes db) (df_columns l))
    by apply reference_feather_columns.
  assert (H5 : RS_PyRanges Reference.query_r1_r3 ≠ RS_None) by discriminate.
  assert (H6 : run = (run.1, inr (rtd, df, 3))) by (vm_compute; reflexivity).
  split; [exact (conj H1 (conj H2 (conj H3 (conj H4 (conj H5 H6)))))|].
  exact (@load_db_prefix_round_trip E fname (RS_PyRanges Reference.query_r1_r3)
           None Reference.half [] run.1 rtd df 3 db "hg38" H1 H2 H3 H4 H5 H6).
Defined.

(** * The database object and its use by a run *)

(** ** [cisTargetDatabase.__init__] *)

Section Database.

Context `{Externals}.

(** Lines 56-59: the three attributes are the three values of [load_db]. *)
Definition cisTargetDatabase_init (fname : string) (region_sets : region_sets_arg)
    (db_name : option string) (fraction_overlap : float)
  : M (list event) cisTargetDatabase :=
  r <- load_db fname region_sets db_name fraction_overlap ;;
  ret {| db_regions_to_db := r.1.1; db_rankings := r.1.2; total_regions := r.2 |}.

End Database.

(** The region keys on which lines 108-111 do not raise: there is a first
    key, and when it holds ["__"] every key does. *)
Definition splittable (keys : list string) : bool :=
  match keys with
  | [] => false
  | k0 :: _ => negb (py_contains "__" k0) || forallb (py_contains "__") keys
  end.

(** All the [Query] values of a mapping, with their repetitions. *)
Definition all_queries (rtd : regions_to_db_t) : list string :=
  match rtd with
  | RTD_None => []
  | RTD_dict d => concat (map (λ kv : string * MappingTable, map Query kv.2) d)
  | RTD_table t => map Query t
  end.

(** The key of the database for the region key [q]. *)
Definition database_key (prefix : option string) (q : string) : string :=
  match prefix with
  | Some p => prefixed p q
  | None => q
  end.

Definition is_mapping_call (ev : event) : Prop :=
  match ev with
  | Call_target_to_query _ _ _ => True
  | _ => False
  end.

(** ** Lists of results *)

Lemma result_mapM_inr {A B} (f : A → result B) (l : list A) (ys : list B) :
  result_mapM f l = inr ys ↔ Forall2 (λ x y, f x = inr y) l ys.
Proof.
  revert ys. induction l as [|x l IH]; intros ys; simpl.
  - split; [intros [= <-]; constructor | by inversion 1].
  - destruct (f x) as [e|y] eqn:Hx.
    + split; [done|]. inversion 1; congruence.
    + destruct (result_mapM f l) as [e|ys'] eqn:Hl.
      * split; [done|]. inversion 1 as [|? y' ? ys'' Hy Hrest]; subst.
        by apply IH in Hrest.
      * split.
        -- intros [= <-]. constructor; [done|]. by apply IH.
        -- inversion 1 as [|? y' ? ys'' Hy Hrest]; subst.
           apply IH in Hrest. congruence.
Qed.

Lemma result_mapM_inl {A B} (f : A → result B) (l : list A) (e : exn) :
  result_mapM f l = inl e → ∃ x, x ∈ l ∧ f x = inl e.
Proof.
  induction l as [|x l IH]; simpl; [done|].
  destruct (f x) as [e'|y] eqn:Hx.
  - intros [= <-]. exists x. split; [left | done].
  - destruct (result_mapM f l) as [e'|ys]; [|done].
    intros [= <-]. destruct (IH eq_refl) as (x' & Hin & Hx').
    exists x'. split; [by right | done].
Qed.

(** ** Keys with and without the separator *)

Lemma py_split_second (k : string) :
  match getitem (py_split "__" k) 1 with
  | inr _ => py_contains "__" k = true
  | inl e => e = IndexError ∧ py_contains "__" k = false
  end.
Proof.
  unfold getitem, py_split, py_contains.
  destruct (String.length k) as [|n] eqn:Hlen.
  - by destruct k.
  - simpl. destruct (py_partition "__" k) as [[b a]|]; simpl; [|done].
    destruct (py_split_fuel n "__" a) eqn:Hs; [|done].
    by apply py_split_fuel_nonempty in Hs.
Qed.

Lemma strip_keys_spec (keys : list string) :
  match strip_keys keys with
  | inr rs => forallb (py_contains "__") keys = true ∧ length rs = length keys
  | inl e => e = IndexError ∧ forallb (py_contains "__") keys = false
  end.
Proof.
  unfold strip_keys. induction keys as [|k keys IH]; simpl; [done|].
  pose proof (py_split_second k) as Hk.
  destruct (getitem (py_split "__" k) 1) as [e|r].
  - destruct Hk as [-> ->]. done.
  - rewrite Hk. simpl.
    destruct (result_mapM _ keys) as [e|rs]; [done|].
    destruct IH as [-> <-]. done.
Qed.

Lemma split_prefix_spec (keys : list string) :
  match split_prefix keys with
  | inr (prefix, v) =>
      splittable keys = true ∧ length v = length keys ∧
      match prefix with
      | Some _ => strip_keys keys = inr v
      | None => v = keys ∧ ∃ k0 ks, keys = k0 :: ks ∧ py_contains "__" k0 = false
      end
  | inl e => e = IndexError ∧ splittable keys = false
  end.
Proof.
  unfold split_prefix, splittable.
  destruct keys as [|k0 ks]; [done|]. unfold getitem at 1. cbn [lookup list_lookup].
  destruct (py_contains "__" k0) eqn:Hk0; cbn [negb orb].
  - unfold getitem at 1.
    destruct (py_split "__" k0 !! 0%nat) as [p|] eqn:Hp.
    + pose proof (strip_keys_spec (k0 :: ks)) as Hs.
      destruct (strip_keys (k0 :: ks)) as [e|rs]; [done|].
      destruct Hs as [Hall Hlen]. done.
    + unfold py_split in Hp.
      destruct (py_split_fuel _ "__" k0) eqn:Hs; [|done].
      by apply py_split_fuel_nonempty in Hs.
  - repeat split; eauto.
Qed.

Lemma append_inj_r (p a b : string) : p +:+ a = p +:+ b → a = b.
Proof. induction p as [|c p IH]; simpl; [done|]. intros [= ?]. auto. Qed.

Lemma prefixed_inj (p : string) : Inj (=) (=) (prefixed p).
Proof. intros a b Hab. unfold prefixed in Hab. by do 2 apply append_inj_r in Hab. Qed.

Lemma add_prefix_database_key (prefix : option string) (keys : list string) :
  add_prefix prefix keys = map (database_key prefix) keys.
Proof. destruct prefix; simpl; [done|]. by rewrite map_id. Qed.

Lemma mapped_queries_all_queries (rtd : regions_to_db_t) :
  mapped_queries rtd = list_set (all_queries rtd).
Proof. by destruct rtd. Qed.

Lemma bind_eq {Σ A B} (m : M Σ A) (k : A → M Σ B) (σ : Σ) :
  (x <- m ;; k x) σ
  = match m σ with
    | (σ', inl e) => (σ', inl e)
    | (σ', inr a) => k a σ'
    end.
Proof. done. Qed.

Lemma bind_lift_eq {Σ A B} (r : result A) (k : A → M Σ B) (σ : Σ) :
  (x <- lift r ;; k x) σ
  = match r with
    | inl e => (σ, inl e)
    | inr a => k a σ
    end.
Proof. by destruct r. Qed.

Lemma bind_call_eq {Σ} `{Traced Σ} {A B} ev (r : result A) (k : A → M Σ B)
    (σ : Σ) :
  (x <- call ev r ;; k x) σ
  = match r with
    | inl e => (record ev σ, inl e)
    | inr a => k a (record ev σ)
    end.
Proof. by destruct r. Qed.

(** ** Runs of [load_db] *)

Section LoadDbRuns.

Context `{Externals}.

(** The tables of a dict of region sets, in all outcomes: the calls made
    are calls of [target_to_query]. *)
Lemma mapM_target_to_query_calls (v : list string) (fo : float)
    (d : odict PyRanges) (tr : list event) :
  ∃ evs,
    (mapM (λ kv : string * PyRanges,
             t <- call (Call_target_to_query kv.2 v fo)
                       (target_to_query kv.2 v fo) ;;
             ret (kv.1, t)) d tr).1 = tr ++ evs ∧
    Forall is_mapping_call evs.
Proof.
  revert tr. induction d as [|kv d IH]; intros tr.
  - exists []. by rewrite app_nil_r.
  - simpl. unfold bind at 1. unfold bind at 1, call at 1.
    destruct (target_to_query kv.2 v fo) as [e|t].
    + exists [Call_target_to_query kv.2 v fo]. split; [done|]. by repeat constructor.
    + unfold ret at 1. unfold bind at 1.
      destruct (IH (record (Call_target_to_query kv.2 v fo) tr)) as (evs & Htr & Hevs).
      exists (Call_target_to_query kv.2 v fo :: evs). split; [|by constructor].
      destruct (mapM _ d _) as [tr1 [e|ys]]; simpl in *; rewrite Htr;
        unfold record, trace_traced; by rewrite <- app_assoc.
Qed.

(** The tables of a dict of region sets, when every one is obtained: one
    table under each name, in the order of the dict, from one call each. *)
Lemma mapM_target_to_query_tables (v : list string) (fo : float)
    (d : odict PyRanges) (tr tr' : list event) (tables : odict MappingTable) :
  mapM (λ kv : string * PyRanges,
          t <- call (Call_target_to_query kv.2 v fo) (target_to_query kv.2 v fo) ;;
          ret (kv.1, t)) d tr = (tr', inr tables) →
  Forall2 (λ kv kt, kt.1 = kv.1 ∧ target_to_query kv.2 v fo = inr kt.2) d tables ∧
  tr' = tr ++ map (λ kv : string * PyRanges, Call_target_to_query kv.2 v fo) d.
Proof.
  revert tr tables. induction d as [|kv d IH]; intros tr tables Hrun.
  - injection Hrun as <- <-. split; [constructor | by rewrite app_nil_r].
  - simpl in Hrun. apply bind_inv in Hrun as (y & tr1 & Hy & Hrun).
    apply bind_inv in Hrun as (ys & tr2 & Hys & Hret).
    injection Hret as <- <-.
    apply bind_call_inv in Hy as (t & Ht & Hret). injection Hret as <- <-.
    apply IH in Hys as [Hall ->]. split.
    + by constructor.
    + unfold record, trace_traced. simpl. by rewrite <- app_assoc.
Qed.

(** What a successful [load_db] with region sets has done. *)
Lemma load_db_inv (fname : string) (region_sets : region_sets_arg)
    (db_name : option string) (fo : float) (tr tr' : list event)
    (rtd : regions_to_db_t) (df : DataFrame) (total : Z) :
  let nm := match db_name with None => basename fname | Some n => n end in
  region_sets ≠ RS_None →
  load_db fname region_sets db_name fo tr = (tr', inr (rtd, df, total)) →
  ∃ db prefix v tr1 loaded,
    open_FeatherRankingDatabase fname nm = inr db ∧
    split_prefix (genes db) = inr (prefix, v) ∧
    map_region_sets region_sets v fo (tr ++ [Call_FeatherRankingDatabase fname nm])
    = (tr1, inr (rtd, mapped_queries rtd)) ∧
    load db (add_prefix prefix (mapped_queries rtd)) = inr loaded ∧
    tr' = tr1 ++ [Call_load (add_prefix prefix (mapped_queries rtd))] ∧
    total = total_genes db ∧
    match prefix with
    | Some _ => ∃ labels, strip_keys (df_columns loaded) = inr labels ∧
                          df = {| df_index := df_index loaded;
                                  df_columns := labels;
                                  df_values := df_values loaded |}
    | None => df = loaded
    end.
Proof.
  intros nm Hsets. unfold load_db. fold nm. intros Hrun.
  apply bind_call_inv in Hrun as (db & Hdb & Hrun).
  apply bind_lift_inv in Hrun as ([prefix v] & Hpv & Hrun).
  cbn [fst snd] in Hrun.
  assert (Hbody :
    (mq <- map_region_sets region_sets v fo ;;
     keys <- lift (GeneSignature "test" (add_prefix prefix mq.2)) ;;
     db_rankings <- call (Call_load keys) (load db keys) ;;
     db_rankings <-
       match prefix with
       | Some _ => labels <- lift (strip_keys (df_columns db_rankings)) ;;
                   lift (df_set_columns db_rankings labels)
       | None => ret db_rankings
       end ;;
     ret (mq.1, db_rankings, total_genes db))
      (record (Call_FeatherRankingDatabase fname nm) tr)
    = (tr', inr (rtd, df, total))).
  { by destruct region_sets. }
  clear Hrun.
  apply bind_inv in Hbody as ([rtd' qs] & tr1 & Hmap & Hbody).
  pose proof Hmap as Hmap'.
  apply map_region_sets_inv in Hmap' as (-> & _).
  apply bind_lift_inv in Hbody as (keys & Hkeys & Hbody).
  apply GeneSignature_inr in Hkeys as [-> Hsome].
  apply bind_call_inv in Hbody as (loaded & Hloaded & Hbody).
  apply bind_inv in Hbody as (df' & tr2 & Hstrip & Hret).
  injection Hret as <- <- <- <-. cbn [fst snd] in *.
  exists db, prefix, v, tr1, loaded.
  split; [done|]. split; [done|]. split; [done|]. split; [done|].
  destruct prefix as [p|].
  - apply bind_lift_inv in Hstrip as (labels & Hlabels & Hset).
    unfold lift in Hset. injection Hset as <- Hset.
    unfold df_set_columns in Hset. case_decide; [|done]. injection Hset as <-.
    split; [done|]. split; [done|]. eauto.
  - injection Hstrip as <- <-. done.
Qed.

End LoadDbRuns.

Section LoadDbProperties.

Context `{Externals}.

(** X1: when the database lists no region, or its first region key holds
    ["__"] and another key does not, [load_db] raises [IndexError] right
    after it has opened the database, whatever [region_sets] is: nothing is
    mapped and nothing is loaded. *)
Theorem load_db_unsplittable_keys (fname : string) (region_sets : region_sets_arg)
    (db_name : option string) (fo : float) (tr : list event)
    (db : FeatherRankingDatabase) :
  let nm := match db_name with None => basename fname | Some n => n end in
  open_FeatherRankingDatabase fname nm = inr db →
  (genes db = [] ∨
   ∃ k0 ks k, genes db = k0 :: ks ∧ py_contains "__" k0 = true ∧
              k ∈ ks ∧ py_contains "__" k = false) →
  load_db fname region_sets db_name fo tr
  = (tr ++ [Call_FeatherRankingDatabase fname nm], inl IndexError).
Proof.
  intros nm Hopen Hkeys.
  assert (Hs : splittable (genes db) = false).
  { destruct Hkeys as [-> | (k0 & ks & k & -> & Hk0 & Hin & Hk)]; [done|].
    unfold splittable. rewrite Hk0. cbn [negb orb forallb]. rewrite Hk0.
    cbn [andb]. destruct (forallb (py_contains "__") ks) eqn:Hall; [|done].
    rewrite forallb_forall in Hall. apply list_elem_of_In in Hin.
    rewrite (Hall k Hin) in Hk. done. }
  pose proof (split_prefix_spec (genes db)) as Hsp.
  unfold load_db, bind, call, lift. fold nm. rewrite Hopen.
  destruct (split_prefix (genes db)) as [e|[prefix v]].
  - by destruct Hsp as [-> _].
  - destruct Hsp as [Hsp _]. congruence.
Qed.

(** X2: without region sets, on a database whose keys can be split,
    [load_db] makes two calls, the opening and [load_full]; an exception of
    [load_full] is raised, and otherwise the full matrix is returned as it
    was loaded, column labels included (a prefix is not stripped), with no
    mapping and with [total_genes] as the number of regions. *)
Theorem load_db_without_region_sets (fname : string) (db_name : option string)
    (fo : float) (tr : list event) (db : FeatherRankingDatabase) :
  let nm := match db_name with None => basename fname | Some n => n end in
  open_FeatherRankingDatabase fname nm = inr db →
  splittable (genes db) = true →
  load_db fname RS_None db_name fo tr
  = (tr ++ [Call_FeatherRankingDatabase fname nm; Call_load_full],
     match load_full db with
     | inl e => inl e
     | inr full => inr (RTD_None, full, total_genes db)
     end).
Proof.
  intros nm Hopen Hs.
  pose proof (split_prefix_spec (genes db)) as Hsp.
  unfold load_db, bind, call, lift. fold nm. rewrite Hopen.
  destruct (split_prefix (genes db)) as [e|[prefix v]].
  - destruct Hsp as [_ Hsp]. congruence.
  - unfold record, trace_traced. rewrite <- app_assoc. simpl.
    by destruct (load_full db).
Qed.

(** X3: when the first region key of the database holds no ["__"], no key
    is rewritten, whatever the other keys are: a successful [load_db] with
    region sets maps them onto the keys of the database as they are, asks
    the database for the mapped keys as they are, and returns the matrix
    this load gave. *)
Theorem load_db_unprefixed_keys (fname : string) (region_sets : region_sets_arg)
    (db_name : option string) (fo : float) (tr tr' : list event)
    (rtd : regions_to_db_t) (df : DataFrame) (total : Z)
    (db : FeatherRankingDatabase) (k0 : string) (ks : list string) :
  let nm := match db_name with None => basename fname | Some n => n end in
  open_FeatherRankingDatabase fname nm = inr db →
  genes db = k0 :: ks →
  py_contains "__" k0 = false →
  region_sets ≠ RS_None →
  load_db fname region_sets db_name fo tr = (tr', inr (rtd, df, total)) →
  ∃ evs,
    tr' = tr ++ Call_FeatherRankingDatabase fname nm :: evs
             ++ [Call_load (mapped_queries rtd)] ∧
    Forall (maps_onto (genes db)) evs ∧
    load db (mapped_queries rtd) = inr df ∧
    total = total_genes db.
Proof.
  intros nm Hopen Hgenes Hk0 Hsets Hrun.
  destruct (load_db_inv _ _ _ _ _ _ _ _ _ Hsets Hrun)
    as (db' & prefix & v & tr1 & loaded & Hopen' & Hpv & Hmap & Hload & -> & ->
        & Hdf).
  fold nm in Hopen'. rewrite Hopen in Hopen'. injection Hopen' as <-.
  unfold split_prefix in Hpv. rewrite Hgenes in Hpv.
  unfold getitem in Hpv. cbn [lookup list_lookup] in Hpv. rewrite Hk0 in Hpv.
  injection Hpv as <- <-. rewrite <- Hgenes in Hmap. subst df.
  apply map_region_sets_inv in Hmap as (_ & evs & -> & Hevs).
  exists evs. split; [by rewrite <- !app_assoc|]. done.
Qed.

(** X4: in a successful [load_db] with region sets, the data load is the
    last call and the only one after the opening that is no mapping call;
    the keys it asks for hold no duplicate, and they are exactly the keys of
    the database for the [Query] values of the mapping returned: a database
    region reached from several query regions, or from several region sets,
    is asked for once. *)
Theorem load_db_signature (fname : string) (region_sets : region_sets_arg)
    (db_name : option string) (fo : float) (tr tr' : list event)
    (rtd : regions_to_db_t) (df : DataFrame) (total : Z) :
  let nm := match db_name with None => basename fname | Some n => n end in
  region_sets ≠ RS_None →
  load_db fname region_sets db_name fo tr = (tr', inr (rtd, df, total)) →
  ∃ db prefix v evs sig,
    open_FeatherRankingDatabase fname nm = inr db ∧
    split_prefix (genes db) = inr (prefix, v) ∧
    tr' = tr ++ Call_FeatherRankingDatabase fname nm :: evs ++ [Call_load sig] ∧
    Forall (maps_onto v) evs ∧
    NoDup sig ∧
    ∀ k, k ∈ sig ↔ ∃ q, q ∈ all_queries rtd ∧ k = database_key prefix q.
Proof.
  intros nm Hsets Hrun.
  destruct (load_db_inv _ _ _ _ _ _ _ _ _ Hsets Hrun)
    as (db & prefix & v & tr1 & loaded & Hopen & Hpv & Hmap & Hload & -> & ->
        & Hdf).
  apply map_region_sets_inv in Hmap as (_ & evs & -> & Hevs).
  exists db, prefix, v, evs, (add_prefix prefix (mapped_queries rtd)).
  split; [done|]. split; [done|]. split; [by rewrite <- !app_assoc|].
  split; [done|]. rewrite add_prefix_database_key, mapped_queries_all_queries.
  split.
  - change (map ?f ?l) with (f <$> l). apply NoDup_fmap_2; [|apply list_set_NoDup].
    destruct prefix as [p|]; simpl; [apply prefixed_inj | by intros a b].
  - intros k. rewrite list_elem_of_fmap. split.
    + intros (q & -> & Hq). rewrite elem_of_list_set in Hq. by exists q.
    + intros (q & Hq & ->). exists q. split; [done|]. by rewrite elem_of_list_set.
Qed.

(** X5: in every outcome of [load_db], failures included, the first call
    is the opening of the database; without region sets the only other call
    is [load_full], and with region sets the other calls are mapping calls
    followed by at most one [load]: the full database is never loaded when
    region sets are given, and nothing is loaded before the mapping is
    complete. *)
Theorem load_db_calls (fname : string) (region_sets : region_sets_arg)
    (db_name : option string) (fo : float) (tr : list event) :
  let nm := match db_name with None => basename fname | Some n => n end in
  ∃ evs,
    (load_db fname region_sets db_name fo tr).1
    = tr ++ Call_FeatherRankingDatabase fname nm :: evs ∧
    match region_sets with
    | RS_None => evs = [] ∨ evs = [Call_load_full]
    | _ => ∃ maps, Forall is_mapping_call maps ∧
                   (evs = maps ∨ ∃ sig, evs = maps ++ [Call_load sig])
    end.
Proof.
  intros nm. unfold load_db. fold nm. unfold bind at 1, call at 1.
  unfold record at 1, trace_traced at 1.
  destruct (open_FeatherRankingDatabase fname nm) as [e|db].
  { exists []. split; [done|]. destruct region_sets; eauto.
    all: exists []; split; [constructor | by left]. }
  unfold bind at 1, lift at 1.
  destruct (split_prefix (genes db)) as [e|[prefix v]].
  { exists []. split; [done|]. destruct region_sets; eauto.
    all: exists []; split; [constructor | by left]. }
  cbn [fst snd].
  set (tr0 := tr ++ [Call_FeatherRankingDatabase fname nm]).
  assert (Hwith : ∀ rs, rs ≠ RS_None →
    let out :=
      ((mq <- map_region_sets rs v fo ;;
        keys <- lift (GeneSignature "test" (add_prefix prefix mq.2)) ;;
        db_rankings <- call (Call_load keys) (load db keys) ;;
        db_rankings <-
          match prefix with
          | Some _ => labels <- lift (strip_keys (df_columns db_rankings)) ;;
                      lift (df_set_columns db_rankings labels)
          | None => ret db_rankings
          end ;;
        ret (mq.1, db_rankings, total_genes db)) tr0).1 in
    ∃ maps, Forall is_mapping_call maps ∧
            (out = tr0 ++ maps ∨ ∃ sig, out = tr0 ++ maps ++ [Call_load sig])).
  { intros rs Hrs out. subst out.
    assert (Hmaps : ∃ maps, (map_region_sets rs v fo tr0).1 = tr0 ++ maps ∧
                            Forall is_mapping_call maps).
    { destruct rs as [|d|r|]; [done| | |].
      - simpl. unfold bind at 1.
        destruct (mapM_target_to_query_calls v fo d tr0) as (maps & Htr & Hmaps).
        exists maps. split; [|done].
        destruct (mapM _ d tr0) as [tr1 [e|ts]]; simpl in *; done.
      - simpl. unfold bind, call.
        exists [Call_target_to_query r v fo]. split; [|by repeat constructor].
        by destruct (target_to_query r v fo).
      - exists []. split; [|constructor]. simpl. by rewrite app_nil_r. }
    destruct Hmaps as (maps & Htr & Hmaps). exists maps. split; [done|].
    rewrite bind_eq.
    destruct (map_region_sets rs v fo tr0) as [tr1 [e|mq]]; simpl in Htr;
      subst tr1; [by left|].
    rewrite bind_lift_eq.
    destruct (GeneSignature "test" (add_prefix prefix mq.2)) as [e|keys];
      [by left|].
    right. exists keys.
    unfold bind, call, lift, ret, record, trace_traced.
    destruct (load db keys) as [e|loaded];
      [simpl; by rewrite <- app_assoc|].
    destruct prefix as [p|]; [|simpl; by rewrite <- app_assoc].
    destruct (strip_keys (df_columns loaded)) as [e|labels];
      [simpl; by rewrite <- app_assoc|].
    destruct (df_set_columns loaded labels); simpl; by rewrite <- app_assoc. }
  destruct region_sets as [|d|r|].
  - exists (match load_full db with inl _ | inr _ => [Call_load_full] end).
    unfold bind, call, ret. unfold record, trace_traced.
    destruct (load_full db); simpl; rewrite <- app_assoc; split; auto.
  - destruct (Hwith (RS_dict d)) as (maps & Hmaps & [Htr | [sig Htr]]); [done|..].
    + exists maps. split; [|eauto].
      transitivity (tr0 ++ maps); [exact Htr|]. unfold tr0.
      by rewrite <- app_assoc.
    + exists (maps ++ [Call_load sig]). split; [|eauto].
      transitivity (tr0 ++ maps ++ [Call_load sig]); [exact Htr|]. unfold tr0.
      by rewrite <- app_assoc.
  - destruct (Hwith (RS_PyRanges r)) as (maps & Hmaps & [Htr | [sig Htr]]); [done|..].
    + exists maps. split; [|eauto].
      transitivity (tr0 ++ maps); [exact Htr|]. unfold tr0.
      by rewrite <- app_assoc.
    + exists (maps ++ [Call_load sig]). split; [|eauto].
      transitivity (tr0 ++ maps ++ [Call_load sig]); [exact Htr|]. unfold tr0.
      by rewrite <- app_assoc.
  - destruct (Hwith RS_other) as (maps & Hmaps & [Htr | [sig Htr]]); [done|..].
    + exists maps. split; [|eauto].
      transitivity (tr0 ++ maps); [exact Htr|]. unfold tr0.
      by rewrite <- app_assoc.
    + exists (maps ++ [Call_load sig]). split; [|eauto].
      transitivity (tr0 ++ maps ++ [Call_load sig]); [exact Htr|]. unfold tr0.
      by rewrite <- app_assoc.
Qed.

End LoadDbProperties.

(** ** A database object handed to [run_ctx] *)

Lemma od_lookup_Forall2 {V W} (P : V → W → Prop) (k : string)
    (d : odict V) (d' : odict W) :
  Forall2 (λ kv kw, kw.1 = kv.1 ∧ P kv.2 kw.2) d d' →
  match od_lookup k d with
  | Some v => ∃ w, od_lookup k d' = Some w ∧ P v w
  | None => od_lookup k d' = None
  end.
Proof.
  induction 1 as [|[k1 v1] [k2 w2] d d' [Hk HP] _ IH]; simpl; [done|].
  simpl in Hk, HP. subst k2. case_decide; [eauto | done].
Qed.

Lemma result_mapM_map {A B} (f : A → result B) (g : A → B) (l : list A) :
  Forall (λ x, f x = inr (g x)) l → result_mapM f l = inr (map g l).
Proof.
  induction 1 as [|x l Hx _ IH]; simpl; [done|]. by rewrite Hx, IH.
Qed.

Lemma elem_of_concat {A} (x : A) (ls : list (list A)) :
  x ∈ concat ls ↔ ∃ l, x ∈ l ∧ l ∈ ls.
Proof.
  induction ls as [|l ls IH]; simpl.
  - split; [by intros ?%elem_of_nil | by intros (l & _ & ?%elem_of_nil)].
  - rewrite elem_of_app, IH. split.
    + intros [Hx | (l' & Hx & Hl')]; [exists l | exists l'];
        (split; [done|]); [left | by right].
    + intros (l' & Hx & [-> | Hl']%elem_of_cons); [by left | right; eauto].
Qed.

(** [t.loc[labels]] on a table whose labels are its [Target] values, for
    labels that are such values: no [KeyError], and the rows selected are
    the rows with a label in the list. *)
Lemma mt_loc_Target (t : MappingTable) (labels : list string) :
  Forall (λ l, l ∈ map mr_label t) labels →
  ∃ rows, mt_loc t labels = inr rows ∧
          ∀ row, row ∈ rows ↔ row ∈ t ∧ mr_label row ∈ labels.
Proof.
  intros Hlabels. unfold mt_loc.
  rewrite (result_mapM_map _ (λ l, filter (λ r, mr_label r = l) t)).
  - simpl. eexists. split; [done|]. intros row.
    rewrite elem_of_concat. split.
    + intros (rows & Hrow & Hrows).
      change (map ?f ?l) with (f <$> l) in Hrows.
      apply list_elem_of_fmap in Hrows as (l & -> & Hl).
      apply list_elem_of_filter in Hrow as [Heq Hrow]. by subst l.
    + intros [Hrow Hl]. exists (filter (λ r, mr_label r = mr_label row) t).
      split; [by apply list_elem_of_filter|].
      change (map ?f ?l) with (f <$> l). apply list_elem_of_fmap. eauto.
  - apply Forall_forall. intros l Hl. rewrite Forall_forall in Hlabels.
    specialize (Hlabels l Hl).
    change (map ?f ?l) with (f <$> l) in Hlabels.
    apply list_elem_of_fmap in Hlabels as (row & -> & Hrow).
    destruct (filter (λ r, mr_label r = mr_label row) t) as [|x rows] eqn:Hf;
      [|done].
    assert (Hin : row ∈ filter (λ r, mr_label r = mr_label row) t)
      by (by apply list_elem_of_filter).
    rewrite Hf in Hin. by apply elem_of_nil in Hin.
Qed.

Lemma set_index_Target_labels (t : MappingTable) :
  map mr_label (set_index_Target t) = map Target (set_index_Target t).
Proof. unfold set_index_Target. by rewrite !map_map. Qed.

Section DatabaseUse.

Context `{Externals}.

Lemma cisTargetDatabase_init_inv (fname : string) (region_sets : region_sets_arg)
    (db_name : option string) (fo : float) (tr tr' : list event)
    (ctx_db : cisTargetDatabase) :
  cisTargetDatabase_init fname region_sets db_name fo tr = (tr', inr ctx_db) →
  load_db fname region_sets db_name fo tr
  = (tr', inr (db_regions_to_db ctx_db, db_rankings ctx_db, total_regions ctx_db)).
Proof.
  unfold cisTargetDatabase_init. intros Hrun.
  apply bind_inv in Hrun as ([[rtd df] total] & tr1 & Hload & Hret).
  by injection Hret as <- <-.
Qed.

(** The mapping of a database object built from a dict of region sets. *)
Lemma cisTargetDatabase_dict_tables (fname : string) (d : odict PyRanges)
    (db_name : option string) (fo : float) (tr tr' : list event)
    (ctx_db : cisTargetDatabase) :
  let nm := match db_name with None => basename fname | Some n => n end in
  cisTargetDatabase_init fname (RS_dict d) db_name fo tr = (tr', inr ctx_db) →
  ∃ db prefix v tables,
    open_FeatherRankingDatabase fname nm = inr db ∧
    split_prefix (genes db) = inr (prefix, v) ∧
    db_regions_to_db ctx_db = RTD_dict tables ∧
    Forall2 (λ kv kt, kt.1 = kv.1 ∧ target_to_query kv.2 v fo = inr kt.2)
            d tables ∧
    ∀ kv, kv ∈ d → Call_target_to_query kv.2 v fo ∈ tr'.
Proof.
  intros nm Hinit. apply cisTargetDatabase_init_inv in Hinit.
  apply load_db_inv in Hinit
    as (db & prefix & v & tr1 & loaded & Hopen & Hpv & Hmap & _ & -> & _);
    [|done].
  exists db, prefix, v. simpl in Hmap.
  apply bind_inv in Hmap as (tables & tr2 & Htables & Hret).
  injection Hret as <- Hrtd _. exists tables.
  apply mapM_target_to_query_tables in Htables as [Hall ->].
  split; [done|]. split; [done|]. split; [done|]. split; [done|].
  intros kv Hkv. rewrite !elem_of_app. left. right.
  change (map ?f ?l) with (f <$> l). apply list_elem_of_fmap. eauto.
Qed.

(** X6: a database object built from a dict of region sets serves the run
    of every name of the dict: the mapping [run_ctx] looks up under
    [self.name] is the table [target_to_query] gave for the region set of
    that name, mapped onto the region keys of the database without their
    prefix. *)
Theorem cisTargetDatabase_dict_resolve (fname : string) (d : odict PyRanges)
    (db_name : option string) (fo : float) (tr tr' : list event)
    (ctx_db : cisTargetDatabase) (self : cisTarget) (rs : PyRanges) :
  let nm := match db_name with None => basename fname | Some n => n end in
  cisTargetDatabase_init fname (RS_dict d) db_name fo tr = (tr', inr ctx_db) →
  od_lookup (name self) d = Some rs →
  ∃ db prefix v t,
    open_FeatherRankingDatabase fname nm = inr db ∧
    split_prefix (genes db) = inr (prefix, v) ∧
    Call_target_to_query rs v fo ∈ tr' ∧
    target_to_query rs v fo = inr t ∧
    resolve_regions_to_db self ctx_db = inr t.
Proof.
  intros nm Hinit Hname.
  destruct (cisTargetDatabase_dict_tables _ _ _ _ _ _ _ Hinit)
    as (db & prefix & v & tables & Hopen & Hpv & Hrtd & Hall & Hcalls).
  pose proof (od_lookup_Forall2
    (λ (r : PyRanges) (t : MappingTable), target_to_query r v fo = inr t)
    (name self) d tables Hall) as Hl.
  rewrite Hname in Hl. destruct Hl as (t & Ht & Hcall).
  exists db, prefix, v, t. split; [done|]. split; [done|]. split; [|split; [done|]].
  - assert (Hin : (name self, rs) ∈ d).
    { clear -Hname. induction d as [|[k1 v1] d IH]; simpl in Hname; [done|].
      case_decide; [|right; auto]. injection Hname as ->. subst k1. left. }
    exact (Hcalls _ Hin).
  - unfold resolve_regions_to_db. by rewrite Hrtd, Ht.
Qed.

(** X7: on a database object built from a single PyRanges, the mapping of
    a run is resolved without [KeyError], whatever the region set of the
    run is: the labels looked up are [Target] values of the table, which
    are its index since line 118.  The rows obtained are exactly the rows of
    the table whose [Target] is a region name of the run's region set. *)
Theorem cisTargetDatabase_table_resolve (fname : string) (r : PyRanges)
    (db_name : option string) (fo : float) (tr tr' : list event)
    (ctx_db : cisTargetDatabase) (self : cisTarget) :
  cisTargetDatabase_init fname (RS_PyRanges r) db_name fo tr = (tr', inr ctx_db) →
  ∃ v t rows,
    target_to_query r v fo = inr t ∧
    db_regions_to_db ctx_db = RTD_table (set_index_Target t) ∧
    resolve_regions_to_db self ctx_db = inr rows ∧
    ∀ row, row ∈ rows ↔
           row ∈ set_index_Target t ∧
           Target row ∈ coord_to_region_names (region_set self).
Proof.
  intros Hinit. apply cisTargetDatabase_init_inv in Hinit.
  apply load_db_inv in Hinit
    as (db & prefix & v & tr1 & loaded & Hopen & Hpv & Hmap & _ & -> & _);
    [|done].
  simpl in Hmap. apply bind_call_inv in Hmap as (t & Ht & Hret).
  injection Hret as _ Hrtd _.
  destruct (mt_loc_Target (set_index_Target t)
              (list_set_inter (coord_to_region_names (region_set self))
                              (map Target (set_index_Target t))))
    as (rows & Hrows & Hmem).
  { apply Forall_forall. intros l Hl.
    apply elem_of_list_set_inter in Hl as [_ Hl].
    by rewrite set_index_Target_labels. }
  exists v, t, rows. split; [done|]. split; [done|]. split.
  { unfold resolve_regions_to_db. by rewrite <- Hrtd. }
  intros row. rewrite Hmem. split.
  - intros [Hrow Hl]. split; [done|].
    apply elem_of_list_set_inter in Hl as [Hl _].
    unfold set_index_Target in Hrow.
    change (map ?f ?l) with (f <$> l) in Hrow.
    apply list_elem_of_fmap in Hrow as (r0 & -> & _). done.
  - intros [Hrow Hl]. split; [done|].
    unfold set_index_Target in Hrow.
    change (map ?f ?l) with (f <$> l) in Hrow.
    pose proof Hrow as Hrow'.
    apply list_elem_of_fmap in Hrow as (r0 & -> & Hr0). simpl in *.
    apply elem_of_list_set_inter. split; [done|].
    change (map ?f ?l) with (f <$> l). apply list_elem_of_fmap.
    eexists. split; [|exact Hrow']. done.
Qed.

(** X8: a database object built without region sets holds no mapping, and
    [run_ctx] on it raises [AttributeError] at its first statement; one
    built from a dict that lacks the name of the run makes [run_ctx] raise
    [KeyError] there.  In both cases no attribute of [self] is set and no
    call is made. *)
Theorem run_ctx_without_mapping (fname : string) (region_sets : region_sets_arg)
    (db_name : option string) (fo : float) (tr tr' : list event)
    (ctx_db : cisTargetDatabase) (σ : RunState) :
  cisTargetDatabase_init fname region_sets db_name fo tr = (tr', inr ctx_db) →
  (region_sets = RS_None → run_ctx ctx_db σ = (σ, inl AttributeError)) ∧
  (∀ d, region_sets = RS_dict d → od_lookup (name (st_self σ)) d = None →
        run_ctx ctx_db σ = (σ, inl KeyError)).
Proof.
  intros Hinit. split.
  - intros ->. apply cisTargetDatabase_init_inv in Hinit.
    assert (Hrtd : db_regions_to_db ctx_db = RTD_None).
    { unfold load_db in Hinit.
      apply bind_call_inv in Hinit as (db & _ & Hinit).
      apply bind_lift_inv in Hinit as (pv & _ & Hinit).
      apply bind_call_inv in Hinit as (full & _ & Hret).
      by injection Hret as _ <- _ _. }
    unfold run_ctx, bind, get_self, lift, resolve_regions_to_db.
    by rewrite Hrtd.
  - intros d -> Hname.
    destruct (cisTargetDatabase_dict_tables _ _ _ _ _ _ _ Hinit)
      as (db & prefix & v & tables & _ & _ & Hrtd & Hall & _).
    pose proof (od_lookup_Forall2
      (λ (r : PyRanges) (t : MappingTable), target_to_query r v fo = inr t)
      (name (st_self σ)) d tables Hall) as Hl.
    rewrite Hname in Hl.
    unfold run_ctx, bind, get_self, lift, resolve_regions_to_db.
    by rewrite Hrtd, Hl.
Qed.

End DatabaseUse.

(** ** The matrix of a run *)

(** The first position of the label [k]. *)
Definition position (labels : list string) (k : string) : option nat :=
  fst <$> list_find (λ l, l = k) labels.

(** The rank a matrix holds for the motif [m] and the region [r], at the
    first row and the first column with these labels. *)
Definition df_at (df : DataFrame) (m r : string) : option Z :=
  match position (df_index df) m, position (df_columns df) r with
  | Some i, Some j => Some (nth j (nth i (df_values df) []) 0)
  | _, _ => None
  end.

Lemma position_Some (labels : list string) (k : string) (p : nat) :
  position labels k = Some p → labels !! p = Some k.
Proof.
  unfold position. destruct (list_find _ labels) as [[i l]|] eqn:Hf; [|done].
  intros [= <-]. apply list_find_Some in Hf as (Hl & -> & _). done.
Qed.

Lemma position_elem_of (labels : list string) (k : string) :
  k ∈ labels → ∃ p, position labels k = Some p.
Proof.
  intros Hk. unfold position.
  destruct (list_find_elem_of (λ l, l = k) labels k Hk eq_refl) as [[i l] ->].
  by exists i.
Qed.

Lemma get_indexer_spec (labels keys : list string) :
  match get_indexer labels keys with
  | inr ps => Forall2 (λ k p, position labels k = Some p) keys ps
  | inl e => e = KeyError ∧ ∃ k, k ∈ keys ∧ k ∉ labels
  end.
Proof.
  unfold get_indexer.
  destruct (result_mapM _ keys) as [e|ps] eqn:Hm.
  - apply result_mapM_inl in Hm as (k & Hk & Hf).
    destruct (list_find (λ l, l = k) labels) as [[i l]|] eqn:Hfind; [done|].
    injection Hf as <-. split; [done|]. exists k. split; [done|].
    apply list_find_None in Hfind. rewrite Forall_forall in Hfind.
    intros Hin. by apply (Hfind k).
  - apply result_mapM_inr in Hm. eapply Forall2_impl; [exact Hm|].
    simpl. intros k p Hkp. unfold position.
    destruct (list_find (λ l, l = k) labels) as [[i l]|]; [|done].
    by injection Hkp as ->.
Qed.

Lemma get_indexer_nth (labels keys : list string) (ps : list nat)
    (k : string) (j : nat) :
  Forall2 (λ k p, position labels k = Some p) keys ps →
  position keys k = Some j →
  (j < length ps)%nat ∧ position labels k = Some (nth j ps 0%nat).
Proof.
  intros Hall Hj. apply position_Some in Hj.
  destruct (Forall2_lookup_l _ _ _ _ _ Hall Hj) as (p & Hp & Hk).
  split; [by eapply lookup_lt_Some|]. by rewrite nth_lookup, Hp.
Qed.

Lemma nth_take (ps : list nat) (row : list Z) (j : nat) :
  (j < length ps)%nat → nth j (take 0 ps row) 0 = nth (nth j ps 0%nat) row 0.
Proof.
  intros Hj. unfold take.
  rewrite (nth_indep _ 0 (nth 0%nat row 0)) by (by rewrite length_map).
  apply (map_nth (λ p, nth p row 0)).
Qed.

Lemma nth_map_take (ps : list nat) (V : list (list Z)) (i j : nat) :
  (j < length ps)%nat →
  nth j (nth i (map (take 0 ps) V) []) 0 = nth (nth j ps 0%nat) (nth i V []) 0.
Proof.
  intros Hj. destruct (decide (i < length V)%nat) as [Hi|Hi].
  - rewrite (nth_indep _ [] (take 0 ps [])) by (by rewrite length_map).
    rewrite (map_nth (take 0 ps)). by apply nth_take.
  - rewrite !(nth_overflow _ []) by (rewrite ?length_map; lia).
    destruct j, (nth _ ps 0%nat); done.
Qed.

Lemma nth_take_rows (rs : list nat) (V : list (list Z)) (i : nat) :
  (i < length rs)%nat → nth i (take [] rs V) [] = nth (nth i rs 0%nat) V [].
Proof.
  intros Hi. unfold take.
  rewrite (nth_indep _ [] (nth 0%nat V [])) by (by rewrite length_map).
  apply (map_nth (λ p, nth p V [])).
Qed.

Section Matrix.

Context `{Externals}.

(** The outcome of taking the rankings of a run: a matrix when every region
    is a column of the database rankings, [KeyError] otherwise. *)
Lemma subset_rankings_outcome (self : cisTarget) (ctx_db : cisTargetDatabase)
    (regions : list string) :
  match subset_rankings self ctx_db regions with
  | inr d => Forall (λ r, r ∈ df_columns (db_rankings ctx_db)) regions
  | inl e => e = KeyError ∧
             ∃ r, r ∈ regions ∧ r ∉ df_columns (db_rankings ctx_db)
  end.
Proof.
  unfold subset_rankings, df_loc, df_getitem.
  pose proof (get_indexer_spec (df_columns (db_rankings ctx_db)) regions) as Hps.
  assert (Hcols : ∀ ps,
    Forall2 (λ k p, position (df_columns (db_rankings ctx_db)) k = Some p)
            regions ps →
    Forall (λ r, r ∈ df_columns (db_rankings ctx_db)) regions).
  { intros ps Hall. apply Forall_forall. intros r Hr.
    apply list_elem_of_lookup in Hr as [j Hj].
    destruct (Forall2_lookup_l _ _ _ _ _ Hall Hj) as (p & _ & Hp).
    apply position_Some in Hp. by eapply list_elem_of_lookup_2. }
  destruct (motifs_to_use self) as [ms|].
  - pose proof (get_indexer_spec (df_index (db_rankings ctx_db))
      (list_set_inter ms (df_index (db_rankings ctx_db)))) as Hrows.
    destruct (get_indexer (df_index (db_rankings ctx_db)) _) as [e|rs].
    { destruct Hrows as (_ & k & Hk & Hnk).
      by apply elem_of_list_set_inter in Hk as [_ ?]. }
    destruct (get_indexer (df_columns (db_rankings ctx_db)) regions)
      as [e|ps]; [done | by eapply Hcols].
  - destruct (get_indexer (df_columns (db_rankings ctx_db)) regions)
      as [e|ps]; [done | by eapply Hcols].
Qed.

(** X9: the matrix of a run.  Taking the rankings of the motifs and regions
    of the run raises [KeyError] exactly when a region is no column of the
    database rankings; a motif of [motifs_to_use] that the database does not
    hold is left out without an exception.  Otherwise the columns are the
    regions in their order, the rows are the motifs of the database (those
    of [motifs_to_use] when it is given), every row holds one rank for each
    region, and the rank of a motif for a region is the one of the
    database. *)
Theorem subset_rankings_spec (self : cisTarget) (ctx_db : cisTargetDatabase)
    (regions : list string) :
  let db := db_rankings ctx_db in
  match subset_rankings self ctx_db regions with
  | inr d =>
      Forall (λ r, r ∈ df_columns db) regions ∧
      df_columns d = regions ∧
      (∀ m, m ∈ df_index d ↔
            m ∈ df_index db ∧ ∀ ms, motifs_to_use self = Some ms → m ∈ ms) ∧
      Forall (λ row, length row = length regions) (df_values d) ∧
      (∀ m r, m ∈ df_index d → r ∈ regions → df_at d m r = df_at db m r)
  | inl e => e = KeyError ∧ ∃ r, r ∈ regions ∧ r ∉ df_columns db
  end.
Proof.
  intros db. unfold subset_rankings. fold db.
  assert (Hcols : ∀ ps, Forall2 (λ k p, position (df_columns db) k = Some p)
                                regions ps →
                        Forall (λ r, r ∈ df_columns db) regions).
  { intros ps Hall. apply Forall_forall. intros r Hr.
    apply list_elem_of_lookup in Hr as [j Hj].
    destruct (Forall2_lookup_l _ _ _ _ _ Hall Hj) as (p & _ & Hp).
    apply position_Some in Hp. by eapply list_elem_of_lookup_2. }
  assert (Hwidth : ∀ ps (V : list (list Z)), length ps = length regions →
            Forall (λ row, length row = length regions) (map (take 0 ps) V)).
  { intros ps V Hlen. apply Forall_forall. intros row Hrow.
    change (map ?f ?l) with (f <$> l) in Hrow.
    apply list_elem_of_fmap in Hrow as (row' & -> & _).
    unfold take. by rewrite length_map. }
  destruct (motifs_to_use self) as [ms|].
  - unfold df_loc.
    pose proof (get_indexer_spec (df_index db)
                  (list_set_inter ms (df_index db))) as Hrows.
    destruct (get_indexer (df_index db) (list_set_inter ms (df_index db)))
      as [e|rs].
    { destruct Hrows as (_ & k & Hk & Hnk).
      by apply elem_of_list_set_inter in Hk as [_ ?]. }
    pose proof (get_indexer_spec (df_columns db) regions) as Hps.
    destruct (get_indexer (df_columns db) regions) as [e|ps]; [done|].
    cbn [df_index df_columns df_values].
    split; [by eapply Hcols|]. split; [done|]. split; [|split].
    + intros m. rewrite elem_of_list_set_inter. split.
      * intros [Hms Hm]. split; [done|]. by intros ms' [= <-].
      * intros [Hm Hms]. split; [by apply Hms | done].
    + apply Hwidth. symmetry. by eapply Forall2_length.
    + intros m r Hm Hr. unfold df_at. cbn [df_index df_columns df_values].
      destruct (position_elem_of _ _ Hm) as [i Hi].
      destruct (position_elem_of _ _ Hr) as [j Hj].
      rewrite Hi, Hj.
      destruct (get_indexer_nth _ _ _ _ _ Hrows Hi) as [Hilt ->].
      destruct (get_indexer_nth _ _ _ _ _ Hps Hj) as [Hjlt ->].
      f_equal. rewrite nth_map_take by done. by rewrite nth_take_rows.
  - unfold df_getitem.
    pose proof (get_indexer_spec (df_columns db) regions) as Hps.
    destruct (get_indexer (df_columns db) regions) as [e|ps]; [done|].
    cbn [df_index df_columns df_values].
    split; [by eapply Hcols|]. split; [done|]. split; [|split].
    + intros m. split; [by intros ?; split | by intros [? _]].
    + apply Hwidth. symmetry. by eapply Forall2_length.
    + intros m r Hm Hr. unfold df_at. cbn [df_index df_columns df_values].
      destruct (position_elem_of _ _ Hm) as [i Hi].
      destruct (position_elem_of _ _ Hr) as [j Hj].
      rewrite Hi, Hj.
      destruct (get_indexer_nth _ _ _ _ _ Hps Hj) as [Hjlt ->].
      f_equal. by rewrite nth_map_take.
Qed.

(** X10: when the mapping of the run reaches a region that is no column of
    the database rankings, [run_ctx] raises [KeyError]: the mapping has been
    stored in [self.regions_to_db], and nothing else has been set or
    called. *)
Theorem run_ctx_region_not_in_database (ctx_db : cisTargetDatabase)
    (σ : RunState) (mapping : MappingTable) (sig : Signature) (r : string) :
  let self := st_self σ in
  resolve_regions_to_db self ctx_db = inr mapping →
  region_sets_to_signature (map Query mapping) (name self) = inr sig →
  r ∈ sig_genes sig →
  r ∉ df_columns (db_rankings ctx_db) →
  run_ctx ctx_db σ
  = ({| st_self := set_regions_to_db mapping self; st_trace := st_trace σ |},
     inl KeyError).
Proof.
  intros self Hmap Hsig Hr Hnr.
  pose proof (subset_rankings_outcome self ctx_db (sig_genes sig)) as Hsub.
  unfold run_ctx, bind, get_self, lift, update_self, modify. fold self.
  rewrite Hmap. cbv beta iota. cbn [st_self name set_regions_to_db].
  fold self. rewrite Hsig.
  destruct (subset_rankings self ctx_db (sig_genes sig)) as [e|d].
  - by destruct Hsub as [-> _].
  - rewrite Forall_forall in Hsub. by specialize (Hsub r Hr).
Qed.

End Matrix.

(** ** What a run leaves untouched *)

(** The attributes [run_ctx] reads and never assigns, and the three it
    assigns as results. *)
Definition settings (self : cisTarget)
  : PyRanges * string * float * float * float * option (list string) :=
  (region_set self, name self, auc_threshold self, nes_threshold self,
   rank_threshold self, motifs_to_use self).

Definition results (self : cisTarget)
  : option MotifEnrichment * option HitIndex * option HitIndex :=
  (motif_enrichment self, motif_hits self, cistromes self).

(** A computation keeps [f] when the value of [f] on [self] is the same
    after it, whatever its outcome. *)
Definition keeps {A B} (f : cisTarget → B) (m : M RunState A) : Prop :=
  ∀ σ, f (st_self (m σ).1) = f (st_self σ).

Lemma keeps_self {A B} (f : cisTarget → B) (m : M RunState A) :
  (∀ σ, st_self (m σ).1 = st_self σ) → keeps f m.
Proof. intros Hm σ. by rewrite Hm. Qed.

Lemma keeps_ret {A B} (f : cisTarget → B) (a : A) : keeps f (ret a).
Proof. by apply keeps_self. Qed.

Lemma keeps_lift {A B} (f : cisTarget → B) (r : result A) : keeps f (lift r).
Proof. by apply keeps_self. Qed.

Lemma keeps_call {A B} (f : cisTarget → B) ev (r : result A) :
  keeps f (call ev r).
Proof. by apply keeps_self. Qed.

Lemma keeps_update_self {B} (f : cisTarget → B) (g : cisTarget → cisTarget) :
  (∀ s, f (g s) = f s) → keeps f (update_self g).
Proof. intros Hg σ. apply Hg. Qed.

Lemma keeps_bind {A B C} (f : cisTarget → C) (m : M RunState A)
    (k : A → M RunState B) :
  keeps f m → (∀ a, keeps f (k a)) → keeps f (x <- m ;; k x).
Proof.
  intros Hm Hk σ. unfold bind. specialize (Hm σ).
  destruct (m σ) as [σ1 [e|a]]; simpl in Hm; [done|].
  by rewrite (Hk a σ1).
Qed.

Lemma keeps_mapM {A B C} (f : cisTarget → C) (g : A → M RunState B)
    (l : list A) :
  (∀ x, keeps f (g x)) → keeps f (mapM g l).
Proof.
  intros Hg. induction l as [|x l IH]; simpl; [apply keeps_ret|].
  apply keeps_bind; [done|]. intros y.
  apply keeps_bind; [done|]. intros ys. apply keeps_ret.
Qed.

Section Untouched.

Context `{Externals}.

(** Up to the sort, [self] is not assigned. *)
Lemma keeps_enriched_rows {B} (f : cisTarget → B) self ctx_db sig regions d
    weights aucs ness idx :
  keeps f (enriched_rows self ctx_db sig regions d weights aucs ness idx).
Proof.
  unfold enriched_rows.
  do 3 (apply keeps_bind; [apply keeps_lift|]; intros ?).
  apply keeps_bind; [apply keeps_call|]; intros rccs.
  do 6 (apply keeps_bind; [apply keeps_lift|]; intros ?).
  apply keeps_mapM. intros [[[[m nes] auc] rcc] rk]. unfold leading_edge_row.
  apply keeps_bind; [apply keeps_call|]. intros le. apply keeps_ret.
Qed.

Lemma keeps_finish {B} (f : cisTarget → B) (rows : list EnrichedRow) :
  (∀ t s, f (set_motif_enrichment t s) = f s) →
  (∀ h s, f (set_motif_hits h s) = f s) →
  (∀ c s, f (set_cistromes c s) = f s) →
  keeps f (finish rows).
Proof.
  intros Hme Hmh Hc. unfold finish.
  apply keeps_bind; [by apply keeps_update_self|]; intros _.
  apply keeps_bind; [by apply keeps_self|]; intros s1.
  apply keeps_bind; [apply keeps_call|]; intros annotated.
  apply keeps_bind; [by apply keeps_update_self|]; intros _.
  apply keeps_bind; [by apply keeps_self|]; intros s2.
  apply keeps_bind; [apply keeps_lift|]; intros mapping.
  apply keeps_bind; [by apply keeps_update_self|]; intros _.
  apply keeps_bind; [by apply keeps_self|]; intros s3.
  apply keeps_bind; [apply keeps_lift|]; intros t0.
  apply keeps_bind; [apply keeps_lift|]; intros t1.
  apply keeps_bind; [by apply keeps_update_self|]; intros _.
  apply keeps_bind; [by apply keeps_self|]; intros s4.
  apply keeps_bind; [apply keeps_call|]; intros c.
  by apply keeps_update_self.
Qed.

Lemma keeps_terminate_not_enriched {B} (f : cisTarget → B) :
  (∀ t s, f (set_motif_enrichment t s) = f s) →
  (∀ h s, f (set_motif_hits h s) = f s) →
  (∀ c s, f (set_cistromes c s) = f s) →
  keeps f terminate_not_enriched.
Proof.
  intros Hme Hmh Hc. unfold terminate_not_enriched.
  apply keeps_bind; [by apply keeps_update_self|]; intros _.
  apply keeps_bind; [by apply keeps_update_self|]; intros _.
  by apply keeps_update_self.
Qed.

(** X11: whatever its outcome, [run_ctx] leaves the region set, the name,
    the three thresholds and [motifs_to_use] of [self] as they were.  When
    the mapping of the run cannot be resolved it raises with [self]
    untouched; once it is resolved, [self.regions_to_db] holds it at the end
    of the run, even of a run that raises later. *)
Theorem run_ctx_keeps_settings (ctx_db : cisTargetDatabase) (σ : RunState) :
  let σ' := (run_ctx ctx_db σ).1 in
  settings (st_self σ') = settings (st_self σ) ∧
  match resolve_regions_to_db (st_self σ) ctx_db with
  | inr mapping => regions_to_db (st_self σ') = Some mapping
  | inl e => run_ctx ctx_db σ = (σ, inl e)
  end.
Proof.
  intros σ'. subst σ'. unfold run_ctx.
  rewrite bind_get_self, bind_lift_eq.
  destruct (resolve_regions_to_db (st_self σ) ctx_db) as [e|mapping]; [done|].
  rewrite bind_update_self.
  match goal with
  | |- context [st_self (?m ?st).1] =>
      assert (Hm : keeps (λ self, (settings self, regions_to_db self)) m)
  end.
  { apply keeps_bind; [apply keeps_lift|]; intros sig.
    apply keeps_bind; [apply keeps_lift|]; intros d.
    apply keeps_bind; [apply keeps_call|]; intros aucs.
    case_decide.
    - by apply keeps_terminate_not_enriched.
    - apply keeps_bind; [apply keeps_enriched_rows|]. intros rows.
      by apply keeps_finish. }
  match goal with
  | |- context [st_self (?m ?st).1] => specialize (Hm st)
  end.
  cbn [st_self] in Hm.
  pose proof (f_equal fst Hm) as Hs. pose proof (f_equal snd Hm) as Hr.
  cbn [fst snd] in Hs, Hr. by rewrite Hs, Hr.
Qed.

(** The first call of [finish] is the annotation. *)
Lemma finish_first_call (rows : list EnrichedRow) (σ : RunState) :
  ∃ s evs, st_trace (finish rows σ).1
           = st_trace σ ++ Call_add_motif_annotation s :: evs.
Proof.
  unfold finish. rewrite bind_update_self, bind_get_self.
  unfold bind at 1, call at 1.
  destruct (add_motif_annotation _) as [e|annotated].
  { eexists _, []. done. }
  match goal with
  | |- context [st_trace (?m ?st).1] => assert (Hm : emits (λ _, True) m)
  end.
  { apply emits_bind_update_self, emits_bind_get_self; intros s2.
    apply emits_bind_lift; intros mapping _.
    apply emits_bind_update_self, emits_bind_get_self; intros s3.
    apply emits_bind_lift; intros t0 _.
    apply emits_bind_lift; intros t1 _.
    apply emits_bind_update_self, emits_bind_get_self; intros s4.
    apply emits_bind_call; [done|]; intros c _.
    apply emits_update_self. }
  match goal with
  | |- context [st_trace (?m ?st).1] => destruct (Hm st) as (evs & -> & _)
  end.
  eexists _, evs. simpl. by rewrite <- app_assoc.
Qed.

(** X12: the results of a run are assigned late.  Unless [run_ctx] returns
    normally or has got as far as calling [add_motif_annotation], it leaves
    [motif_enrichment], [motif_hits] and [cistromes] of [self] as they were:
    a run that raises before the annotation keeps the results of an earlier
    run in place. *)
Theorem run_ctx_results_on_failure (ctx_db : cisTargetDatabase) (σ : RunState) :
  let out := run_ctx ctx_db σ in
  out.2 = inr tt ∨
  (∃ s evs evs', st_trace out.1
                 = st_trace σ ++ evs ++ Call_add_motif_annotation s :: evs') ∨
  results (st_self out.1) = results (st_self σ).
Proof.
  intros out. subst out. unfold run_ctx.
  rewrite bind_get_self, bind_lift_eq.
  destruct (resolve_regions_to_db (st_self σ) ctx_db) as [e|mapping];
    [by right; right|].
  rewrite bind_update_self, bind_lift_eq.
  destruct (region_sets_to_signature _ _) as [e|sig]; [by right; right|].
  rewrite bind_lift_eq.
  destruct (subset_rankings _ _ _) as [e|d]; [by right; right|].
  rewrite bind_call_eq.
  destruct (calc_aucs _ _ _ _) as [e|aucs]; [by right; right|].
  case_decide; [by left|].
  rewrite bind_eq.
  match goal with
  | |- context [enriched_rows ?a ?b ?c ?e ?f ?g ?h ?i ?j ?st] =>
      pose proof (keeps_enriched_rows (λ self, self) a b c e f g h i j st)
        as Hself;
      destruct (emits_enriched_rows (λ _, True) a b c e f g h i j
                  (λ _, I) (λ _ _ _ _ _ _, I) st) as (evs & Htr & _);
      destruct (enriched_rows a b c e f g h i j st) as [σ1 [e'|rows]]
  end; cbn [fst snd st_self st_trace] in *.
  - right. right. by rewrite Hself.
  - right. left. destruct (finish_first_call rows σ1) as (s & evs' & ->).
    rewrite Htr. exists s, (Call_calc_aucs d (total_regions ctx_db)
      (repeat Float.one (length (sig_genes sig)))
      (auc_threshold (st_self σ)) :: evs), evs'.
    unfold record, run_state_traced. cbn [st_trace].
    by rewrite <- !app_assoc.
Qed.

(** What a successful [enriched_rows] needs: a region, and a rank cutoff of
    at least one. *)
Lemma enriched_rows_needs self ctx_db sig regions d weights aucs ness idx
    σ σ' rows :
  enriched_rows self ctx_db sig regions d weights aucs ness idx σ
  = (σ', inr rows) →
  regions ≠ [] ∧
  ∃ cutoff, result_bind (Float.mul_int (rank_threshold self)
                                       (total_regions ctx_db)) Float.to_int
            = inr cutoff ∧ 0 < cutoff.
Proof.
  unfold enriched_rows. intros Hrun.
  apply bind_lift_inv in Hrun as (features_e & _ & Hrun).
  apply bind_lift_inv in Hrun as (product & Hprod & Hrun).
  apply bind_lift_inv in Hrun as (cutoff & Hcut & Hrun).
  apply bind_call_inv in Hrun as (rccs & _ & Hrun).
  apply bind_lift_inv in Hrun as (rccs_e & _ & Hrun).
  apply bind_lift_inv in Hrun as (rankings_e & _ & Hrun).
  apply bind_lift_inv in Hrun as ([] & Hregions & Hrun).
  apply bind_lift_inv in Hrun as ([] & _ & Hrun).
  apply bind_lift_inv in Hrun as ([] & Hranks & _).
  unfold multiindex_from_tuples in Hregions, Hranks.
  repeat case_decide; try done. split.
  - intros ->. done.
  - exists cutoff. rewrite Hprod. simpl. split; [done | lia].
Qed.

(** X13: when a motif is enriched but the run has no region, or the rank
    cutoff [int(rank_threshold * total_regions)] is not positive, [run_ctx]
    cannot complete: the tables of line 382 and of line 385 need at least
    one column label, and [run_ctx] raises. *)
Theorem run_ctx_no_rank_to_recover (ctx_db : cisTargetDatabase) (σ : RunState)
    (mapping : MappingTable) (sig : Signature) (d : DataFrame)
    (aucs : list float) :
  let self := st_self σ in
  let regions := sig_genes sig in
  let weights := repeat Float.one (length regions) in
  let idx := enriched_features_idx (compute_ness aucs) (nes_threshold self) in
  resolve_regions_to_db self ctx_db = inr mapping →
  region_sets_to_signature (map Query mapping) (name self) = inr sig →
  subset_rankings self ctx_db regions = inr d →
  calc_aucs d (total_regions ctx_db) weights (auc_threshold self) = inr aucs →
  py_sum idx ≠ 0%nat →
  (regions = [] ∨
   ∃ cutoff, result_bind (Float.mul_int (rank_threshold self)
                                        (total_regions ctx_db)) Float.to_int
             = inr cutoff ∧ cutoff ≤ 0) →
  ∃ e, (run_ctx ctx_db σ).2 = inl e.
Proof.
  intros self regions weights idx Hmap Hsig Hsub Haucs Hnz Hnone.
  rewrite (run_ctx_scored ctx_db σ mapping sig d aucs Hmap Hsig Hsub Haucs).
  fold self regions weights idx. rewrite decide_False by done.
  match goal with
  | |- ∃ e, (?m ?st).2 = inl e => destruct (m st) as [σ' [e|[]]] eqn:Hrun
  end;
    [by exists e|].
  exfalso. apply bind_inv in Hrun as (rows & σ1 & Hrows & _).
  apply enriched_rows_needs in Hrows as (Hregions & cutoff & Hcut & Hpos).
  destruct Hnone as [Hnone | (cutoff' & Hcut' & Hneg)]; [done|].
  fold self in Hcut. rewrite Hcut in Hcut'. injection Hcut' as <-. lia.
Qed.

End Untouched.

(** ** The order of the motifs in the results *)

Lemma od_keys_map {V} (f : string → V) (keys : list string) :
  od_keys (map (λ k, (k, f k)) keys) = keys.
Proof. unfold od_keys. rewrite map_map. simpl. apply map_id. Qed.

Lemma me_motif_zip_with (rows : list MERow) (counts : list nat) :
  length counts = length rows →
  map me_motif (zip_with with_Motif_hits rows counts) = map me_motif rows.
Proof.
  revert counts. induction rows as [|r rows IH]; intros [|n counts] Hlen;
    simpl in *; try done. rewrite IH; [done | lia].
Qed.

Section MotifOrder.

Context `{Externals}.

Variables (ctx_db : cisTargetDatabase) (σ : RunState).
Variables (mapping : MappingTable) (sig : Signature).
Variables (d : DataFrame) (aucs : list float).

Let self := st_self σ.
Let regions := sig_genes sig.
Let weights := repeat Float.one (length regions).
Let idx := enriched_features_idx (compute_ness aucs) (nes_threshold self).

Hypothesis Hmapping : resolve_regions_to_db self ctx_db = inr mapping.
Hypothesis Hsig :
  region_sets_to_signature (map Query mapping) (name self) = inr sig.
Hypothesis Hsubset : subset_rankings self ctx_db regions = inr d.
Hypothesis Haucs :
  calc_aucs d (total_regions ctx_db) weights (auc_threshold self) = inr aucs.

(** X14: after a successful run, [motif_hits['Database']] and
    [motif_hits['Region_set']] list the same motifs in the same order, each
    motif once, and this order is the order of the rows of
    [motif_enrichment]. *)
Theorem run_ctx_motif_order (σ' : RunState) :
  NoDup (df_index (db_rankings ctx_db)) →
  sort_permutes →
  annotation_keeps_index →
  run_ctx ctx_db σ = (σ', inr tt) →
  ∃ hits db rs table,
    motif_hits (st_self σ') = Some hits ∧
    hits !! "Database"%string = Some db ∧
    hits !! "Region_set"%string = Some rs ∧
    motif_enrichment (st_self σ') = Some table ∧
    NoDup (od_keys db) ∧
    od_keys rs = od_keys db ∧
    map me_motif (me_rows table) = od_keys db.
Proof using Hmapping Hsig Hsubset Haucs.
  intros Hindex Hperm Hkeep Hrun.
  destruct (decide (py_sum idx = 0%nat)) as [Hz|Hnz].
  - rewrite (run_ctx_early _ _ _ _ _ _ Hmapping Hsig Hsubset Haucs Hz) in Hrun.
    injection Hrun as <-.
    exists empty_hit_index, [], [], empty_motif_enrichment.
    split; [done|]. split; [apply empty_hit_index_Database|].
    split; [apply empty_hit_index_Region_set|].
    split; [done|]. split; [constructor|]. done.
  - destruct (run_ctx_enriched_inv _ _ _ _ _ _ Hmapping Hsig Hsubset Haucs σ' Hnz Hrun)
      as (product & cutoff & rccs & rows & annotated & table & c & HF & _ & _
          & _ & HR & HK & _ & Hle & Hann & Htab & _ & ->).
    set (sorted := sort_values_NES_desc rows) in *.
    set (db := db_motif_hits_of sorted) in *.
    assert (Hnd : NoDup (map r_motif sorted)).
    { eapply NoDup_Permutation_proper; [apply Permutation_map, Hperm|].
      rewrite (enriched_rows_motifs _ _ _ _ _ _ _ _ _ HF HR HK Hle).
      eapply sublist_NoDup; [|apply compress_sublist].
      by apply (subset_rankings_NoDup ctx_db σ sig d Hsubset). }
    assert (Hkeys : od_keys db = map r_motif sorted).
    { unfold db, db_motif_hits_of. rewrite od_comprehension_NoDup by done.
      apply od_keys_map. }
    exists (<["Database"%string := db]>
            (<["Region_set"%string := rs_motif_hits_of mapping db]> ∅)),
      db, (rs_motif_hits_of mapping db), table.
    split; [done|]. split; [apply lookup_insert_eq|].
    split; [rewrite lookup_insert_ne by done; apply lookup_insert_eq|].
    split; [done|]. split; [by rewrite Hkeys|]. split.
    + unfold rs_motif_hits_of.
      rewrite od_comprehension_NoDup by (by rewrite Hkeys).
      apply od_keys_map.
    + unfold set_Motif_hits_column in Htab. case_decide; [|done].
      injection Htab as <-. cbn [me_rows].
      rewrite me_motif_zip_with by done. rewrite Hkeys.
      rewrite (Hkeep (set_motif_enrichment (motif_enrichment_of sorted)
                        (set_regions_to_db mapping self))
                     (motif_enrichment_of sorted) annotated eq_refl Hann).
      simpl. by rewrite map_map.
Qed.

End MotifOrder.

(** ** The order of the calls of a run *)

(** The steps of [run_ctx] that call a collaborator, in the order of the
    source: the AUCs (line 324), the recovery curves (line 372), the leading
    edges (line 390), the annotation (line 401), the cistromes (line 415). *)
Inductive step_kind : Type :=
| AUC_step
| Recovery_step
| Leading_edge_step
| Annotation_step
| Cistromes_step
| Database_step.

Definition kind_of (ev : event) : step_kind :=
  match ev with
  | Call_calc_aucs _ _ _ _ => AUC_step
  | Call_recovery _ _ _ _ _ _ => Recovery_step
  | Call_leading_edge4row _ _ _ _ _ _ => Leading_edge_step
  | Call_add_motif_annotation _ => Annotation_step
  | Call_get_cistromes _ => Cistromes_step
  | _ => Database_step
  end.

Section CallOrder.

Context `{Externals}.

(** The calls of [enriched_rows], in all outcomes: none, or the recovery
    followed by leading edges. *)
Lemma enriched_rows_calls self ctx_db sig regions d weights aucs ness idx σ :
  ∃ evs,
    st_trace (enriched_rows self ctx_db sig regions d weights aucs ness idx σ).1
    = st_trace σ ++ evs ∧
    (evs = [] ∨
     ∃ rec les, kind_of rec = Recovery_step ∧
                Forall (λ ev, kind_of ev = Leading_edge_step) les ∧
                evs = rec :: les).
Proof.
  unfold enriched_rows.
  rewrite bind_lift_eq. destruct (bool_index _ _) as [e|features_e];
    [exists []; split; [by rewrite app_nil_r | by left]|].
  rewrite bind_lift_eq. destruct (Float.mul_int _ _) as [e|product];
    [exists []; split; [by rewrite app_nil_r | by left]|].
  rewrite bind_lift_eq. destruct (Float.to_int _) as [e|cutoff];
    [exists []; split; [by rewrite app_nil_r | by left]|].
  rewrite bind_call_eq.
  destruct (recovery _ _ _ _ _ _) as [e|rccs].
  { eexists [_]. split; [done|]. right. eexists _, []. by repeat split. }
  match goal with
  | |- context [st_trace (?m ?st).1] =>
      assert (Hm : emits (λ ev, kind_of ev = Leading_edge_step) m)
  end.
  { do 6 (apply emits_bind_lift; intros ? _).
    apply emits_mapM. intros [[[[m nes] auc] rcc] rk]. unfold leading_edge_row.
    apply emits_bind_call; [done|]. intros le _. apply emits_ret. }
  match goal with
  | |- context [st_trace (?m ?st).1] => destruct (Hm st) as (les & -> & Hles)
  end.
  eexists (_ :: les). split.
  - unfold record, run_state_traced. cbn [st_trace]. by rewrite <- app_assoc.
  - right. eexists _, les. by repeat split.
Qed.

(** The calls of [finish], in all outcomes: the annotation, then at most the
    cistromes. *)
Lemma finish_calls (rows : list EnrichedRow) (σ : RunState) :
  ∃ ann, kind_of ann = Annotation_step ∧
    (st_trace (finish rows σ).1 = st_trace σ ++ [ann] ∨
     ∃ cis, kind_of cis = Cistromes_step ∧
            st_trace (finish rows σ).1 = st_trace σ ++ [ann; cis]).
Proof.
  unfold finish. rewrite bind_update_self, bind_get_self, bind_call_eq.
  match goal with
  | |- context [Call_add_motif_annotation ?s] =>
      exists (Call_add_motif_annotation s)
  end.
  split; [reflexivity|].
  destruct (add_motif_annotation _) as [e|annotated]; [by left|].
  rewrite bind_update_self, bind_get_self, bind_lift_eq.
  unfold record, run_state_traced.
  cbn [st_self st_trace regions_to_db set_motif_enrichment].
  destruct (regions_to_db (st_self σ)) as [mapping|]; [|by left].
  rewrite bind_update_self, bind_get_self, bind_lift_eq.
  cbn [st_self motif_enrichment set_motif_hits set_motif_enrichment].
  rewrite bind_lift_eq.
  destruct (set_Motif_hits_column _ _) as [e|table]; [by left|].
  rewrite bind_update_self, bind_get_self, bind_call_eq.
  right.
  match goal with
  | |- context [Call_get_cistromes ?s] => exists (Call_get_cistromes s)
  end.
  split; [reflexivity|].
  destruct (get_cistromes _) as [e|c]; cbn; by rewrite <- app_assoc.
Qed.

(** X15: the calls made by a run, complete or not, are an initial segment
    of the sequence: AUCs, recovery curves, leading edges, annotation,
    cistromes.  So no curve is computed before the AUCs are known, nothing
    is annotated before the leading edges are done, each of the four single
    steps is called at most once, and [run_ctx] never opens or loads a
    database. *)
Theorem run_ctx_call_order (ctx_db : cisTargetDatabase) (σ : RunState) :
  ∃ evs aucs rec les ann cis,
    st_trace (run_ctx ctx_db σ).1 = st_trace σ ++ evs ∧
    kind_of aucs = AUC_step ∧
    kind_of rec = Recovery_step ∧
    Forall (λ ev, kind_of ev = Leading_edge_step) les ∧
    kind_of ann = Annotation_step ∧
    kind_of cis = Cistromes_step ∧
    evs `prefix_of` aucs :: rec :: les ++ [ann; cis].
Proof.
  pose (none_aucs := Call_calc_aucs (db_rankings ctx_db) 0 [] Float.one).
  pose (none_rec := Call_recovery (db_rankings ctx_db) 0 [] 0 Float.one true).
  pose (none_ann := Call_add_motif_annotation (st_self σ)).
  pose (none_cis := Call_get_cistromes (st_self σ)).
  unfold run_ctx.
  rewrite bind_get_self, bind_lift_eq.
  destruct (resolve_regions_to_db (st_self σ) ctx_db) as [e|mapping].
  { exists [], none_aucs, none_rec, [], none_ann, none_cis.
    split; [by rewrite app_nil_r|]. repeat split; try done.
    apply prefix_nil. }
  rewrite bind_update_self, bind_lift_eq.
  destruct (region_sets_to_signature _ _) as [e|sig].
  { exists [], none_aucs, none_rec, [], none_ann, none_cis.
    split; [by rewrite app_nil_r|]. repeat split; try done.
    apply prefix_nil. }
  rewrite bind_lift_eq.
  destruct (subset_rankings _ _ _) as [e|d].
  { exists [], none_aucs, none_rec, [], none_ann, none_cis.
    split; [by rewrite app_nil_r|]. repeat split; try done.
    apply prefix_nil. }
  rewrite bind_call_eq.
  match goal with
  | |- context [Call_calc_aucs ?a ?b ?c ?e] =>
      set (ev_aucs := Call_calc_aucs a b c e)
  end.
  destruct (calc_aucs _ _ _ _) as [e|aucs].
  { exists [ev_aucs], ev_aucs, none_rec, [], none_ann, none_cis.
    repeat split; try done. by eexists. }
  case_decide.
  { exists [ev_aucs], ev_aucs, none_rec, [], none_ann, none_cis.
    repeat split; try done. by eexists. }
  rewrite bind_eq.
  match goal with
  | |- context [enriched_rows ?a ?b ?c ?e ?f ?g ?h ?i ?j ?st] =>
      destruct (enriched_rows_calls a b c e f g h i j st) as (evs & Htr & Hevs);
      destruct (enriched_rows a b c e f g h i j st) as [σ1 [e'|rows]] eqn:Hrows
  end; cbn [fst snd st_self st_trace] in *.
  - destruct Hevs as [-> | (rec & les & Hrec & Hles & ->)].
    + exists [ev_aucs], ev_aucs, none_rec, [], none_ann, none_cis.
      split; [rewrite Htr, app_nil_r; by unfold record, run_state_traced|].
      repeat split; try done. by eexists.
    + exists (ev_aucs :: rec :: les), ev_aucs, rec, les, none_ann, none_cis.
      split; [rewrite Htr; unfold record, run_state_traced; cbn [st_trace];
              by rewrite <- app_assoc|].
      repeat split; try done. by eexists.
  - apply enriched_rows_inv in Hrows
      as (product & cutoff & rccs & _ & _ & _ & _ & _ & _ & _ & _ & ->).
    match goal with
    | |- context [finish rows ?st] =>
        destruct (finish_calls rows st) as (ann & Hann & Hfin)
    end.
    match type of Hfin with
    | context [add_events _ (?rec :: ?les)] =>
        set (ev_rec := rec) in *; set (ev_les := les) in *
    end.
    assert (Hles : Forall (λ ev, kind_of ev = Leading_edge_step) ev_les).
    { apply Forall_forall. intros ev Hev. unfold ev_les in Hev.
      change (map ?f ?l) with (f <$> l) in Hev.
      apply list_elem_of_fmap in Hev as ([[[[m nes] auc] rcc] rk] & -> & _).
      done. }
    destruct Hfin as [Hfin | (cis & Hcis & Hfin)].
    + exists (ev_aucs :: ev_rec :: ev_les ++ [ann]), ev_aucs, ev_rec, ev_les,
        ann, none_cis.
      split; [rewrite Hfin; unfold add_events, record, run_state_traced;
              cbn [st_trace]; by rewrite <- !app_assoc|].
      repeat split; try done.
      exists [none_cis]. cbn [app]. by rewrite <- app_assoc.
    + exists (ev_aucs :: ev_rec :: ev_les ++ [ann; cis]), ev_aucs, ev_rec,
        ev_les, ann, cis.
      split; [rewrite Hfin; unfold add_events, record, run_state_traced;
              cbn [st_trace]; by rewrite <- !app_assoc|].
      repeat split; try done.
Qed.

End CallOrder.

(** ** From the database object to the matrix of a run *)

Lemma mt_loc_subset (t : MappingTable) (labels : list string)
    (rows : MappingTable) :
  mt_loc t labels = inr rows → Forall (λ row, row ∈ t) rows.
Proof.
  unfold mt_loc, result_bind.
  destruct (result_mapM _ labels) as [e|groups] eqn:Hm; [done|].
  intros [= <-]. apply result_mapM_inr in Hm.
  apply Forall_forall. intros row Hrow.
  apply elem_of_concat in Hrow as (group & Hrow & Hgroup).
  apply list_elem_of_lookup in Hgroup as [i Hi].
  destruct (Forall2_lookup_r _ _ _ _ _ Hm Hi) as (l & _ & Hl).
  destruct (filter (λ r, mr_label r = l) t) as [|x xs] eqn:Hf; [done|].
  injection Hl as <-. rewrite <- Hf in Hrow.
  by apply list_elem_of_filter in Hrow as [_ ?].
Qed.

Lemma od_lookup_elem_of {V} (k : string) (v : V) (d : odict V) :
  od_lookup k d = Some v → (k, v) ∈ d.
Proof.
  induction d as [|[k1 v1] d IH]; simpl; [done|].
  case_decide; [|right; auto]. intros [= ->]. subst k1. left.
Qed.

Section ServedRuns.

Context `{Externals}.

(** The database regions of the mapping of a run are among those of the
    mapping of the database object. *)
Lemma resolve_regions_to_db_queries (self : cisTarget)
    (ctx_db : cisTargetDatabase) (mapping : MappingTable) :
  resolve_regions_to_db self ctx_db = inr mapping →
  Forall (λ row, Query row ∈ all_queries (db_regions_to_db ctx_db)) mapping.
Proof.
  unfold resolve_regions_to_db.
  destruct (db_regions_to_db ctx_db) as [|d|t]; [done| |].
  - destruct (od_lookup (name self) d) as [t|] eqn:Hl; [|done].
    intros [= <-]. apply od_lookup_elem_of in Hl.
    apply Forall_forall. intros row Hrow. simpl.
    apply elem_of_concat. exists (map Query t). split.
    + change (map ?f ?l) with (f <$> l). apply list_elem_of_fmap. eauto.
    + change (map ?f d) with (f <$> d). apply list_elem_of_fmap.
      by exists (name self, t).
  - intros Hrows%mt_loc_subset. eapply Forall_impl; [exact Hrows|].
    simpl. intros row Hrow. change (map ?f ?l) with (f <$> l).
    apply list_elem_of_fmap. eauto.
Qed.

(** The [Query] values of what [map_region_sets] returns come from
    [target_to_query]. *)
Lemma map_region_sets_queries (region_sets : region_sets_arg)
    (v : list string) (fo : float) (tr tr' : list event)
    (rtd : regions_to_db_t) (qs : list string) :
  (∀ rs t, target_to_query rs v fo = inr t → Forall (λ row, Query row ∈ v) t) →
  map_region_sets region_sets v fo tr = (tr', inr (rtd, qs)) →
  Forall (λ q, q ∈ v) (all_queries rtd).
Proof.
  intros Httq. destruct region_sets as [|d|r|]; simpl; try done.
  - intros Hrun. apply bind_inv in Hrun as (tables & tr1 & Htables & Hret).
    injection Hret as _ <- _.
    apply mapM_target_to_query_tables in Htables as [Hall _]. simpl.
    apply Forall_forall. intros q Hq.
    apply elem_of_concat in Hq as (qs' & Hq & Hqs').
    change (map ?f tables) with (f <$> tables) in Hqs'.
    apply list_elem_of_fmap in Hqs' as ([k t] & -> & Hkt).
    apply list_elem_of_lookup in Hkt as [i Hi].
    destruct (Forall2_lookup_r _ _ _ _ _ Hall Hi) as (kv & _ & _ & Ht).
    apply Httq in Ht. rewrite Forall_forall in Ht.
    change (map ?f ?l) with (f <$> l) in Hq.
    apply list_elem_of_fmap in Hq as (row & -> & Hrow). by apply Ht.
  - intros Hrun. apply bind_call_inv in Hrun as (t & Ht & Hret).
    injection Hret as _ <- _. simpl. apply Httq in Ht.
    unfold set_index_Target. rewrite map_map. simpl.
    apply Forall_forall. intros q Hq.
    change (map ?f ?l) with (f <$> l) in Hq.
    apply list_elem_of_fmap in Hq as (row & -> & Hrow).
    rewrite Forall_forall in Ht. by apply Ht.
Qed.

(** X16: a database object built from region sets holds a column for
    every region of the runs it serves.  When the region keys of the
    database carry no prefix, or all carry the same one, [target_to_query]
    maps onto the keys it is given, [load] returns database columns, among
    them the keys asked for, and the signature of a run holds regions of its
    mapping only, then for every run whose mapping is resolved and whose
    signature is built the rankings of its motifs and regions are taken
    without [KeyError]. *)
Theorem cisTargetDatabase_serves_run (fname : string)
    (region_sets : region_sets_arg) (db_name : option string) (fo : float)
    (tr tr' : list event) (ctx_db : cisTargetDatabase)
    (db : FeatherRankingDatabase) (self : cisTarget) (mapping : MappingTable)
    (sig : Signature) :
  let nm := match db_name with None => basename fname | Some n => n end in
  open_FeatherRankingDatabase fname nm = inr db →
  (∃ k0 ks, genes db = k0 :: ks ∧
     (py_contains "__" k0 = false ∨
      ∃ p, Forall (λ k, carries_prefix p k = true) (genes db))) →
  (∀ rs v t, target_to_query rs v fo = inr t →
             Forall (λ row, Query row ∈ v) t) →
  (∀ sig l, load db sig = inr l →
            Forall (λ c, c ∈ genes db) (df_columns l) ∧
            Forall (λ k, k ∈ genes db → k ∈ df_columns l) sig) →
  (∀ qs n s, region_sets_to_signature qs n = inr s →
             Forall (λ g, g ∈ qs) (sig_genes s)) →
  region_sets ≠ RS_None →
  cisTargetDatabase_init fname region_sets db_name fo tr = (tr', inr ctx_db) →
  resolve_regions_to_db self ctx_db = inr mapping →
  region_sets_to_signature (map Query mapping) (name self) = inr sig →
  ∃ d, subset_rankings self ctx_db (sig_genes sig) = inr d.
Proof.
  intros nm Hopen (k0 & ks & Hgenes & Hkeys) Httq Hload Hsig Hsets Hinit Hmap
    Hbuilt.
  apply cisTargetDatabase_init_inv in Hinit.
  destruct (load_db_inv _ _ _ _ _ _ _ _ _ Hsets Hinit)
    as (db' & prefix & v & tr1 & loaded & Hopen' & Hpv & Hrs & Hloaded & _ & _
        & Hdf).
  fold nm in Hopen'. rewrite Hopen in Hopen'. injection Hopen' as <-.
  pose proof (map_region_sets_queries _ _ _ _ _ _ _ (λ rs t, Httq rs v t) Hrs)
    as Hqv.
  assert (Hcols : ∀ q, q ∈ all_queries (db_regions_to_db ctx_db) →
                       q ∈ df_columns (db_rankings ctx_db)).
  { intros q Hq. rewrite Forall_forall in Hqv. pose proof (Hqv q Hq) as Hv.
    destruct (Hload _ _ Hloaded) as [Hin Hasked].
    rewrite Forall_forall in Hasked.
    assert (Hkey : database_key prefix q
                   ∈ add_prefix prefix
                       (mapped_queries (db_regions_to_db ctx_db))).
    { rewrite add_prefix_database_key, mapped_queries_all_queries.
      change (map ?f ?l) with (f <$> l). apply list_elem_of_fmap.
      exists q. split; [done|]. by rewrite elem_of_list_set. }
    specialize (Hasked _ Hkey).
    destruct Hkeys as [Hk0 | [p Hcarry]].
    - assert (Hsp : split_prefix (genes db) = inr (None, genes db)).
      { unfold split_prefix. rewrite Hgenes. unfold getitem.
        cbn [lookup list_lookup]. by rewrite Hk0. }
      rewrite Hsp in Hpv. injection Hpv as <- <-. subst loaded.
      by apply Hasked.
    - assert (Hne : genes db ≠ []) by (by rewrite Hgenes).
      destruct (split_prefix_prefixed p (genes db) Hne Hcarry)
        as (rs & Hsp & Hround).
      rewrite Hsp in Hpv. injection Hpv as <- <-.
      destruct Hdf as (labels & Hlabels & Hdf).
      assert (Hcarry' : Forall (λ k, carries_prefix p k = true)
                               (df_columns loaded)).
      { apply Forall_forall. intros c Hc. rewrite Forall_forall in Hcarry, Hin.
        by apply Hcarry, Hin. }
      destruct (strip_keys_prefixed p _ Hcarry') as (labels' & Hl' & Hround').
      rewrite Hl' in Hlabels. injection Hlabels as <-.
      assert (Hpq : prefixed p q ∈ df_columns loaded).
      { apply Hasked. rewrite <- Hround.
        change (map ?f ?l) with (f <$> l). apply list_elem_of_fmap. eauto. }
      rewrite <- Hround' in Hpq.
      change (map ?f ?l) with (f <$> l) in Hpq.
      apply list_elem_of_fmap in Hpq as (q' & Hq' & Hin').
      apply prefixed_inj in Hq'. subst q'. by rewrite Hdf. }
  pose proof (subset_rankings_outcome self ctx_db (sig_genes sig)) as Hspec.
  destruct (subset_rankings self ctx_db _) as [e|d]; [|by exists d].
  destruct Hspec as (_ & r & Hr & Hnr). exfalso. apply Hnr.
  pose proof (Hsig (map Query mapping) (name self) sig Hbuilt) as Hg.
  rewrite Forall_forall in Hg. specialize (Hg r Hr).
  change (map ?f ?l) with (f <$> l) in Hg.
  apply list_elem_of_fmap in Hg as (row & -> & Hrow).
  apply Hcols.
  pose proof (resolve_regions_to_db_queries _ _ _ Hmap) as Hq.
  rewrite Forall_forall in Hq. by apply Hq.
Qed.

End ServedRuns.

(** ** The threshold of the selection *)

Lemma py_sum_le (m1 m2 : list bool) :
  Forall2 (λ b1 b2, b1 = true → b2 = true) m1 m2 →
  (py_sum m1 ≤ py_sum m2)%nat.
Proof.
  induction 1 as [|b1 b2 m1 m2 Hb _ IH]; [done|].
  rewrite !py_sum_cons.
  destruct b1; [rewrite (Hb eq_refl) | destruct b2]; simpl; lia.
Qed.

(** X17: the selection of line 328 is antitone in the threshold: a motif
    flagged at a threshold is flagged at every threshold below it, so
    lowering [nes_threshold] never loses a motif and never lowers the number
    of enriched motifs. *)
Theorem enriched_features_idx_antitone (ness : list float) (low high : float) :
  Float.ge high low = true →
  (∀ i, enriched_features_idx ness high !! i = Some true →
        enriched_features_idx ness low !! i = Some true) ∧
  (py_sum (enriched_features_idx ness high)
   ≤ py_sum (enriched_features_idx ness low))%nat.
Proof.
  intros Hge. unfold enriched_features_idx. split.
  - intros i. change (map ?f ?l) with (f <$> l).
    rewrite !list_lookup_fmap.
    destruct (ness !! i) as [n|]; [|done]. simpl.
    intros [= Hn]. f_equal. by apply (float_ge_trans n high low).
  - apply py_sum_le. apply Forall2_fmap, Forall_Forall2_diag.
    apply Forall_forall. intros n _ Hn. by apply (float_ge_trans n high low).
Qed.

(** ** Database objects on the sample data *)

Module Samples.

Definition fname : string := "regions_vs_motifs.feather".

(** A database whose first region key carries a prefix and whose second
    does not. *)
Definition rankings_mixed : DataFrame :=
  {| df_index := ["m1"]%string;
     df_columns := ["hg38__r1"; "r2"]%string;
     df_values := [[0; 1]] |}.

Definition mixed : Externals :=
  Reference.externals Reference.sort_stable Reference.aucs rankings_mixed.

(** Two region sets under their names. *)
Definition region_sets2 : odict PyRanges :=
  [("demo"%string, Reference.query3); ("other"%string, Reference.query_r1_r3)].

Definition no_database : cisTargetDatabase :=
  {| db_regions_to_db := RTD_None;
     db_rankings := {| df_index := []; df_columns := []; df_values := [] |};
     total_regions := 0 |}.

(** The database object [cisTargetDatabase(fname, region_sets)]. *)
Definition built (E : Externals) (region_sets : region_sets_arg)
  : cisTargetDatabase :=
  match (@cisTargetDatabase_init E fname region_sets None Reference.half []).2 with
  | inr ctx_db => ctx_db
  | inl _ => no_database
  end.

(** The mapping of a run on a database object. *)
Definition resolved (E : Externals) (self : cisTarget)
    (ctx_db : cisTargetDatabase) : MappingTable :=
  match @resolve_regions_to_db E self ctx_db with
  | inr mapping => mapping
  | inl _ => []
  end.

(** A database object whose mapping reaches a region that its rankings do
    not hold. *)
Definition db_stale : cisTargetDatabase :=
  {| db_regions_to_db :=
       RTD_table [{| mr_label := "r1"; Target := "r1"; Query := "r9" |}]%string;
     db_rankings := Reference.rankings8;
     total_regions := 8 |}.

(** The rank threshold 1/16: on eight regions the cutoff is [int(0.5)]. *)
Definition sixteenth : float := S754_finite false 4503599627370496 (-56).

Definition self_low_rank : cisTarget :=
  Reference.new_cisTarget Reference.query3 "demo" Reference.half Reference.zero
                          sixteenth None.

Definition self_r1_r3 : cisTarget :=
  Reference.new_cisTarget Reference.query_r1_r3 "demo" Reference.half
                          Reference.zero Reference.half None.

End Samples.

(** The reference collaborators keep the contracts of
    [cisTargetDatabase_serves_run]. *)
Lemma reference_exact_mapping_queries (rs : PyRanges) (v : list string)
    (fo : float) (t : MappingTable) :
  Reference.exact_mapping rs v fo = inr t → Forall (λ row, Query row ∈ v) t.
Proof.
  unfold Reference.exact_mapping. intros [= <-].
  apply Forall_forall. intros row Hrow.
  change (map ?f ?l) with (f <$> l) in Hrow.
  apply list_elem_of_fmap in Hrow as (n & -> & Hn).
  by apply list_elem_of_filter in Hn as [? _].
Qed.

Lemma reference_feather_load (df : DataFrame) (sig : list string)
    (l : DataFrame) :
  load (Reference.feather df) sig = inr l →
  Forall (λ c, c ∈ genes (Reference.feather df)) (df_columns l) ∧
  Forall (λ k, k ∈ genes (Reference.feather df) → k ∈ df_columns l) sig.
Proof.
  intros Hl. split; [by apply (reference_feather_columns df sig)|].
  simpl in *. unfold df_getitem in Hl. destruct (get_indexer _ _); [done|].
  injection Hl as <-. simpl. apply Forall_forall. intros k Hk Hin.
  by apply list_elem_of_filter.
Qed.

Lemma reference_signature_genes (qs : list string) (n : string)
    (s : Signature) :
  Reference.signature qs n = inr s → Forall (λ g, g ∈ qs) (sig_genes s).
Proof.
  unfold Reference.signature. repeat case_decide; try done. intros [= <-].
  cbn [sig_genes Reference.regulon]. apply Forall_forall. intros g Hg.
  by rewrite elem_of_list_set in Hg.
Qed.

(** ** The properties on the sample data *)

(** [load_db] on the database with one prefixed and one plain key. *)
Lemma load_db_unsplittable_keys_sample :
  let E := Samples.mixed in
  let db := Reference.feather Samples.rankings_mixed in
  (@open_FeatherRankingDatabase E Samples.fname Samples.fname = inr db ∧
   (genes db = [] ∨
    ∃ k0 ks k, genes db = k0 :: ks ∧ py_contains "__" k0 = true ∧
               k ∈ ks ∧ py_contains "__" k = false)) ∧
  @load_db E Samples.fname (RS_PyRanges Reference.query3) None Reference.half []
  = ([] ++ [Call_FeatherRankingDatabase Samples.fname Samples.fname],
     inl IndexError).
Proof.
  intros E db.
  assert (H1 : @open_FeatherRankingDatabase E Samples.fname Samples.fname
               = inr db) by reflexivity.
  assert (H2 : genes db = [] ∨
               ∃ k0 ks k, genes db = k0 :: ks ∧ py_contains "__" k0 = true ∧
                          k ∈ ks ∧ py_contains "__" k = false).
  { right. exists "hg38__r1"%string, ["r2"%string], "r2"%string.
    split; [reflexivity|]. split; [reflexivity|]. split; [left | reflexivity]. }
  split; [exact (conj H1 H2)|].
  exact (@load_db_unsplittable_keys E Samples.fname
           (RS_PyRanges Reference.query3) None Reference.half [] db H1 H2).
Defined.

(** The full load of the database with prefixed keys. *)
Lemma load_db_without_region_sets_sample :
  let E := Reference.hg38 in
  let db := Reference.feather Reference.rankings_hg38 in
  (@open_FeatherRankingDatabase E Samples.fname Samples.fname = inr db ∧
   splittable (genes db) = true) ∧
  @load_db E Samples.fname RS_None None Reference.half []
  = ([] ++ [Call_FeatherRankingDatabase Samples.fname Samples.fname;
            Call_load_full],
     match load_full db with
     | inl e => inl e
     | inr full => inr (RTD_None, full, total_genes db)
     end).
Proof.
  intros E db.
  assert (H1 : @open_FeatherRankingDatabase E Samples.fname Samples.fname
               = inr db) by reflexivity.
  assert (H2 : splittable (genes db) = true) by (vm_compute; reflexivity).
  split; [exact (conj H1 H2)|].
  exact (@load_db_without_region_sets E Samples.fname None Reference.half []
           db H1 H2).
Defined.

(** [load_db] on the sample database, whose keys carry no prefix. *)
Lemma load_db_unprefixed_keys_sample :
  let E := Reference.stable8 in
  let db := Reference.feather Reference.rankings8 in
  let run := @load_db E Samples.fname (RS_PyRanges Reference.query3) None
                      Reference.half [] in
  let rtd := RTD_table Reference.mapping3 in
  let df := Reference.rankings8_mapped in
  (@open_FeatherRankingDatabase E Samples.fname Samples.fname = inr db ∧
   genes db = "r1"%string :: ["r2"; "r3"; "r4"; "r5"; "r6"; "r7"; "r8"]%string ∧
   py_contains "__" "r1" = false ∧
   RS_PyRanges Reference.query3 ≠ RS_None ∧
   run = (run.1, inr (rtd, df, 8))) ∧
  ∃ evs,
    run.1 = [] ++ Call_FeatherRankingDatabase Samples.fname Samples.fname :: evs
               ++ [Call_load (mapped_queries rtd)] ∧
    Forall (maps_onto (genes db)) evs ∧
    load db (mapped_queries rtd) = inr df ∧
    8 = total_genes db.
Proof.
  intros E db run rtd df.
  assert (H1 : @open_FeatherRankingDatabase E Samples.fname Samples.fname
               = inr db) by reflexivity.
  assert (H2 : genes db = "r1"%string
                 :: ["r2"; "r3"; "r4"; "r5"; "r6"; "r7"; "r8"]%string)
    by reflexivity.
  assert (H3 : py_contains "__" "r1" = false) by reflexivity.
  assert (H4 : RS_PyRanges Reference.query3 ≠ RS_None) by discriminate.
  assert (H5 : run = (run.1, inr (rtd, df, 8))) by (vm_compute; reflexivity).
  split; [exact (conj H1 (conj H2 (conj H3 (conj H4 H5))))|].
  exact (@load_db_unprefixed_keys E Samples.fname (RS_PyRanges Reference.query3)
           None Reference.half [] run.1 rtd df 8 db "r1"%string
           ["r2"; "r3"; "r4"; "r5"; "r6"; "r7"; "r8"]%string H1 H2 H3 H4 H5).
Defined.

(** The keys asked of the database with prefixed keys. *)
Lemma load_db_signature_sample :
  let E := Reference.hg38 in
  let run := @load_db E Samples.fname (RS_PyRanges Reference.query_r1_r3) None
                      Reference.half [] in
  let rtd := RTD_table [{| mr_label := "r1"; Target := "r1"; Query := "r1" |};
                        {| mr_label := "r3"; Target := "r3"; Query := "r3" |}]%string in
  let df := {| df_index := ["m1"; "m2"]%string;
               df_columns := ["r1"; "r3"]%string;
               df_values := [[0; 2]; [2; 0]] |} in
  (RS_PyRanges Reference.query_r1_r3 ≠ RS_None ∧
   run = (run.1, inr (rtd, df, 3))) ∧
  ∃ db prefix v evs sig,
    @open_FeatherRankingDatabase E Samples.fname Samples.fname = inr db ∧
    split_prefix (genes db) = inr (prefix, v) ∧
    run.1 = [] ++ Call_FeatherRankingDatabase Samples.fname Samples.fname
               :: evs ++ [Call_load sig] ∧
    Forall (maps_onto v) evs ∧
    NoDup sig ∧
    ∀ k, k ∈ sig ↔ ∃ q, q ∈ all_queries rtd ∧ k = database_key prefix q.
Proof.
  intros E run rtd df.
  assert (H1 : RS_PyRanges Reference.query_r1_r3 ≠ RS_None) by discriminate.
  assert (H2 : run = (run.1, inr (rtd, df, 3))) by (vm_compute; reflexivity).
  split; [exact (conj H1 H2)|].
  exact (@load_db_signature E Samples.fname (RS_PyRanges Reference.query_r1_r3)
           None Reference.half [] run.1 rtd df 3 H1 H2).
Defined.

(** A database object for two region sets, and the run named [demo]. *)
Lemma cisTargetDatabase_dict_resolve_sample :
  let E := Reference.stable8 in
  let run := @cisTargetDatabase_init E Samples.fname
               (RS_dict Samples.region_sets2) None Reference.half [] in
  let ctx_db := Samples.built E (RS_dict Samples.region_sets2) in
  (run = (run.1, inr ctx_db) ∧
   od_lookup (name Reference.self3) Samples.region_sets2
   = Some Reference.query3) ∧
  ∃ db prefix v t,
    @open_FeatherRankingDatabase E Samples.fname Samples.fname = inr db ∧
    split_prefix (genes db) = inr (prefix, v) ∧
    Call_target_to_query Reference.query3 v Reference.half ∈ run.1 ∧
    @target_to_query E Reference.query3 v Reference.half = inr t ∧
    @resolve_regions_to_db E Reference.self3 ctx_db = inr t.
Proof.
  intros E run ctx_db.
  assert (H1 : run = (run.1, inr ctx_db)) by (vm_compute; reflexivity).
  assert (H2 : od_lookup (name Reference.self3) Samples.region_sets2
               = Some Reference.query3) by reflexivity.
  split; [exact (conj H1 H2)|].
  exact (@cisTargetDatabase_dict_resolve E Samples.fname Samples.region_sets2
           None Reference.half [] run.1 ctx_db Reference.self3 Reference.query3
           H1 H2).
Defined.

(** A database object for one region set, and a run on it. *)
Lemma cisTargetDatabase_table_resolve_sample :
  let E := Reference.stable8 in
  let run := @cisTargetDatabase_init E Samples.fname
               (RS_PyRanges Reference.query3) None Reference.half [] in
  let ctx_db := Samples.built E (RS_PyRanges Reference.query3) in
  run = (run.1, inr ctx_db) ∧
  ∃ v t rows,
    @target_to_query E Reference.query3 v Reference.half = inr t ∧
    db_regions_to_db ctx_db = RTD_table (set_index_Target t) ∧
    @resolve_regions_to_db E Samples.self_r1_r3 ctx_db = inr rows ∧
    ∀ row, row ∈ rows ↔
           row ∈ set_index_Target t ∧
           Target row ∈ @coord_to_region_names E (region_set Samples.self_r1_r3).
Proof.
  intros E run ctx_db.
  assert (H1 : run = (run.1, inr ctx_db)) by (vm_compute; reflexivity).
  split; [exact H1|].
  exact (@cisTargetDatabase_table_resolve E Samples.fname Reference.query3
           None Reference.half [] run.1 ctx_db Samples.self_r1_r3 H1).
Defined.

(** A run on a database object built without region sets. *)
Lemma run_ctx_without_mapping_sample :
  let E := Reference.stable8 in
  let run := @cisTargetDatabase_init E Samples.fname RS_None None
               Reference.half [] in
  let ctx_db := Samples.built E RS_None in
  let σ := Reference.start Reference.self3 in
  run = (run.1, inr ctx_db) ∧
  (RS_None = RS_None → @run_ctx E ctx_db σ = (σ, inl AttributeError)) ∧
  (∀ d, RS_None = RS_dict d → od_lookup (name (st_self σ)) d = None →
        @run_ctx E ctx_db σ = (σ, inl KeyError)).
Proof.
  intros E run ctx_db σ.
  assert (H1 : run = (run.1, inr ctx_db)) by (vm_compute; reflexivity).
  split; [exact H1|].
  exact (@run_ctx_without_mapping E Samples.fname RS_None None Reference.half
           [] run.1 ctx_db σ H1).
Defined.

(** A run whose mapping reaches the region [r9], which the rankings do not
    hold. *)
Lemma run_ctx_region_not_in_database_sample :
  let E := Reference.stable8 in
  let σ := Reference.start Reference.self3 in
  let self := st_self σ in
  let mapping :=
    [{| mr_label := "r1"; Target := "r1"; Query := "r9" |}]%string in
  let sig := Reference.regulon (map Query mapping) (name self) in
  (@resolve_regions_to_db E self Samples.db_stale = inr mapping ∧
   @region_sets_to_signature E (map Query mapping) (name self) = inr sig ∧
   "r9"%string ∈ sig_genes sig ∧
   "r9"%string ∉ df_columns (db_rankings Samples.db_stale)) ∧
  @run_ctx E Samples.db_stale σ
  = ({| st_self := set_regions_to_db mapping self; st_trace := st_trace σ |},
     inl KeyError).
Proof.
  intros E σ self mapping sig.
  assert (H1 : @resolve_regions_to_db E self Samples.db_stale = inr mapping)
    by (vm_compute; reflexivity).
  assert (Hs : @region_sets_to_signature E (map Query mapping) (name self)
               = inr sig) by (vm_compute; reflexivity).
  assert (H2 : "r9"%string ∈ sig_genes sig)
    by (apply (bool_decide_unpack _); vm_compute; exact I).
  assert (H3 : "r9"%string ∉ df_columns (db_rankings Samples.db_stale))
    by (apply (bool_decide_unpack _); vm_compute; exact I).
  split; [exact (conj H1 (conj Hs (conj H2 H3)))|].
  exact (@run_ctx_region_not_in_database E Samples.db_stale σ mapping sig
           "r9"%string H1 Hs H2 H3).
Defined.

(** The sample run with the rank threshold 1/16: three motifs are enriched
    and the rank cutoff is 0. *)
Lemma run_ctx_no_rank_to_recover_sample :
  let E := Reference.stable8 in
  let σ := Reference.start Samples.self_low_rank in
  let self := st_self σ in
  let sig := Reference.regulon (map Query Reference.mapping3) (name self) in
  let regions := sig_genes sig in
  let weights := repeat Float.one (length regions) in
  let d := Reference.rankings8_mapped in
  let aucs := Reference.aucs8 in
  let idx := enriched_features_idx (@compute_ness E aucs) (nes_threshold self) in
  (@resolve_regions_to_db E self Reference.db8 = inr Reference.mapping3 ∧
   @region_sets_to_signature E (map Query Reference.mapping3) (name self)
   = inr sig ∧
   subset_rankings self Reference.db8 regions = inr d ∧
   @calc_aucs E d 8 weights (auc_threshold self) = inr aucs ∧
   py_sum idx ≠ 0%nat ∧
   (regions = [] ∨
    ∃ cutoff, result_bind (Float.mul_int (rank_threshold self) 8) Float.to_int
              = inr cutoff ∧ cutoff ≤ 0)) ∧
  ∃ e, (@run_ctx E Reference.db8 σ).2 = inl e.
Proof.
  intros E σ self sig regions weights d aucs idx.
  assert (H1 : @resolve_regions_to_db E self Reference.db8
               = inr Reference.mapping3) by (vm_compute; reflexivity).
  assert (Hs : @region_sets_to_signature E (map Query Reference.mapping3)
                                           (name self) = inr sig)
    by (vm_compute; reflexivity).
  assert (H2 : subset_rankings self Reference.db8 regions = inr d)
    by (vm_compute; reflexivity).
  assert (H3 : @calc_aucs E d 8 weights (auc_threshold self) = inr aucs)
    by (vm_compute; reflexivity).
  assert (H4 : py_sum idx ≠ 0%nat) by (vm_compute; discriminate).
  assert (H5 : regions = [] ∨
               ∃ cutoff, result_bind (Float.mul_int (rank_threshold self) 8)
                                     Float.to_int = inr cutoff ∧ cutoff ≤ 0).
  { right. exists 0. split; [vm_compute; reflexivity | lia]. }
  split; [exact (conj H1 (conj Hs (conj H2 (conj H3 (conj H4 H5)))))|].
  exact (@run_ctx_no_rank_to_recover E Reference.db8 σ Reference.mapping3 sig d aucs
           H1 Hs H2 H3 H4 H5).
Defined.

(** The sample run: the motifs of the hit dicts and of the table. *)
Lemma run_ctx_motif_order_sample :
  let E := Reference.stable8 in
  let σ := Reference.start Reference.self3 in
  let σ' := (@run_ctx E Reference.db8 σ).1 in
  let self := st_self σ in
  let sig := Reference.regulon (map Query Reference.mapping3) (name self) in
  let weights := repeat Float.one (length (sig_genes sig)) in
  let d := Reference.rankings8_mapped in
  (@resolve_regions_to_db E self Reference.db8 = inr Reference.mapping3 ∧
   @region_sets_to_signature E (map Query Reference.mapping3) (name self)
   = inr sig ∧
   subset_rankings self Reference.db8 (sig_genes sig) = inr d ∧
   @calc_aucs E d 8 weights Reference.half = inr Reference.aucs8 ∧
   NoDup (df_index Reference.rankings8) ∧
   @sort_permutes E ∧ @annotation_keeps_index E ∧
   @run_ctx E Reference.db8 σ = (σ', inr tt)) ∧
  ∃ hits db rs table,
    motif_hits (st_self σ') = Some hits ∧
    hits !! "Database"%string = Some db ∧
    hits !! "Region_set"%string = Some rs ∧
    motif_enrichment (st_self σ') = Some table ∧
    NoDup (od_keys db) ∧
    od_keys rs = od_keys db ∧
    map me_motif (me_rows table) = od_keys db.
Proof.
  intros E σ σ' self sig weights d.
  assert (H1 : @resolve_regions_to_db E self Reference.db8
               = inr Reference.mapping3) by (vm_compute; reflexivity).
  assert (Hs : @region_sets_to_signature E (map Query Reference.mapping3)
                                           (name self) = inr sig)
    by (vm_compute; reflexivity).
  assert (H2 : subset_rankings self Reference.db8 (sig_genes sig) = inr d)
    by (vm_compute; reflexivity).
  assert (H3 : @calc_aucs E d 8 weights Reference.half = inr Reference.aucs8)
    by (vm_compute; reflexivity).
  assert (H4 : NoDup (df_index Reference.rankings8))
    by (apply (bool_decide_unpack _); vm_compute; exact I).
  assert (H5 : @run_ctx E Reference.db8 σ = (σ', inr tt))
    by (vm_compute; reflexivity).
  pose proof (reference_annotation_keeps_index Reference.sort_stable
                Reference.aucs Reference.rankings8) as H6.
  split; [exact (conj H1 (conj Hs (conj H2 (conj H3 (conj H4
                   (conj sort_stable_Permutation (conj H6 H5)))))))|].
  exact (@run_ctx_motif_order E Reference.db8 σ Reference.mapping3 sig d
           Reference.aucs8 H1 Hs H2 H3 σ' H4 sort_stable_Permutation H6 H5).
Defined.

(** The database object for one region set on the database with prefixed
    keys serves the run of that region set. *)
Lemma cisTargetDatabase_serves_run_sample :
  let E := Reference.hg38 in
  let db := Reference.feather Reference.rankings_hg38 in
  let region_sets := RS_PyRanges Reference.query_r1_r3 in
  let run := @cisTargetDatabase_init E Samples.fname region_sets None
               Reference.half [] in
  let ctx_db := Samples.built E region_sets in
  let self := Samples.self_r1_r3 in
  let mapping := Samples.resolved E self ctx_db in
  let sig := Reference.regulon (map Query mapping) (name self) in
  (@open_FeatherRankingDatabase E Samples.fname Samples.fname = inr db ∧
   (∃ k0 ks, genes db = k0 :: ks ∧
      (py_contains "__" k0 = false ∨
       ∃ p, Forall (λ k, carries_prefix p k = true) (genes db))) ∧
   (∀ rs v t, @target_to_query E rs v Reference.half = inr t →
              Forall (λ row, Query row ∈ v) t) ∧
   (∀ sig l, load db sig = inr l →
             Forall (λ c, c ∈ genes db) (df_columns l) ∧
             Forall (λ k, k ∈ genes db → k ∈ df_columns l) sig) ∧
   (∀ qs n s, @region_sets_to_signature E qs n = inr s →
              Forall (λ g, g ∈ qs) (sig_genes s)) ∧
   region_sets ≠ RS_None ∧
   run = (run.1, inr ctx_db) ∧
   @resolve_regions_to_db E self ctx_db = inr mapping ∧
   @region_sets_to_signature E (map Query mapping) (name self) = inr sig) ∧
  ∃ d, subset_rankings self ctx_db (sig_genes sig) = inr d.
Proof.
  intros E db region_sets run ctx_db self mapping sig.
  assert (H1 : @open_FeatherRankingDatabase E Samples.fname Samples.fname
               = inr db) by reflexivity.
  assert (H2 : ∃ k0 ks, genes db = k0 :: ks ∧
            (py_contains "__" k0 = false ∨
             ∃ p, Forall (λ k, carries_prefix p k = true) (genes db))).
  { exists "hg38__r1"%string, ["hg38__r2"; "hg38__r3"]%string.
    split; [reflexivity|]. right. exists "hg38"%string.
    repeat (constructor; [vm_compute; reflexivity|]). constructor. }
  assert (H3 : ∀ rs v t, @target_to_query E rs v Reference.half = inr t →
                         Forall (λ row, Query row ∈ v) t)
    by (intros rs v t; apply reference_exact_mapping_queries).
  assert (H4 : ∀ sig l, load db sig = inr l →
                 Forall (λ c, c ∈ genes db) (df_columns l) ∧
                 Forall (λ k, k ∈ genes db → k ∈ df_columns l) sig)
    by apply reference_feather_load.
  assert (H5 : ∀ qs n s, @region_sets_to_signature E qs n = inr s →
                           Forall (λ g, g ∈ qs) (sig_genes s))
    by apply reference_signature_genes.
  assert (H6 : region_sets ≠ RS_None) by discriminate.
  assert (H7 : run = (run.1, inr ctx_db)) by (vm_compute; reflexivity).
  assert (H8 : @resolve_regions_to_db E self ctx_db = inr mapping)
    by (vm_compute; reflexivity).
  assert (H9 : @region_sets_to_signature E (map Query mapping) (name self)
               = inr sig) by (vm_compute; reflexivity).
  split; [exact (conj H1 (conj H2 (conj H3 (conj H4 (conj H5 (conj H6
                   (conj H7 (conj H8 H9))))))))|].
  exact (@cisTargetDatabase_serves_run E Samples.fname region_sets None
           Reference.half [] run.1 ctx_db db self mapping sig H1 H2 H3 H4 H5
           H6 H7 H8 H9).
Defined.

(** Lowering the threshold from 3 to 0 on the NES of the sample. *)
Lemma enriched_features_idx_antitone_sample :
  let ness := @compute_ness Reference.stable8 Reference.aucs8 in
  Float.ge (Reference.of_Z 3) Reference.zero = true ∧
  (∀ i, enriched_features_idx ness (Reference.of_Z 3) !! i = Some true →
        enriched_features_idx ness Reference.zero !! i = Some true) ∧
  (py_sum (enriched_features_idx ness (Reference.of_Z 3))
   ≤ py_sum (enriched_features_idx ness Reference.zero))%nat.
Proof.
  intros ness.
  assert (H1 : Float.ge (Reference.of_Z 3) Reference.zero = true)
    by (vm_compute; reflexivity).
  split; [exact H1|].
  exact (enriched_features_idx_antitone ness Reference.zero (Reference.of_Z 3)
           H1).
Defined.

(** ** The rows of the table and the motifs they come from *)

Lemma NoDup_fmap_eq {A B} (f : A → B) (l : list A) (x y : A) :
  NoDup (map f l) → x ∈ l → y ∈ l → f x = f y → x = y.
Proof.
  intros Hnd Hx Hy Hxy.
  apply list_elem_of_lookup in Hx as [i Hi].
  apply list_elem_of_lookup in Hy as [j Hj].
  assert (Hij : i = j).
  { apply (proj1 (NoDup_alt (map f l)) Hnd i j (f x));
      change (map f l) with (f <$> l); rewrite list_lookup_fmap.
    - by rewrite Hi.
    - by rewrite Hj, Hxy. }
  subst j. congruence.
Qed.

Lemma loc_Motif_hits_unique `{Externals} (rows : list EnrichedRow)
    (r : EnrichedRow) :
  NoDup (map r_motif rows) → r ∈ rows →
  loc_Motif_hits rows (r_motif r) = r_Motif_hits r.
Proof.
  intros Hnd Hr. unfold loc_Motif_hits.
  destruct (list_find_elem_of (λ r', r_motif r' = r_motif r) rows r Hr eq_refl)
    as [[i r'] Hfind].
  rewrite Hfind. apply list_find_Some in Hfind as (Hi & Heq & _).
  f_equal. apply (NoDup_fmap_eq r_motif rows); [done| |done|done].
  by eapply list_elem_of_lookup_2.
Qed.

Section RowAlignment.

Context `{Externals}.

Variables (ctx_db : cisTargetDatabase) (σ : RunState).
Variables (mapping : MappingTable) (sig : Signature).
Variables (d : DataFrame) (aucs : list float).

Let self := st_self σ.
Let regions := sig_genes sig.
Let weights := repeat Float.one (length regions).
Let idx := enriched_features_idx (compute_ness aucs) (nes_threshold self).

Hypothesis Hmapping : resolve_regions_to_db self ctx_db = inr mapping.
Hypothesis Hsig :
  region_sets_to_signature (map Query mapping) (name self) = inr sig.
Hypothesis Hsubset : subset_rankings self ctx_db regions = inr d.
Hypothesis Haucs :
  calc_aucs d (total_regions ctx_db) weights (auc_threshold self) = inr aucs.

(** X18: the rows of the table are aligned with the motifs.  In a
    successful run with an enriched motif, every row of the table handed to
    the annotation belongs to one position of the matrix: the motif of the
    row is the label at this position, its AUC and NES are those of this
    position, its [Rank_at_max] is the one [leading_edge4row] returned for
    the recovery curve and the ranking row of this position, its
    [Region_set] is the label of the signature of the run, and the regions
    of [motif_hits['Database']] under the motif are the regions of that same
    leading edge. *)
Theorem run_ctx_row_alignment (σ' : RunState) :
  NoDup (df_index (db_rankings ctx_db)) →
  sort_permutes →
  py_sum idx ≠ 0%nat →
  run_ctx ctx_db σ = (σ', inr tt) →
  ∃ cutoff rccs s table hits db,
    recovery d (total_regions ctx_db) weights cutoff (auc_threshold self) true
    = inr rccs ∧
    Call_add_motif_annotation s ∈ st_trace σ' ∧
    motif_enrichment s = Some table ∧
    motif_hits (st_self σ') = Some hits ∧
    hits !! "Database"%string = Some db ∧
    ∀ row, row ∈ me_rows table →
      ∃ i a rcc ranking le,
        df_index d !! i = Some (me_motif row) ∧
        aucs !! i = Some a ∧
        rccs !! i = Some rcc ∧
        df_values d !! i = Some ranking ∧
        me_AUC row = a ∧
        me_NES row = Float.div (Float.sub a (np_mean aucs)) (np_std aucs) ∧
        leading_edge4row rcc ranking (avg2stdrcc_of rccs) regions
                         (map (sig_weight sig) regions) = inr le ∧
        me_Rank_at_max row = le.2 ∧
        me_Region_set row = transcription_factor sig ∧
        od_lookup (me_motif row) db = Some (map fst le.1).
Proof using Hmapping Hsig Hsubset Haucs.
  intros Hindex Hperm Hnz Hrun.
  destruct (run_ctx_enriched_inv _ _ _ _ _ _ Hmapping Hsig Hsubset Haucs σ' Hnz Hrun)
    as (product & cutoff & rccs & rows & annotated & table & c & HF & _ & _
        & Hrec & HR & HK & _ & Hle & _ & _ & _ & ->).
  set (sorted := sort_values_NES_desc rows) in *.
  assert (Hnd : NoDup (map r_motif sorted)).
  { eapply NoDup_Permutation_proper; [apply Permutation_map, Hperm|].
    rewrite (enriched_rows_motifs _ _ _ _ _ _ _ _ _ HF HR HK Hle).
    eapply sublist_NoDup; [|apply compress_sublist].
    by apply (subset_rankings_NoDup ctx_db σ sig d Hsubset). }
  exists cutoff, rccs,
    (set_motif_enrichment (motif_enrichment_of sorted)
       (set_regions_to_db mapping self)),
    (motif_enrichment_of sorted).
  eexists _, (db_motif_hits_of sorted).
  split; [done|]. split.
  { cbn [st_trace]. apply elem_of_app. right.
    rewrite !elem_of_cons, elem_of_app, !elem_of_cons. auto. }
  split; [done|]. split; [done|]. split; [apply lookup_insert_eq|].
  intros row Hrow. cbn [me_rows motif_enrichment_of] in Hrow.
  change (map ?f ?l) with (f <$> l) in Hrow.
  apply list_elem_of_fmap in Hrow as (r & -> & Hr).
  assert (Hr' : r ∈ rows).
  { eapply elem_of_Permutation_proper; [symmetry; apply Hperm | done]. }
  apply list_elem_of_lookup in Hr' as [k Hk].
  destruct (Forall2_lookup_r _ _ _ _ _ Hle Hk)
    as ([[[[m nes] auc] rcc] rk] & Hw & le & Hcall & ->).
  assert (Hin : (m, nes, auc, rcc, rk) ∈ enriched_wide σ d aucs rccs)
    by (by eapply list_elem_of_lookup_2).
  unfold enriched_wide in Hin. rewrite wide_rows_compress in Hin.
  apply elem_of_compress in Hin as (i & Hi & _).
  apply wide_rows_lookup in Hi as (Hm & Hn & Ha & Hrcc & Hrk).
  exists i, auc, rcc, rk, le. cbn.
  split; [done|]. split; [done|]. split; [done|]. split; [done|].
  split; [done|]. split.
  { unfold compute_ness in Hn. change (map ?f ?l) with (f <$> l) in Hn.
    rewrite list_lookup_fmap, Ha in Hn. by injection Hn as <-. }
  split; [done|]. split; [done|]. split; [done|].
  unfold db_motif_hits_of. rewrite od_comprehension_lookup.
  rewrite decide_True.
  - pose proof (loc_Motif_hits_unique sorted _ Hnd Hr) as Hloc.
    cbn [r_motif r_Motif_hits] in Hloc. by rewrite Hloc.
  - change (map ?f ?l) with (f <$> l). apply list_elem_of_fmap.
    eexists. split; [|exact Hr]. done.
Qed.

End RowAlignment.

(** The sample run: each row of the table and its position in the
    matrix. *)
Lemma run_ctx_row_alignment_sample :
  let E := Reference.stable8 in
  let σ := Reference.start Reference.self3 in
  let σ' := (@run_ctx E Reference.db8 σ).1 in
  let self := st_self σ in
  let sig := Reference.regulon (map Query Reference.mapping3) (name self) in
  let regions := sig_genes sig in
  let weights := repeat Float.one (length regions) in
  let d := Reference.rankings8_mapped in
  let aucs := Reference.aucs8 in
  let idx := enriched_features_idx (@compute_ness E aucs) (nes_threshold self) in
  (@resolve_regions_to_db E self Reference.db8 = inr Reference.mapping3 ∧
   @region_sets_to_signature E (map Query Reference.mapping3) (name self)
   = inr sig ∧
   subset_rankings self Reference.db8 regions = inr d ∧
   @calc_aucs E d 8 weights Reference.half = inr aucs ∧
   NoDup (df_index Reference.rankings8) ∧
   @sort_permutes E ∧
   py_sum idx ≠ 0%nat ∧
   @run_ctx E Reference.db8 σ = (σ', inr tt)) ∧
  ∃ cutoff rccs s table hits db,
    @recovery E d 8 weights cutoff (auc_threshold self) true = inr rccs ∧
    Call_add_motif_annotation s ∈ st_trace σ' ∧
    motif_enrichment s = Some table ∧
    motif_hits (st_self σ') = Some hits ∧
    hits !! "Database"%string = Some db ∧
    ∀ row, row ∈ me_rows table →
      ∃ i a rcc ranking le,
        df_index d !! i = Some (me_motif row) ∧
        aucs !! i = Some a ∧
        rccs !! i = Some rcc ∧
        df_values d !! i = Some ranking ∧
        me_AUC row = a ∧
        me_NES row = Float.div (Float.sub a (@np_mean E aucs)) (@np_std E aucs) ∧
        @leading_edge4row E rcc ranking (@avg2stdrcc_of E rccs) regions
                          (map (sig_weight sig) regions) = inr le ∧
        me_Rank_at_max row = le.2 ∧
        me_Region_set row = transcription_factor sig ∧
        od_lookup (me_motif row) db = Some (map fst le.1).
Proof.
  intros E σ σ' self sig regions weights d aucs idx.
  assert (H1 : @resolve_regions_to_db E self Reference.db8
               = inr Reference.mapping3) by (vm_compute; reflexivity).
  assert (Hs : @region_sets_to_signature E (map Query Reference.mapping3)
                                           (name self) = inr sig)
    by (vm_compute; reflexivity).
  assert (H2 : subset_rankings self Reference.db8 regions = inr d)
    by (vm_compute; reflexivity).
  assert (H3 : @calc_aucs E d 8 weights Reference.half = inr aucs)
    by (vm_compute; reflexivity).
  assert (H4 : NoDup (df_index Reference.rankings8))
    by (apply (bool_decide_unpack _); vm_compute; exact I).
  assert (H5 : py_sum idx ≠ 0%nat) by (vm_compute; discriminate).
  assert (H6 : @run_ctx E Reference.db8 σ = (σ', inr tt))
    by (vm_compute; reflexivity).
  split; [exact (conj H1 (conj Hs (conj H2 (conj H3 (conj H4
                   (conj sort_stable_Permutation (conj H5 H6)))))))|].
  exact (@run_ctx_row_alignment E Reference.db8 σ Reference.mapping3 sig d aucs
           H1 Hs H2 H3 σ' H4 sort_stable_Permutation H5 H6).
Defined.

(** ** Region sets without a mapped region *)

Lemma list_set_nil : list_set [] = [].
Proof. unfold list_set. simpl. apply elements_empty. Qed.

Lemma add_prefix_nil (prefix : option string) : add_prefix prefix [] = [].
Proof. by destruct prefix. Qed.

Lemma GeneSignature_nil (name : string) :
  GeneSignature name [] = inl ValueError.
Proof. unfold GeneSignature. by repeat case_decide. Qed.

Lemma concat_no_rows {A B} (l : list A) :
  concat (map (λ _ : A, @nil B) l) = [].
Proof. induction l as [|x l IH]; [done|]. simpl. exact IH. Qed.

Section NothingMapped.

Context `{Externals}.

(** The tables of a dict of region sets none of which has a mapped
    region. *)
Lemma mapM_target_to_query_no_rows (v : list string) (fo : float)
    (d : odict PyRanges) (tr : list event) :
  Forall (λ kv : string * PyRanges, target_to_query kv.2 v fo = inr []) d →
  mapM (λ kv : string * PyRanges,
          t <- call (Call_target_to_query kv.2 v fo) (target_to_query kv.2 v fo) ;;
          ret (kv.1, t)) d tr
  = (tr ++ map (λ kv : string * PyRanges, Call_target_to_query kv.2 v fo) d,
     inr (map (λ kv : string * PyRanges, (kv.1, @nil MappingRow)) d)).
Proof.
  intros Hall. revert tr. induction Hall as [|kv d Hkv _ IH]; intros tr.
  - simpl. unfold ret. by rewrite app_nil_r.
  - cbn [mapM map]. rewrite bind_eq, bind_call_eq, Hkv. unfold ret at 1.
    rewrite bind_eq, IH. unfold ret, record, trace_traced.
    by rewrite <- app_assoc.
Qed.

(** X20: region sets of which no region is mapped onto the database.  When
    [target_to_query] returns a table without rows for the region set, or
    for every region set of the dict (an empty dict included), [load_db]
    raises [ValueError] at line 126, where the signature of the regions to
    load is built from an empty list: the mapping calls have been made, and
    nothing is loaded. *)
Theorem load_db_nothing_mapped (fname : string) (region_sets : region_sets_arg)
    (db_name : option string) (fo : float) (tr : list event)
    (db : FeatherRankingDatabase) (prefix : option string) (v : list string) :
  let nm := match db_name with None => basename fname | Some n => n end in
  open_FeatherRankingDatabase fname nm = inr db →
  split_prefix (genes db) = inr (prefix, v) →
  match region_sets with
  | RS_PyRanges r => target_to_query r v fo = inr []
  | RS_dict d =>
      Forall (λ kv : string * PyRanges, target_to_query kv.2 v fo = inr []) d
  | _ => False
  end →
  load_db fname region_sets db_name fo tr
  = (tr ++ Call_FeatherRankingDatabase fname nm
        :: match region_sets with
           | RS_PyRanges r => [Call_target_to_query r v fo]
           | RS_dict d =>
               map (λ kv : string * PyRanges, Call_target_to_query kv.2 v fo) d
           | _ => []
           end,
     inl ValueError).
Proof.
  intros nm Hopen Hpv Hnone. unfold load_db. fold nm.
  rewrite bind_call_eq, Hopen, bind_lift_eq, Hpv. cbn [fst snd].
  unfold record at 1, trace_traced at 1.
  destruct region_sets as [|d|r|]; [done| | |done].
  - rewrite bind_eq. cbn [map_region_sets]. rewrite bind_eq.
    rewrite (mapM_target_to_query_no_rows v fo d _ Hnone). unfold ret at 1.
    cbn [fst snd]. rewrite map_map. cbn [snd map].
    rewrite concat_no_rows, list_set_nil, add_prefix_nil.
    rewrite bind_lift_eq, GeneSignature_nil. unfold trace_traced.
    by rewrite <- app_assoc.
  - rewrite bind_eq. cbn [map_region_sets]. rewrite bind_call_eq, Hnone.
    unfold ret at 1. cbn [fst snd set_index_Target map].
    rewrite list_set_nil, add_prefix_nil.
    rewrite bind_lift_eq, GeneSignature_nil. unfold record, trace_traced.
    by rewrite <- app_assoc.
Qed.

End NothingMapped.

(** [load_db] on the sample database with a region set outside it. *)
Lemma load_db_nothing_mapped_sample :
  let E := Reference.stable8 in
  let db := Reference.feather Reference.rankings8 in
  let r := [Reference.region "zz"] in
  (@open_FeatherRankingDatabase E Samples.fname Samples.fname = inr db ∧
   split_prefix (genes db) = inr (None, genes db) ∧
   @target_to_query E r (genes db) Reference.half = inr []) ∧
  @load_db E Samples.fname (RS_PyRanges r) None Reference.half []
  = ([] ++ Call_FeatherRankingDatabase Samples.fname Samples.fname
        :: [Call_target_to_query r (genes db) Reference.half],
     inl ValueError).
Proof.
  intros E db r.
  assert (H1 : @open_FeatherRankingDatabase E Samples.fname Samples.fname
               = inr db) by reflexivity.
  assert (H2 : split_prefix (genes db) = inr (None, genes db))
    by (vm_compute; reflexivity).
  assert (H3 : @target_to_query E r (genes db) Reference.half = inr [])
    by (vm_compute; reflexivity).
  split; [exact (conj H1 (conj H2 H3))|].
  exact (@load_db_nothing_mapped E Samples.fname (RS_PyRanges r) None
           Reference.half [] db None (genes db) H1 H2 H3).
Defined.
